(** * anabim: IFC -> Excel report pipeline (multi_anabim.py)

    A shallow embedding of the report pipeline of [multi_anabim.py] and the
    properties its specification states about it.

    Conventions of the embedding.
    - Python numbers (ints and binary64 floats) are exact rationals [Q];
      the rounding of a floating-point operation is written out where a
      file size is turned into a float ([float_of_int]) and is not
      represented elsewhere.
    - A Python [dict] whose iteration order reaches the output is an
      association list in insertion order; a [dict] used only for lookup is
      a [gmap].
    - An IFC model is what the code can observe of it: one list per
      [model.by_type(kind)] query the code performs.
    - Exceptions are values of [exn]; code that may raise returns
      [result A = exn + A].
    - A workbook holds its sheets and the tables of the fonts and fills
      that its cells use; the style of a cell is an array of indices into
      the tables of the workbook that owns it.
    - What the libraries decide and the sources do not show (the title that
      a workbook gives to a new sheet, the outcome of the parser of the
      command line) enters as a parameter. *)

From Stdlib Require Import QArith Qabs ZArith List Ascii String Lia.
From Stdlib Require Import Permutation Sorted DecimalString.
From stdpp Require Import gmap strings.

Open Scope string_scope.
Open Scope list_scope.

(* ===================================================================== *)
(** * Python run-time notions *)
(* ===================================================================== *)

Module Py.

(** Exceptions the pipeline can meet. *)
Inductive exn : Type :=
| IndexError
| StopIteration
| AttributeError (name : string)
| TypeError
| KeyError (key : string)
| RuntimeError (msg : string)
| RecursionError
| OSError (msg : string)
| ValueError (msg : string)
| ModuleNotFoundError (name : string).

Definition result (A : Type) : Type := (exn + A)%type.

Definition ret {A} (a : A) : result A := inr a.
Definition raise {A} (e : exn) : result A := inl e.
Definition bind {A B} (c : result A) (k : A -> result B) : result B :=
  match c with
  | inl e => inl e
  | inr a => k a
  end.

(** An attribute of a dynamically typed entity: the class may not have it
    ([NoAttr]), the instance may leave it null ([Null], Python's [None]),
    or it holds a value. *)
Inductive attr (A : Type) : Type :=
| NoAttr
| Null
| Val (a : A).
Arguments NoAttr {A}.
Arguments Null {A}.
Arguments Val {A} a.

(** [getattr(o, name, None)] *)
Definition getattr_default {A} (a : attr A) : option A :=
  match a with
  | Val v => Some v
  | _ => None
  end.

(** [o.name] *)
Definition getattr {A} (name : string) (a : attr A) : result (option A) :=
  match a with
  | NoAttr => raise (AttributeError name)
  | Null => ret None
  | Val v => ret (Some v)
  end.

(** [l[0]] *)
Definition index0 {A} (l : list A) : result A :=
  match l with
  | [] => raise IndexError
  | x :: _ => ret x
  end.

(** [next(iter(l), None)] *)
Definition next_or_None {A} (l : list A) : option A := head l.

(** [next(iter(l))] *)
Definition next_iter {A} (l : list A) : result A :=
  match l with
  | [] => raise StopIteration
  | x :: _ => ret x
  end.

(** Truthiness of an optional string: [None] and [""] are false. *)
Definition truthy_str (s : option string) : bool :=
  match s with
  | Some (String _ _) => true
  | _ => false
  end.

(** [a or b] on optional strings. *)
Definition or_str (a b : option string) : option string :=
  if truthy_str a then a else b.

(** [x or 0] on an optional number: [None] and zero both give [0]. *)
Definition or_zero (x : option Q) : Q :=
  match x with
  | Some q => if Qeq_bool q 0 then 0%Q else q
  | None => 0%Q
  end.

(** [x < y] on numbers. *)
Definition Qltb (x y : Q) : bool := negb (Qle_bool y x).

(** [sorted(l, key=key)] for a key compared with [leb]: Python's sort is
    stable, so it is determined by the order [leb]; it is given here as the
    stable insertion sort. *)
Section Sorted.
Context {A K : Type} (leb : K -> K -> bool) (key : A -> K).

Fixpoint insert_sorted (x : A) (l : list A) : list A :=
  match l with
  | [] => [x]
  | y :: l' =>
      if leb (key x) (key y) then x :: y :: l'
      else y :: insert_sorted x l'
  end.

Fixpoint sorted (l : list A) : list A :=
  match l with
  | [] => []
  | x :: l' => insert_sorted x (sorted l')
  end.
End Sorted.

End Py.

Import Py.

Notation "'do' x <- c ; k" := (Py.bind c (fun x => k))
  (at level 10, x name, c at level 100, k at level 200).

(* ===================================================================== *)
(** * The model, as the queries of the code see it *)
(* ===================================================================== *)

(** A member of [IfcUnitAssignment.Units]. *)
Record IfcUnit : Type := {
  unit_is_a : string;
  UnitType : attr string;
  Prefix : attr string;
}.

Record IfcUnitAssignment : Type := {
  Units : attr (list IfcUnit);
}.

Record IfcBuildingStorey : Type := {
  storey_Name : option string;
  Elevation : attr Q;
}.

(** [site.ObjectPlacement]; for a local placement the coordinates are those
    of [RelativePlacement.Location.Coordinates]. *)
Inductive IfcObjectPlacement : Type :=
| IfcLocalPlacement (Coordinates : list Q)
| OtherPlacement (kind : string).

Record IfcSite : Type := {
  RefLatitude : option (list Q);
  RefLongitude : option (list Q);
  RefElevation : option Q;
  ObjectPlacement : option IfcObjectPlacement;
}.

(** Eastings and Northings are mandatory in the schema; the code guards
    only OrthogonalHeight against null. *)
Record IfcMapConversion : Type := {
  Eastings : Q;
  Northings : Q;
  OrthogonalHeight : option Q;
}.

(** An object that an aggregation relation can name. Every such object has
    an identifier and a short name, which may be null; the long name is an
    attribute of some classes only (the project and the spatial elements):
    it is [NoAttr] for an object of another class. *)
Record Entity : Type := {
  GlobalId : string;
  is_a : string;
  Name : option string;
  LongName : attr string;
}.

Record IfcRelAggregates : Type := {
  RelatingObject : Entity;
  RelatedObjects : list Entity;
}.

Record IfcProduct : Type := {
  product_is_a : string;
  PredefinedType : attr string;
  ObjectType : attr string;
}.

Record Model : Type := {
  schema : string;
  all_IfcUnitAssignment : list IfcUnitAssignment;
  all_IfcBuildingStorey : list IfcBuildingStorey;
  all_IfcSite : list IfcSite;
  (** [by_type("IfcMapConversion")] raises on a schema without the kind. *)
  all_IfcMapConversion : result (list IfcMapConversion);
  all_IfcRelAggregates : list IfcRelAggregates;
  all_IfcProject : list Entity;
  all_IfcProduct : list IfcProduct;
}.

(* ===================================================================== *)
(** * Helpers *)
(* ===================================================================== *)

(** ** [get_length_factor] *)

Definition is_si_length_unit (u : IfcUnit) : result bool :=
  if String.eqb (unit_is_a u) "IfcSIUnit" then
    do t <- getattr "UnitType" (UnitType u) ;
    ret (bool_decide (t = Some "LENGTHUNIT"))
  else ret false.

(** [next(u for u in ua if ...)] *)
Fixpoint next_matching (ua : list IfcUnit) : result IfcUnit :=
  match ua with
  | [] => raise StopIteration
  | u :: ua' =>
      do b <- is_si_length_unit u ;
      if (b : bool) then ret u else next_matching ua'
  end.

(** The unit found by the [try] block. *)
Definition length_unit (model : Model) : result IfcUnit :=
  do a <- index0 (all_IfcUnitAssignment model) ;
  do ua <- getattr "Units" (Units a) ;
  match ua with
  | None => raise TypeError
  | Some ua => next_matching ua
  end.

Definition is_milli (lu : IfcUnit) : bool :=
  bool_decide (getattr_default (Prefix lu) = Some "MILLI").

(** The body of the [try] block: [Some 0.001] when it returns, [None] when
    it falls through. *)
Definition get_length_factor_try (model : Model) : result (option Q) :=
  do lu <- length_unit model ;
  if is_milli lu then ret (Some (1 # 1000)%Q) else ret None.

Definition get_length_factor (model : Model) : Q :=
  match get_length_factor_try model with
  | inr (Some f) => f
  | inr None => 1%Q
  | inl _ => 1%Q
  end.

(** ** [dms_to_dd] *)

Definition dms_to_dd (dms : option (list Q)) : option Q :=
  match dms with
  | None => None
  | Some dms =>
      let parts := dms ++ repeat 0%Q (4 - length dms) in
      let deg := nth 0 parts 0%Q in
      let minute := nth 1 parts 0%Q in
      let sec := nth 2 parts 0%Q in
      let micro := nth 3 parts 0%Q in
      let sign := if Qltb deg 0 then (-1)%Q else 1%Q in
      Some (sign * (Qabs deg + minute / 60 + (sec + micro / 1000000) / 3600))%Q
  end.

(** ** [get_site_geolocation] *)

(** Truthiness of an optional tuple. *)
Definition truthy_tuple {A} (t : option (list A)) : bool :=
  match t with
  | Some (_ :: _) => true
  | _ => false
  end.

(** The returned [dict], in insertion order. *)
Definition get_site_geolocation (model : Model) : list (string * option Q) :=
  match next_or_None (all_IfcSite model) with
  | None => []
  | Some site =>
      [ ("latitude",
         if truthy_tuple (RefLatitude site) then dms_to_dd (RefLatitude site)
         else None);
        ("longitude",
         if truthy_tuple (RefLongitude site) then dms_to_dd (RefLongitude site)
         else None);
        ("elevation_m", RefElevation site) ]
  end.

(** ** [get_global_coords] *)

(** The [try] / [except (RuntimeError, StopIteration)] around the lookup of
    the first map-conversion object. *)
Definition first_map_conversion (model : Model) : result (option IfcMapConversion) :=
  match (do l <- all_IfcMapConversion model ; next_iter l) with
  | inr map_conv => ret (Some map_conv)
  | inl (RuntimeError _) => ret None
  | inl StopIteration => ret None
  | inl e => raise e
  end.

(** [v * factor if v is not None else None] *)
Definition scaled (factor : Q) (v : option Q) : option Q :=
  match v with
  | Some x => Some (x * factor)%Q
  | None => None
  end.

Definition get_global_coords (model : Model) : result (list (string * option Q)) :=
  let factor := get_length_factor model in
  do map_conv <- first_map_conversion model ;
  match map_conv with
  | Some map_conv =>
      ret [ ("X_global_m", Some (Eastings map_conv * factor)%Q);
            ("Y_global_m", Some (Northings map_conv * factor)%Q);
            ("Z_global_m",
             match OrthogonalHeight map_conv with
             | Some h => Some (or_zero (Some h) * factor)%Q
             | None => None
             end) ]
  | None =>
      match next_or_None (all_IfcSite model) with
      | Some site =>
          match ObjectPlacement site with
          | Some (IfcLocalPlacement Coordinates) =>
              (* x, y, *rest = list(loc.Coordinates) + [None, None] *)
              let padded := map Some Coordinates ++ [None; None] in
              let x := nth 0 padded None in
              let y := nth 1 padded None in
              let rest := skipn 2 padded in
              do z <- index0 rest ;
              ret [ ("X_global_m", scaled factor x);
                    ("Y_global_m", scaled factor y);
                    ("Z_global_m", scaled factor z) ]
          | _ => ret []
          end
      | None => ret []
      end
  end.

(** [d.get(key)] on a dict with optional values: a missing key and a stored
    [None] both read as [None]. *)
Fixpoint dict_get (key : string) (d : list (string * option Q)) : option Q :=
  match d with
  | [] => None
  | (k, v) :: d' => if String.eqb k key then v else dict_get key d'
  end.

(** ** [get_levels] *)

Definition get_levels (model : Model) : list (option string * option Q) :=
  let levels :=
    map (fun s => (storey_Name s, getattr_default (Elevation s)))
        (all_IfcBuildingStorey model) in
  sorted Qle_bool (fun t => or_zero (snd t)) levels.

(** ** [flatten_hierarchy] *)

Record HierarchyRow : Type := {
  row_Type : string;
  row_Nom : string;
  row_Profondeur : nat;
  row_Chemin : string;
}.

(** [a or b] where [b] is a string. *)
Definition or_else (a : option string) (b : string) : string :=
  match a with
  | Some (String c s) => String c s
  | _ => b
  end.

(** The dict comprehension [{rel.RelatingObject.GlobalId: rel.RelatedObjects
    for rel in ...}]: entries are stored in relation order. *)
Definition build_rels (relations : list IfcRelAggregates) : gmap string (list Entity) :=
  foldl (fun d rel => <[GlobalId (RelatingObject rel) := RelatedObjects rel]> d)
        ∅ relations.

(** [rels.get(gid, [])] *)
Definition rels_get (rels : gmap string (list Entity)) (gid : string) : list Entity :=
  default [] (rels !! gid).

(** [ent.Name or ent.LongName or ent.GlobalId]: [ent.LongName] is read
    only when the short name is null or empty, and reading it raises on an
    object whose class has no such attribute. *)
Definition display_name (ent : Entity) : result string :=
  match Name ent with
  | Some (String c s) => ret (String c s)
  | _ =>
      do long_name <- getattr "LongName" (LongName ent) ;
      ret (or_else long_name (GlobalId ent))
  end.

(** [f"{ent.is_a()}:{name}"] *)
Definition path_label (ent : Entity) (name : string) : string :=
  is_a ent ++ ":" ++ name.

Definition make_row (ent : Entity) (name : string) (path : list string)
    : HierarchyRow :=
  {| row_Type := is_a ent;
     row_Nom := name;
     row_Profondeur := length path;
     row_Chemin := String.concat "/" (path ++ [path_label ent name]) |}.

(** [for child in children: body(child)], where [body] acts on the list of
    rows and may raise. *)
Fixpoint for_in (body : Entity -> list HierarchyRow -> result (list HierarchyRow))
    (children : list Entity) (rows : list HierarchyRow)
    : result (list HierarchyRow) :=
  match children with
  | [] => ret rows
  | child :: children' =>
      do rows <- body child rows ;
      for_in body children' rows
  end.

(** The nested function [walk]; [rows] is the list it appends to, threaded
    through. [depth] bounds the nesting of calls: the interpreter raises
    [RecursionError] beyond its limit. The first statement of the body reads
    the name and may raise [AttributeError]. *)
Fixpoint walk (depth : nat) (rels : gmap string (list Entity))
    (ent : Entity) (path : list string) (rows : list HierarchyRow)
    : result (list HierarchyRow) :=
  match depth with
  | O => raise RecursionError
  | S depth' =>
      do name <- display_name ent ;
      let new_path := path ++ [path_label ent name] in
      let rows := rows ++ [make_row ent name path] in
      for_in (fun child rows => walk depth' rels child new_path rows)
             (rels_get rels (GlobalId ent)) rows
  end.

Definition flatten_hierarchy (depth : nat) (model : Model) : result (list HierarchyRow) :=
  let rels := build_rels (all_IfcRelAggregates model) in
  match next_or_None (all_IfcProject model) with
  | Some project => walk depth rels project [] []
  | None => ret []
  end.

(** ** Entity counting (in [build_workbook]) *)

Definition entity_key : Type := (string * option string)%type.

Definition subtype_of (obj : IfcProduct) : option string :=
  match PredefinedType obj with
  | Val p => Some p
  | _ =>
      if truthy_str (getattr_default (ObjectType obj))
      then getattr_default (ObjectType obj)
      else None
  end.

(** [entity_counter[key] = entity_counter.get(key, 0) + 1] on a dict in
    insertion order: an existing key keeps its position. *)
Fixpoint counter_incr (key : entity_key) (d : list (entity_key * nat))
    : list (entity_key * nat) :=
  match d with
  | [] => [(key, 1)]
  | (k, v) :: d' =>
      if decide (k = key) then (k, v + 1) :: d'
      else (k, v) :: counter_incr key d'
  end.

Definition count_entities (products : list IfcProduct) : list (entity_key * nat) :=
  foldl (fun d obj => counter_incr (product_is_a obj, subtype_of obj) d)
        [] products.

(** Order of the sort key [(-x[1], x[0][0])]: tuples compare
    lexicographically. *)
Definition rank_key (x : entity_key * nat) : Z * string :=
  (- Z.of_nat (snd x), fst (fst x))%Z.

Definition rank_leb (a b : Z * string) : bool :=
  (fst a <? fst b)%Z || ((fst a =? fst b)%Z && String.leb (snd a) (snd b)).

Record EntityRow : Type := {
  row_Entite : string;
  row_SousType : string;
  row_Nombre : nat;
}.

Definition dash : string := "—".

Definition ent_rows (entity_counter : list (entity_key * nat)) : list EntityRow :=
  map (fun kv => {| row_Entite := fst (fst kv);
                    row_SousType := or_else (snd (fst kv)) dash;
                    row_Nombre := snd kv |})
      (sorted rank_leb rank_key entity_counter).

(** ** [human_readable_size] *)

Definition string_of_Z (z : Z) : string :=
  NilEmpty.string_of_uint (N.to_uint (Z.to_N z)).

(** [f"{x:3.1f}"] for [x >= 0]: the nearest multiple of one tenth, an exact
    tie going to the even digit. *)
Definition format_1f (x : Q) : string :=
  let num := (Qnum x * 10)%Z in
  let den := Zpos (Qden x) in
  let fl := (num / den)%Z in
  let r := (num mod den)%Z in
  let tenths :=
    match (2 * r ?= den)%Z with
    | Lt => fl
    | Gt => (fl + 1)%Z
    | Eq => if Z.even fl then fl else (fl + 1)%Z
    end in
  string_of_Z (tenths / 10) ++ "." ++ string_of_Z (tenths mod 10).

(** The binary64 nearest to a non-negative integer: the integer itself up
    to 53 significant bits, beyond that the nearest multiple of the unit in
    the last place, an exact tie going to the even significand. (A file
    size is far from the largest binary64.) *)
Definition float_of_int (n : Z) : Z :=
  let excess := (Z.log2 n - 52)%Z in
  if (excess <=? 0)%Z then n
  else
    let ulp := (2 ^ excess)%Z in
    let m := (n / ulp)%Z in
    let r := (n mod ulp)%Z in
    let significand :=
      match (2 * r ?= ulp)%Z with
      | Lt => m
      | Gt => (m + 1)%Z
      | Eq => if Z.even m then m else (m + 1)%Z
      end in
    (significand * ulp)%Z.

(** The loop from its second round on, where [bytes_] is a float: dividing
    a binary64 by 1024 is exact. *)
Fixpoint human_readable_size_from (units : list string) (bytes_ : Q) : string :=
  match units with
  | [] => format_1f bytes_ ++ " PB"
  | unit :: units' =>
      if Qltb bytes_ 1024 then format_1f bytes_ ++ " " ++ unit
      else human_readable_size_from units' (bytes_ / 1024)%Q
  end.

(** The first round works on the int: it is compared and formatted as it
    is, and [bytes_ /= 1024] turns it into the binary64 nearest to the
    quotient, which is the binary64 nearest to the int, divided. *)
Definition human_readable_size (bytes_ : N) : string :=
  let n := Z.of_N bytes_ in
  if (n <? 1024)%Z then format_1f (inject_Z n) ++ " B"
  else human_readable_size_from ["KB"; "MB"; "GB"; "TB"]
                                (inject_Z (float_of_int n) / 1024)%Q.

(* ===================================================================== *)
(** * Spreadsheet objects *)
(* ===================================================================== *)

(** What a cell or a frame can hold: nothing, a string, a float, an int,
    or the float that is not a number. *)
Inductive CellValue : Type :=
| VNone
| VStr (s : string)
| VNum (q : Q)
| VInt (n : nat)
| VNaN.

(** A colour: an RGB value, or the index of a colour of the theme. *)
Inductive Color : Type :=
| RGB (rgb : string)
| Theme (index : nat).

(** [Font(name=..., b=..., i=..., color=...)]; a font is compared field by
    field. *)
Record Font : Type := {
  font_name : option string;
  font_bold : bool;
  font_italic : bool;
  font_color : Color;
}.

(** [PatternFill(fill_type=..., start_color=..., end_color=...)] *)
Record PatternFill : Type := {
  fill_type : option string;
  start_color : string;
  end_color : string;
}.

#[global] Instance Color_eq_dec : EqDecision Color.
Proof. solve_decision. Defined.
#[global] Instance Font_eq_dec : EqDecision Font.
Proof. solve_decision. Defined.
#[global] Instance PatternFill_eq_dec : EqDecision PatternFill.
Proof. solve_decision. Defined.

(** The font and the two fills that every new workbook holds. *)
Definition DEFAULT_FONT : Font :=
  {| font_name := Some "Calibri"; font_bold := false; font_italic := false;
     font_color := Theme 1 |}.
Definition DEFAULT_EMPTY_FILL : PatternFill :=
  {| fill_type := None; start_color := "00000000"; end_color := "00000000" |}.
Definition DEFAULT_GRAY_FILL : PatternFill :=
  {| fill_type := Some "gray125"; start_color := "00000000";
     end_color := "00000000" |}.

(** The style tables of a workbook, [wb._fonts] and [wb._fills]: the fonts
    and the fills that its cells use, each once. *)
Record StyleTables : Type := {
  _fonts : list Font;
  _fills : list PatternFill;
}.

Definition new_tables : StyleTables :=
  {| _fonts := [DEFAULT_FONT];
     _fills := [DEFAULT_EMPTY_FILL; DEFAULT_GRAY_FILL] |}.

(** The style of a cell is an array of indices into the tables of the
    workbook that owns the cell; of its entries the font and the fill are
    kept here. A cell without style reads as the array of zeros. *)
Record StyleArray : Type := {
  fontId : nat;
  fillId : nat;
}.

Record Cell : Type := {
  value : CellValue;
  _style : StyleArray;
}.

Definition default_style : StyleArray := {| fontId := 0; fillId := 0 |}.
Definition empty_cell : Cell := {| value := VNone; _style := default_style |}.

(** [l.index(x)] *)
Fixpoint index_of {A} `{EqDecision A} (x : A) (l : list A) : option nat :=
  match l with
  | [] => None
  | y :: l' => if decide (y = x) then Some 0 else option_map S (index_of x l')
  end.

(** [IndexedList.add(x)]: [x] is appended unless the table holds it
    already; the result is the table and the index of [x] in it. *)
Definition IndexedList_add {A} `{EqDecision A} (x : A) (l : list A)
    : list A * nat :=
  match index_of x l with
  | Some i => (l, i)
  | None => (l ++ [x], length l)
  end.

(** [cell.font] and [cell.fill] in a workbook with the given tables: the
    entries that the indices of the cell select. *)
Definition cell_font (tables : StyleTables) (cell : Cell) : result Font :=
  match nth_error (_fonts tables) (fontId (_style cell)) with
  | Some font => ret font
  | None => raise IndexError
  end.

Definition cell_fill (tables : StyleTables) (cell : Cell) : result PatternFill :=
  match nth_error (_fills tables) (fillId (_style cell)) with
  | Some fill => ret fill
  | None => raise IndexError
  end.

(** A worksheet: its cells by (row, column), both counted from 1, and the
    extent of the cells created so far. *)
Record Worksheet : Type := {
  cells : gmap (nat * nat) Cell;
  max_row : nat;
  max_column : nat;
}.

Definition new_sheet : Worksheet :=
  {| cells := ∅; max_row := 0; max_column := 0 |}.

(** The cell at a coordinate, as it is or as it would be created. *)
Definition get_cell (ws : Worksheet) (rc : nat * nat) : Cell :=
  default empty_cell (cells ws !! rc).

(** Access to a cell creates it; [f] is the assignment made to it. *)
Definition update_cell (f : Cell -> Cell) (ws : Worksheet) (rc : nat * nat) : Worksheet :=
  {| cells := <[rc := f (get_cell ws rc)]> (cells ws);
     max_row := Nat.max (fst rc) (max_row ws);
     max_column := Nat.max (snd rc) (max_column ws) |}.

Definition set_value (v : CellValue) (c : Cell) : Cell :=
  {| value := v; _style := _style c |}.
Definition set_style (s : StyleArray) (c : Cell) : Cell :=
  {| value := value c; _style := s |}.
Definition set_fontId (id : nat) (c : Cell) : Cell :=
  {| value := value c;
     _style := {| fontId := id; fillId := fillId (_style c) |} |}.
Definition set_fillId (id : nat) (c : Cell) : Cell :=
  {| value := value c;
     _style := {| fontId := fontId (_style c); fillId := id |} |}.

(** [cell.font = font] for the cell at [rc] of a sheet of the workbook with
    the given tables: the font is added to the table of the workbook and the
    cell gets its index. *)
Definition assign_font (font : Font) (tables : StyleTables) (ws : Worksheet)
    (rc : nat * nat) : StyleTables * Worksheet :=
  let '(fonts, id) := IndexedList_add font (_fonts tables) in
  ({| _fonts := fonts; _fills := _fills tables |},
   update_cell (set_fontId id) ws rc).

(** [cell.fill = fill] *)
Definition assign_fill (fill : PatternFill) (tables : StyleTables)
    (ws : Worksheet) (rc : nat * nat) : StyleTables * Worksheet :=
  let '(fills, id) := IndexedList_add fill (_fills tables) in
  ({| _fonts := _fonts tables; _fills := fills |},
   update_cell (set_fillId id) ws rc).

(** [ws.cell(row=r, column=c, value=v)]: a [None] value leaves the content
    of the cell as it is. *)
Definition ws_cell (ws : Worksheet) (rc : nat * nat) (v : CellValue) : Worksheet :=
  match v with
  | VNone => update_cell id ws rc
  | _ => update_cell (set_value v) ws rc
  end.

(** Coordinates visited by [ws.rows]: every row from 1 to the last one, and
    in each every column from 1 to the last one. *)
Definition rows_coordinates (ws : Worksheet) : list (nat * nat) :=
  flat_map (fun r => map (fun c => (r, c)) (seq 1 (max_column ws)))
           (seq 1 (max_row ws)).

(** A workbook: its sheets in order, by title, and its style tables. *)
Record Workbook : Type := {
  _sheets : list (string * Worksheet);
  _tables : StyleTables;
}.

(** [Workbook()] once its first sheet is removed. *)
Definition new_workbook : Workbook :=
  {| _sheets := []; _tables := new_tables |}.

Definition sheetnames (wb : Workbook) : list string := map fst (_sheets wb).

(** [wb[sheet]]: the first sheet of that title. *)
Definition getitem (wb : Workbook) (sheet : string) : result Worksheet :=
  match find (fun s => String.eqb (fst s) sheet) (_sheets wb) with
  | Some s => ret (snd s)
  | None => raise (KeyError sheet)
  end.

(** The characters that a sheet title may not hold: one of
    [\ * ? : / [ ]]. *)
Definition invalid_title_char (c : ascii) : bool :=
  existsb (Ascii.eqb c)
          [ascii_of_nat 92; "*"; "?"; ":"; "/"; "["; "]"]%char.

Fixpoint has_invalid_title_char (title : string) : bool :=
  match title with
  | EmptyString => false
  | String c title' => invalid_title_char c || has_invalid_title_char title'
  end.

(** What a workbook makes of the title asked for a new sheet, given the
    titles of the sheets it has. *)
Definition TitlePolicy : Type := list string -> string -> string.

(** [ws = wb.create_sheet(title)] together with the writes [fill_in] that
    the caller then makes to the new sheet [ws], which may add to the tables
    of the workbook. A title with an invalid character is refused. The
    workbook chooses the title of the sheet with [avoid_duplicate_name],
    which returns the title passed unless a sheet of the workbook has it
    already, whatever the case of the letters, and otherwise a title with a
    number after it. (The titles passed by this program are never empty.) *)
Definition create_sheet (avoid_duplicate_name : TitlePolicy)
    (wb : Workbook) (title : string)
    (fill_in : StyleTables -> Worksheet -> StyleTables * Worksheet)
    : result Workbook :=
  if has_invalid_title_char title then
    raise (ValueError "Invalid character found in sheet title")
  else
    let title := avoid_duplicate_name (sheetnames wb) title in
    let '(tables, ws) := fill_in (_tables wb) new_sheet in
    ret {| _sheets := _sheets wb ++ [(title, ws)]; _tables := tables |}.

(** ** Data frames *)

Record DataFrame : Type := {
  columns : list string;
  data : list (list CellValue);
}.

(** [pd.DataFrame(records)] for a list of dicts sharing the keys [cols]:
    without records there are no columns. *)
Definition DataFrame_of_records (cols : list string) (records : list (list CellValue))
    : DataFrame :=
  match records with
  | [] => {| columns := []; data := [] |}
  | _ => {| columns := cols; data := records |}
  end.

Definition enumerate {A} (l : list A) : list (nat * A) :=
  combine (seq 0 (length l)) l.

(** [Font(bold=True, color="FFFFFF")] *)
Definition header_font : Font :=
  {| font_name := None; font_bold := true; font_italic := false;
     font_color := RGB "FFFFFF" |}.

(** [write_df] on the sheet [ws] of a workbook with the given tables. *)
Definition write_df (tables : StyleTables) (ws : Worksheet) (df : DataFrame)
    (start_row start_col : nat) : StyleTables * Worksheet :=
  let '(tables, ws) :=
    foldl (fun '(tables, ws) '(c, col) =>
             let rc := (start_row + 1, start_col + c + 1) in
             assign_font header_font tables (ws_cell ws rc (VStr col)) rc)
          (tables, ws) (enumerate (columns df)) in
  (tables,
   foldl (fun ws '(r_idx, row) =>
            foldl (fun ws '(c_idx, v) =>
                     ws_cell ws (start_row + 2 + r_idx, start_col + c_idx + 1) v)
                  ws (enumerate row))
         ws (enumerate (data df))).

(** [PatternFill(start_color="FFC000", end_color="FFC000",
    fill_type="solid")] and [Font(color="C55A11", italic=True)] *)
Definition orange_fill : PatternFill :=
  {| fill_type := Some "solid"; start_color := "FFC000";
     end_color := "FFC000" |}.
Definition orange_font : Font :=
  {| font_name := None; font_bold := false; font_italic := true;
     font_color := RGB "C55A11" |}.

(** [ent_val == "IfcBuildingElementProxy"] *)
Definition is_proxy (ent_val : CellValue) : bool :=
  match ent_val with
  | VStr s => String.eqb s "IfcBuildingElementProxy"
  | _ => false
  end.

(** The highlighting of the rows of kind IfcBuildingElementProxy;
    [ent_column] is the content of the column [df["Entité IFC"]]. *)
Definition highlight_proxies (tables : StyleTables) (ws : Worksheet)
    (n_columns : nat) (ent_column : list CellValue) : StyleTables * Worksheet :=
  let start_col_idx := 2 in
  let attention_col_idx := start_col_idx + n_columns in
  foldl (fun '(tables, ws) '(row_offset, ent_val) =>
           if is_proxy ent_val then
             let excel_row := 3 + row_offset in
             let '(tables, ws) :=
               foldl (fun '(tables, ws) col_off =>
                        assign_fill orange_fill tables ws
                                    (excel_row, start_col_idx + col_off))
                     (tables, ws) (seq 0 n_columns) in
             let att := (excel_row, attention_col_idx) in
             assign_font orange_font tables
                         (update_cell (set_value (VStr "Attention")) ws att) att
           else (tables, ws))
        (tables, ws) (enumerate ent_column).

(** [df[name]]: the column of that name, [KeyError] without one. *)
Fixpoint column_index (name : string) (cols : list string) : option nat :=
  match cols with
  | [] => None
  | c :: cols' =>
      if String.eqb c name then Some 0
      else option_map S (column_index name cols')
  end.

Definition df_column (df : DataFrame) (name : string) : result (list CellValue) :=
  match column_index name (columns df) with
  | None => raise (KeyError name)
  | Some i => ret (map (fun row => nth i row VNone) (data df))
  end.

(* ===================================================================== *)
(** * [build_workbook] *)
(* ===================================================================== *)

(** Paths are sequences of components; the last one is the file name. *)
Definition Path : Type := list string.

Definition path_name (p : Path) : string := List.last p "".
Definition path_parent (p : Path) : Path := List.removelast p.
Definition path_join (dir : Path) (name : string) : Path := dir ++ [name].

(** [name.rfind('.')] *)
Fixpoint rfind_dot (s : string) : option nat :=
  match s with
  | EmptyString => None
  | String c s' =>
      match rfind_dot s' with
      | Some i => Some (S i)
      | None => if Ascii.eqb c "."%char then Some 0 else None
      end
  end.

(** [p.stem]: the name up to its last dot, unless that dot is the first or
    the last character. *)
Definition stem_of_name (name : string) : string :=
  match rfind_dot name with
  | Some i =>
      if ((0 <? i) && (i <? String.length name - 1))%nat
      then substring 0 i name
      else name
  | None => name
  end.

Definition path_stem (p : Path) : string := stem_of_name (path_name p).

(** [p.with_suffix(suffix).name] *)
Definition with_suffix_name (p : Path) (suffix : string) : string :=
  path_stem p ++ suffix.

(** What the pipeline reads from outside: the parser and the file sizes. *)
Record FileSystem : Type := {
  ifcopenshell_open : Path -> result Model;
  st_size : Path -> N;
}.

Definition of_number (v : option Q) : CellValue :=
  match v with
  | Some q => VNum q
  | None => VNone
  end.

Definition of_string (v : option string) : CellValue :=
  match v with
  | Some s => VStr s
  | None => VNone
  end.

(** [list(d.items())] as rows of the summary. *)
Definition items (d : list (string * option Q)) : list (string * CellValue) :=
  map (fun kv => (fst kv, of_number (snd kv))) d.

Definition summary_pairs (file_name : string) (size : N) (model : Model)
    (glob geo : list (string * option Q)) : list (string * CellValue) :=
  [ ("fichier", VStr file_name);
    ("taille", VStr (human_readable_size size));
    ("schéma", VStr (schema model)) ]
  ++ items glob ++ items geo.

Definition level_alt (factor : Q) (lvls : list (option string * option Q))
    : list (option Q) :=
  map (fun t => scaled factor (snd t)) lvls.

Definition level_ngf (site_z : option Q) (alt : list (option Q)) : list (option Q) :=
  map (fun a =>
         match a, site_z with
         | Some a, Some site_z => Some (a + site_z)%Q
         | _, _ => None
         end) alt.

(** The rows of a frame built from three columns of equal length. *)
Fixpoint zip3 {A B C} (la : list A) (lb : list B) (lc : list C) : list (A * B * C) :=
  match la, lb, lc with
  | a :: la', b :: lb', c :: lc' => (a, b, c) :: zip3 la' lb' lc'
  | _, _, _ => []
  end.

(** A list of floats and [None] as the column of a frame. With a float in
    the list the column is a column of floats, in which pandas holds [None]
    as NaN; without any it stays a column of objects and [None] stays. *)
Definition float_column (col : list (option Q)) : list CellValue :=
  if existsb (fun v => match v with Some _ => true | None => false end) col
  then map (fun v => match v with Some q => VNum q | None => VNaN end) col
  else map (fun _ => VNone) col.

Definition summary_df (pairs : list (string * CellValue)) : DataFrame :=
  {| columns := ["Propriété"; "Valeur"];
     data := map (fun kv => [VStr (fst kv); snd kv]) pairs |}.

(** [pd.DataFrame({"Nom": ..., "Altimétrie locale (m)": level_alt,
    "Altimétrie NGF (m)": level_ngf})]: the names are a column of objects,
    the elevations two columns of numbers. *)
Definition levels_df (lvls : list (option string * option Q))
    (level_alt level_ngf : list (option Q)) : DataFrame :=
  {| columns := ["Nom"; "Altimétrie locale (m)"; "Altimétrie NGF (m)"];
     data := map (fun '(n, a, g) => [n; a; g])
                 (zip3 (map (fun t => of_string (fst t)) lvls)
                       (float_column level_alt)
                       (float_column level_ngf)) |}.

(** The block "Niveaux" of [build_workbook]: the frame of the levels, from
    the model and its global origin [glob]. *)
Definition levels_frame (model : Model) (glob : list (string * option Q))
    : DataFrame :=
  let factor := get_length_factor model in
  let site_z := dict_get "Z_global_m" glob in
  let lvls := get_levels model in
  let level_alt := level_alt factor lvls in
  let level_ngf := level_ngf site_z level_alt in
  levels_df lvls level_alt level_ngf.

Definition hierarchy_df (rows : list HierarchyRow) : DataFrame :=
  DataFrame_of_records ["Type"; "Nom"; "Profondeur"; "Chemin"]
    (map (fun r => [VStr (row_Type r); VStr (row_Nom r);
                    VInt (row_Profondeur r); VStr (row_Chemin r)]) rows).

Definition entities_df (rows : list EntityRow) : DataFrame :=
  DataFrame_of_records ["Entité IFC"; "Type"; "Nombre"]
    (map (fun r => [VStr (row_Entite r); VStr (row_SousType r);
                    VInt (row_Nombre r)]) rows).

(** The body of the loop over [sheets_data], for the sheet it creates. The
    table region and the column widths set by [add_table_and_resize] are not
    part of the cells and are left out. *)
Definition render_sheet (sheet : string) (df : DataFrame)
    : result (StyleTables -> Worksheet -> StyleTables * Worksheet) :=
  if String.eqb sheet "Entités" then
    do ent_column <- df_column df "Entité IFC" ;
    ret (fun tables ws =>
           let '(tables, ws) := write_df tables ws df 1 1 in
           highlight_proxies tables ws (length (columns df)) ent_column)
  else ret (fun tables ws => write_df tables ws df 1 1).

Section Pipeline.
(** How the workbooks choose the title of a new sheet
    ([openpyxl.utils.titles.avoid_duplicate_name], applied to the titles of
    the workbook and to the title asked for); the outside world; and the
    depth of recursion the interpreter allows to [walk]. *)
Variable avoid_duplicate_name : TitlePolicy.
Variable fs : FileSystem.
Variable recursion_limit : nat.

Fixpoint add_sheets (wb : Workbook) (sheets_data : list (string * DataFrame))
    : result Workbook :=
  match sheets_data with
  | [] => ret wb
  | (sheet, df) :: sheets_data' =>
      do fill_in <- render_sheet sheet df ;
      do wb <- create_sheet avoid_duplicate_name wb sheet fill_in ;
      add_sheets wb sheets_data'
  end.

Definition build_workbook (ifc_path : Path) : result Workbook :=
  do model <- ifcopenshell_open fs ifc_path ;
  let factor := get_length_factor model in
  let geo := get_site_geolocation model in
  do glob <- get_global_coords model ;
  let pairs :=
    summary_pairs (path_name ifc_path) (st_size fs ifc_path) model glob geo in
  let levels := levels_frame model glob in
  do hierarchy <- flatten_hierarchy recursion_limit model ;
  let entity_counter := count_entities (all_IfcProduct model) in
  add_sheets new_workbook
    [ ("Résumé", summary_df pairs);
      ("Niveaux", levels);
      ("Arborescence", hierarchy_df hierarchy);
      ("Entités", entities_df (ent_rows entity_counter)) ].

(* =================================================================== *)
(** * Batch processing *)
(* =================================================================== *)

(** The state the batch acts on: the accumulator workbook [merge_wb] that
    [main] shares with every call of [process_single], the documents
    written so far and the lines printed so far. *)
Record World : Type := {
  merge_wb : option Workbook;
  written : list (Path * Workbook);
  stdout : list string;
}.

Definition print (line : string) (w : World) : World :=
  {| merge_wb := merge_wb w; written := written w;
     stdout := stdout w ++ [line] |}.

Definition save_wb (wb : Workbook) (path : Path) (w : World) : World :=
  print ("  ✔ " ++ path_name path)
        {| merge_wb := merge_wb w; written := written w ++ [(path, wb)];
           stdout := stdout w |}.

(** The copy of one sheet: for every cell of [src.rows], the value and
    then the style array are assigned to the cell of [dst] at the same
    coordinate. The style array is that of the source cell, with its
    indices into the tables of the source workbook; the tables of the
    workbook of [dst] are not touched. *)
Definition copy_cells (src : Worksheet) (dst : Worksheet) : Worksheet :=
  foldl (fun dst rc =>
           let cell := get_cell src rc in
           let dst := update_cell (set_value (value cell)) dst rc in
           update_cell (set_style (_style cell)) dst rc)
        dst (rows_coordinates src).

Definition merged_title (sheet : string) (ifc_path : Path) : string :=
  sheet ++ "_" ++ path_stem ifc_path.

(** The loop [for sheet in wb.sheetnames] over the titles [names]: the
    accumulator as the loop leaves it, and whether an exception left it. *)
Fixpoint copy_sheets (wb : Workbook) (names : list string) (ifc_path : Path)
    (acc : Workbook) : Workbook * result unit :=
  match names with
  | [] => (acc, ret tt)
  | sheet :: names' =>
      match getitem wb sheet with
      | inl e => (acc, raise e)
      | inr src =>
          match create_sheet avoid_duplicate_name acc
                             (merged_title sheet ifc_path)
                             (fun tables dst => (tables, copy_cells src dst)) with
          | inl e => (acc, raise e)
          | inr acc => copy_sheets wb names' ifc_path acc
          end
      end
  end.

Definition process_single (ifc_path : Path) (out_dir : option Path) (merge : bool)
    (w : World) : World * result unit :=
  match build_workbook ifc_path with
  | inl e => (w, raise e)
  | inr wb =>
      match merge, merge_wb w with
      | true, Some acc =>
          let '(acc, r) := copy_sheets wb (sheetnames wb) ifc_path acc in
          ({| merge_wb := Some acc;
              written := written w; stdout := stdout w |}, r)
      | _, _ =>
          let dir := match out_dir with
                     | Some d => d
                     | None => path_parent ifc_path
                     end in
          let target := path_join dir (with_suffix_name ifc_path ".xlsx") in
          (save_wb wb target w, ret tt)
      end
  end.

(** The loop [for f in ifc_files] of [main]: an exception leaves it. *)
Fixpoint for_ifc_files (ifc_files : list Path) (out_dir : option Path)
    (merge : bool) (w : World) : World * result unit :=
  match ifc_files with
  | [] => (w, ret tt)
  | f :: ifc_files' =>
      let w := print ("- " ++ path_name f) w in
      match process_single f out_dir merge w with
      | (w, inr _) => for_ifc_files ifc_files' out_dir merge w
      | (w, inl e) => (w, raise e)
      end
  end.

Definition string_of_nat (n : nat) : string :=
  NilEmpty.string_of_uint (Nat.to_uint n).

(** [main] from the point where the non-empty list [ifc_files] has been
    discovered in the folder [src]. *)
Definition main_batch (src : Path) (ifc_files : list Path)
    (output : option Path) (merge : bool) : World * result unit :=
  let w := {| merge_wb := None; written := []; stdout := [] |} in
  let w := print ("▶ Analyse de " ++ string_of_nat (length ifc_files)
                  ++ " IFC …") w in
  let w := {| merge_wb := if merge then Some new_workbook else None;
              written := written w; stdout := stdout w |} in
  let out_dir := if merge then None else output in
  match for_ifc_files ifc_files out_dir merge w with
  | (w, inl e) => (w, raise e)
  | (w, inr _) =>
      let w :=
        match merge, merge_wb w with
        | true, Some acc =>
            let out_path := match output with
                            | Some o => o
                            | None => path_join src "rapport_ifc.xlsx"
                            end in
            save_wb acc out_path w
        | _, _ => w
        end in
      (print "✅  Terminé." w, ret tt)
  end.

End Pipeline.

(* ===================================================================== *)
(** * Notions used to state the properties *)
(* ===================================================================== *)

(** The sign the specification gives to a DMS triple: that of its degrees. *)
Definition sign_of_degrees (deg : Q) : Q :=
  match (deg ?= 0)%Q with
  | Lt => (-1)%Q
  | _ => 1%Q
  end.

(** The formula of the specification. *)
Definition dms_formula (deg minute sec micro : Q) : Q :=
  (sign_of_degrees deg
   * (Qabs deg + minute / 60 + (sec + micro / 1000000) / 3600))%Q.

(** The value of an optional number lies within [eps] of [x]. *)
Definition within (eps x : Q) (v : option Q) : Prop :=
  match v with
  | Some q => (Qabs (q - x) <= eps)%Q
  | None => False
  end.

(** The model declares a milli-prefixed SI length unit: the length unit
    that the lookup of [get_length_factor] reaches has the prefix MILLI. *)
Definition declares_millimetres (model : Model) : Prop :=
  exists lu, length_unit model = inr lu
             /\ getattr_default (Prefix lu) = Some "MILLI".

(** Units whose attributes can all be read. *)
Definition readable_unit (u : IfcUnit) : Prop := UnitType u <> NoAttr.

(** [u] is an SI unit of type LENGTHUNIT. *)
Definition si_length (u : IfcUnit) : bool :=
  String.eqb (unit_is_a u) "IfcSIUnit"
  && bool_decide (getattr_default (UnitType u) = Some "LENGTHUNIT").

Definition metre : IfcUnit :=
  {| unit_is_a := "IfcSIUnit"; UnitType := Val "LENGTHUNIT"; Prefix := Null |}.
Definition millimetre : IfcUnit :=
  {| unit_is_a := "IfcSIUnit"; UnitType := Val "LENGTHUNIT"; Prefix := Val "MILLI" |}.
Definition square_metre : IfcUnit :=
  {| unit_is_a := "IfcSIUnit"; UnitType := Val "AREAUNIT"; Prefix := Null |}.

(** A model with nothing in it but the given unit assignments. *)
Definition model_with_units (uas : list IfcUnitAssignment) : Model :=
  {| schema := "IFC4";
     all_IfcUnitAssignment := uas;
     all_IfcBuildingStorey := [];
     all_IfcSite := [];
     all_IfcMapConversion := inr [];
     all_IfcRelAggregates := [];
     all_IfcProject := [];
     all_IfcProduct := [] |}.

Definition millimetre_model : Model :=
  model_with_units [ {| Units := Val [square_metre; millimetre] |} ].

(** No map-conversion object can be found: the query returns nothing, or
    raises one of the two exceptions that the code catches. *)
Definition no_map_conversion (model : Model) : Prop :=
  match all_IfcMapConversion model with
  | inr [] => True
  | inl (RuntimeError _) => True
  | inl StopIteration => True
  | _ => False
  end.

(** The first site has a local placement with these coordinates. *)
Definition site_placement (model : Model) (Coordinates : list Q) : Prop :=
  exists site rest,
    all_IfcSite model = site :: rest
    /\ ObjectPlacement site = Some (IfcLocalPlacement Coordinates).

(** There is no site, or the first site has no local placement. *)
Definition no_site_placement (model : Model) : Prop :=
  match all_IfcSite model with
  | [] => True
  | site :: _ =>
      match ObjectPlacement site with
      | Some (IfcLocalPlacement _) => False
      | _ => True
      end
  end.

(** [v] is the optional number [x], up to the equality of rationals. *)
Definition opt_Qeq (v x : option Q) : Prop :=
  match v, x with
  | Some a, Some b => (a == b)%Q
  | None, None => True
  | _, _ => False
  end.

(** A model with a map-conversion object and a site placed elsewhere. *)
Definition both_sources_model : Model :=
  {| schema := "IFC4";
     all_IfcUnitAssignment := [ {| Units := Val [millimetre] |} ];
     all_IfcBuildingStorey := [];
     all_IfcSite :=
       [ {| RefLatitude := Some [48; 52; 0]%Q;
            RefLongitude := None;
            RefElevation := Some 35%Q;
            ObjectPlacement := Some (IfcLocalPlacement [7; 8; 9]%Q) |} ];
     all_IfcMapConversion :=
       inr [ {| Eastings := 1000; Northings := 2000;
                OrthogonalHeight := Some 3000%Q |} ];
     all_IfcRelAggregates := [];
     all_IfcProject := [];
     all_IfcProduct := [] |}.

(** The same model on a schema without map conversion. *)
Definition placement_only_model : Model :=
  {| schema := "IFC2X3";
     all_IfcUnitAssignment := all_IfcUnitAssignment both_sources_model;
     all_IfcBuildingStorey := [];
     all_IfcSite :=
       [ {| RefLatitude := None; RefLongitude := None; RefElevation := None;
            ObjectPlacement := Some (IfcLocalPlacement [7; 8]%Q) |} ];
     all_IfcMapConversion := inl (RuntimeError "Entity not found in schema");
     all_IfcRelAggregates := [];
     all_IfcProject := [];
     all_IfcProduct := [] |}.

(** The Résumé table of a model, as [build_workbook] computes it. *)
Definition summary_table (file_name : string) (size : N) (model : Model)
    : result (list (string * CellValue)) :=
  do glob <- get_global_coords model ;
  ret (summary_pairs file_name size model glob (get_site_geolocation model)).

Definition has_map_conversion (model : Model) : bool :=
  match all_IfcMapConversion model with
  | inr (_ :: _) => true
  | _ => false
  end.

Definition has_site (model : Model) : bool :=
  match all_IfcSite model with
  | [] => false
  | _ :: _ => true
  end.

Definition has_site_placement (model : Model) : bool :=
  match all_IfcSite model with
  | site :: _ =>
      match ObjectPlacement site with
      | Some (IfcLocalPlacement _) => true
      | _ => false
      end
  | [] => false
  end.

Definition global_origin_keys : list string :=
  ["X_global_m"; "Y_global_m"; "Z_global_m"].
Definition geo_reference_keys : list string :=
  ["latitude"; "longitude"; "elevation_m"].

(** A model without site and without map-conversion object. *)
Definition bare_model : Model := model_with_units [].

(** The absolute elevation the specification gives to a level. *)
Definition absolute_elevation (local site_z : option Q) : option Q :=
  match local, site_z with
  | Some l, Some z => Some (l + z)%Q
  | _, _ => None
  end.

(** The elevation by which the levels table is ordered: an unset one
    counts as 0. *)
Definition sort_elevation (local : option Q) : Q :=
  match local with
  | Some q => q
  | None => 0%Q
  end.

(** GlobalOrigin.z of a model: the orthogonal height of the first
    map-conversion object if there is one, else the third coordinate of the
    local placement of the first site, times the unit scale; unset where
    that source does not give it. *)
Definition GlobalOrigin_z (model : Model) : option Q :=
  let factor := get_length_factor model in
  match all_IfcMapConversion model with
  | inr (mc :: _) =>
      match OrthogonalHeight mc with
      | Some h => Some (h * factor)%Q
      | None => None
      end
  | _ =>
      match all_IfcSite model with
      | site :: _ =>
          match ObjectPlacement site with
          | Some (IfcLocalPlacement cs) =>
              match nth_error cs 2 with
              | Some c => Some (c * factor)%Q
              | None => None
              end
          | _ => None
          end
      | [] => None
      end
  end.

(** How a number that may be unset shows in its column of the sheet: a
    number as it is; an unset one as an empty cell when the whole column is
    unset, and as NaN when the column holds a number. *)
Definition shown (column : list (option Q)) (v : option Q) : CellValue :=
  match v with
  | Some q => VNum q
  | None =>
      if forallb (fun x => match x with Some _ => false | None => true end)
                 column
      then VNone else VNaN
  end.

(** Two storeys, the upper one without elevation, no site, and a product. *)
Definition two_storeys_model : Model :=
  {| schema := "IFC4";
     all_IfcUnitAssignment := [];
     all_IfcBuildingStorey :=
       [ {| storey_Name := Some "Etage"; Elevation := Val 3%Q |};
         {| storey_Name := Some "Toit"; Elevation := Null |} ];
     all_IfcSite := [];
     all_IfcMapConversion := inr [];
     all_IfcRelAggregates := [];
     all_IfcProject := [];
     all_IfcProduct :=
       [ {| product_is_a := "IfcWall"; PredefinedType := Null;
            ObjectType := Null |} ] |}.

(** A file system in which every file parses as [two_storeys_model]. *)
Definition two_storeys_fs : FileSystem :=
  {| ifcopenshell_open := fun _ => inr two_storeys_model;
     st_size := fun _ => 2048%N |}.

(** A storey at 3000 mm above a site placed at height 500 mm, and a storey
    without elevation. *)
Definition storeys_on_site_model : Model :=
  {| schema := "IFC4";
     all_IfcUnitAssignment := all_IfcUnitAssignment millimetre_model;
     all_IfcBuildingStorey :=
       [ {| storey_Name := Some "Etage"; Elevation := Val 3000%Q |};
         {| storey_Name := Some "Toit"; Elevation := Null |} ];
     all_IfcSite :=
       [ {| RefLatitude := None; RefLongitude := None; RefElevation := None;
            ObjectPlacement := Some (IfcLocalPlacement [0; 0; 500]%Q) |} ];
     all_IfcMapConversion := inr [];
     all_IfcRelAggregates := [];
     all_IfcProject := [];
     all_IfcProduct := [] |}.

(** The key under which a product is counted. *)
Definition product_key (obj : IfcProduct) : entity_key :=
  (product_is_a obj, subtype_of obj).

(** How many of the products have the key [k]. *)
Definition instances (k : entity_key) (products : list IfcProduct) : nat :=
  length (List.filter (fun obj => bool_decide (product_key obj = k)) products).

Definition render_row (kv : entity_key * nat) : EntityRow :=
  {| row_Entite := fst (fst kv);
     row_SousType := or_else (snd (fst kv)) dash;
     row_Nombre := snd kv |}.

(** The order of the entities table: by count descending, and ascending by
    kind name among equal counts. *)
Definition ranked_before (a b : EntityRow) : Prop :=
  row_Nombre b < row_Nombre a
  \/ (row_Nombre a = row_Nombre b
      /\ String.leb (row_Entite a) (row_Entite b) = true).

(** The count stored for a key, 0 without one. *)
Fixpoint counter_get (key : entity_key) (d : list (entity_key * nat)) : nat :=
  match d with
  | [] => 0
  | (k, v) :: d' => if decide (k = key) then v else counter_get key d'
  end.

Definition product_X : IfcProduct :=
  {| product_is_a := "X"; PredefinedType := Null; ObjectType := Null |}.
Definition product_Y_S : IfcProduct :=
  {| product_is_a := "Y"; PredefinedType := Val "S"; ObjectType := Null |}.

(** A finite tree of entities. *)
#[local] Set Warnings "-register-all".
Inductive Tree : Type :=
| Node (ent : Entity) (children : list Tree).

Definition root (t : Tree) : Entity :=
  match t with
  | Node ent _ => ent
  end.

Fixpoint height (t : Tree) : nat :=
  match t with
  | Node _ children => S (list_max (map height children))
  end.

(** [t] is the aggregation tree below its root for the parent-to-children
    index [rels]: at every node the subtrees are those of the children that
    the index lists for the node, in the order of the list. *)
Fixpoint aggregation_tree (rels : gmap string (list Entity)) (t : Tree) : Prop :=
  match t with
  | Node ent children =>
      map root children = rels_get rels (GlobalId ent)
      /\ (fix all (ts : list Tree) : Prop :=
            match ts with
            | [] => True
            | t :: ts' => aggregation_tree rels t /\ all ts'
            end) children
  end.

(** The display name of the specification: the short name, else the long
    name, else the identifier. *)
Definition spec_display_name (ent : Entity) : string :=
  match Name ent, LongName ent with
  | Some (String c s), _ => String c s
  | _, Val (String c s) => String c s
  | _, _ => GlobalId ent
  end.

(** The name of [ent] can be read: it has a short name, or its class has
    the long-name attribute. *)
Definition named (ent : Entity) : Prop :=
  truthy_str (Name ent) = true \/ LongName ent <> NoAttr.

(** The nodes of a tree, the root first. *)
Fixpoint nodes (t : Tree) : list Entity :=
  match t with
  | Node ent children => ent :: flat_map nodes children
  end.

Definition spec_label (ent : Entity) : string :=
  is_a ent ++ ":" ++ spec_display_name ent.

(** The row of a node below the chain [ancestors] that starts at the root. *)
Definition spec_row (ancestors : list Entity) (ent : Entity) : HierarchyRow :=
  {| row_Type := is_a ent;
     row_Nom := spec_display_name ent;
     row_Profondeur := length ancestors;
     row_Chemin := String.concat "/" (map spec_label (ancestors ++ [ent])) |}.

(** Pre-order: a node, then its subtrees from first to last. *)
Fixpoint spec_preorder (ancestors : list Entity) (t : Tree) : list HierarchyRow :=
  match t with
  | Node ent children =>
      spec_row ancestors ent
      :: flat_map (spec_preorder (ancestors ++ [ent])) children
  end.

Definition entity (gid kind name : string) : Entity :=
  {| GlobalId := gid; is_a := kind; Name := Some name; LongName := Null |}.

Definition ent_project : Entity := entity "0P" "IfcProject" "root".
Definition ent_site : Entity := entity "1S" "IfcSite" "A".
Definition ent_building_B : Entity := entity "2B" "IfcBuilding" "B".
Definition ent_building_C : Entity :=
  {| GlobalId := "2C"; is_a := "IfcBuilding"; Name := None;
     LongName := Val "C" |}.

(** A model that holds the given aggregation relations below a project. *)
Definition model_with_relations (relations : list IfcRelAggregates) : Model :=
  {| schema := "IFC4";
     all_IfcUnitAssignment := [];
     all_IfcBuildingStorey := [];
     all_IfcSite := [];
     all_IfcMapConversion := inr [];
     all_IfcRelAggregates := relations;
     all_IfcProject := [ent_project];
     all_IfcProduct := [] |}.

(** root -> A -> [B, C] *)
Definition small_model : Model :=
  model_with_relations
    [ {| RelatingObject := ent_project; RelatedObjects := [ent_site] |};
      {| RelatingObject := ent_site;
         RelatedObjects := [ent_building_B; ent_building_C] |} ].

Definition small_tree : Tree :=
  Node ent_project
    [ Node ent_site [ Node ent_building_B []; Node ent_building_C [] ] ].

(** Two relations that name the project as their parent. *)
Definition split_model : Model :=
  model_with_relations
    [ {| RelatingObject := ent_project; RelatedObjects := [ent_site] |};
      {| RelatingObject := ent_project; RelatedObjects := [ent_building_B] |} ].

(** A wall without short name, of a class without long name, aggregated
    directly below the project. *)
Definition ent_wall : Entity :=
  {| GlobalId := "3W"; is_a := "IfcWall"; Name := None; LongName := NoAttr |}.

Definition wall_model : Model :=
  model_with_relations
    [ {| RelatingObject := ent_project; RelatedObjects := [ent_wall] |} ].

Definition wall_tree : Tree :=
  Node ent_project [ Node ent_wall [] ].


(** [rc] is among the coordinates [ws.rows] goes through. *)
Definition in_rows (ws : Worksheet) (rc : nat * nat) : Prop :=
  1 <= fst rc <= max_row ws /\ 1 <= snd rc <= max_column ws.



(** A small model with a storey, a site, a hierarchy and products. *)
Definition report_model : Model :=
  {| schema := "IFC4";
     all_IfcUnitAssignment := [ {| Units := Val [millimetre] |} ];
     all_IfcBuildingStorey :=
       [ {| storey_Name := Some "R+1"; Elevation := Val 3000%Q |};
         {| storey_Name := Some "RDC"; Elevation := Null |} ];
     all_IfcSite := all_IfcSite both_sources_model;
     all_IfcMapConversion := inr [];
     all_IfcRelAggregates := all_IfcRelAggregates small_model;
     all_IfcProject := [ent_project];
     all_IfcProduct :=
       [ product_X;
         {| product_is_a := "IfcBuildingElementProxy"; PredefinedType := NoAttr;
            ObjectType := Val "bloc" |} ] |}.

(** A file system in which every file parses as [report_model], except
    those named in [corrupt]. *)
Definition sample_fs (corrupt : list string) : FileSystem :=
  {| ifcopenshell_open := fun p =>
       if bool_decide (path_name p ∈ corrupt)
       then inl (RuntimeError "not a valid IFC file")
       else inr report_model;
     st_size := fun _ => 2048%N |}.

(** A workbook that gives a title it has already the suffix 1, and keeps
    any other title. *)
Definition numbered_title : TitlePolicy :=
  fun names title =>
    if existsb (String.eqb title) names then (title ++ "1")%string else title.




(** The report of an input can be built. *)
Definition builds (policy : TitlePolicy) (fs : FileSystem)
    (recursion_limit : nat) (f : Path) : Prop :=
  exists wb, build_workbook policy fs recursion_limit f = inr wb.

(** [out] is the document written for the input [f] in standalone mode:
    the report of [f], next to it or in [out_dir], named after it. *)
Definition standalone_output (policy : TitlePolicy) (fs : FileSystem)
    (recursion_limit : nat)
    (out_dir : option Path) (f : Path) (out : Path * Workbook) : Prop :=
  fst out = path_join (default (path_parent f) out_dir)
                      (path_stem f ++ ".xlsx")
  /\ build_workbook policy fs recursion_limit f = inr (snd out).

(** The report of an input, or an empty workbook when it cannot be built. *)
Definition report_of (policy : TitlePolicy) (fs : FileSystem)
    (recursion_limit : nat) (f : Path) : Workbook :=
  match build_workbook policy fs recursion_limit f with
  | inr wb => wb
  | inl _ => new_workbook
  end.

(** The sheets of the report of an input can be merged: none of the titles
    asked for them holds a character that a title may not have. *)
Definition mergeable (policy : TitlePolicy) (fs : FileSystem)
    (recursion_limit : nat) (f : Path) : Prop :=
  forall wb,
    build_workbook policy fs recursion_limit f = inr wb ->
    Forall (fun sheet => has_invalid_title_char (merged_title sheet f) = false)
           (sheetnames wb).

Definition models_dir : Path := ["models"].
Definition a_ifc : Path := ["models"; "a.ifc"].
Definition b_ifc : Path := ["models"; "b.ifc"].
Definition c_ifc : Path := ["models"; "c.ifc"].

(** The order a sort by [key] puts the elements in. *)
Definition key_le {A K : Type} (leb : K -> K -> bool) (key : A -> K)
    (a b : A) : Prop :=
  leb (key a) (key b) = true.

(** ** Further notions *)

(** A number divided [k] times by 1024, as the loop of
    [human_readable_size] does. *)
Definition divided (k : nat) (x : Q) : Q :=
  Nat.iter k (fun q => (q / 1024)%Q) x.

Definition size_units : list string := ["B"; "KB"; "MB"; "GB"; "TB"; "PB"].

(** The offset that the minutes, seconds and micro-seconds of a DMS
    sequence stand for, in degrees. *)
Definition dms_fraction (minute sec micro : Q) : Q :=
  (minute / 60 + (sec + micro / 1000000) / 3600)%Q.

(** A model whose first site is placed by a point without coordinates. *)
Definition empty_placement_model : Model :=
  {| schema := "IFC4";
     all_IfcUnitAssignment := [];
     all_IfcBuildingStorey := [];
     all_IfcSite :=
       [ {| RefLatitude := None; RefLongitude := None; RefElevation := None;
            ObjectPlacement := Some (IfcLocalPlacement []) |} ];
     all_IfcMapConversion := inr [];
     all_IfcRelAggregates := [];
     all_IfcProject := [];
     all_IfcProduct := [] |}.

(** The exceptions that the lookup of the map-conversion object catches. *)
Definition caught_by_lookup (e : exn) : bool :=
  match e with
  | RuntimeError _ => true
  | StopIteration => true
  | _ => false
  end.

(** A storey stands at the elevation [q], an unset elevation being taken
    as 0. *)
Definition at_elevation (q : Q) (t : option string * option Q) : bool :=
  Qeq_bool (or_zero (snd t)) q.

(** The (name, elevation) pairs of the storeys, in the order of the model. *)
Definition storey_pairs (model : Model) : list (option string * option Q) :=
  map (fun s => (storey_Name s, getattr_default (Elevation s)))
      (all_IfcBuildingStorey model).

(** The relation [rel] names the entity of identifier [gid] as parent. *)
Definition relates (gid : string) (rel : IfcRelAggregates) : bool :=
  String.eqb (GlobalId (RelatingObject rel)) gid.

(** A project that aggregates itself. *)
Definition cyclic_model : Model :=
  model_with_relations
    [ {| RelatingObject := ent_project; RelatedObjects := [ent_site] |};
      {| RelatingObject := ent_site; RelatedObjects := [ent_project] |} ].

(** Every cell of the sheet lies in row 2 or below and in column B or
    beyond, within the extent recorded for the sheet. *)
Definition tidy (ws : Worksheet) : Prop :=
  forall rc,
    is_Some (cells ws !! rc) ->
    2 <= fst rc <= max_row ws /\ 2 <= snd rc <= max_column ws.

(** The report of [a.ifc] in the sample file system, and its first sheet. *)
Definition sample_report : Workbook := report_of numbered_title (sample_fs []) 3 a_ifc.
Definition sample_summary : Worksheet :=
  match _sheets sample_report with
  | (_, ws) :: _ => ws
  | [] => new_sheet
  end.

(** The index that [IndexedList.add] gives to [x] in the table [l], and
    the table after it. *)
Definition id_of {A} `{EqDecision A} (x : A) (l : list A) : nat :=
  snd (IndexedList_add x l).
Definition added {A} `{EqDecision A} (x : A) (l : list A) : list A :=
  fst (IndexedList_add x l).

(** The tables once a font, or a fill, has been assigned to a cell. *)
Definition with_font (font : Font) (tables : StyleTables) : StyleTables :=
  {| _fonts := added font (_fonts tables); _fills := _fills tables |}.
Definition with_fill (fill : PatternFill) (tables : StyleTables) : StyleTables :=
  {| _fonts := _fonts tables; _fills := added fill (_fills tables) |}.

(** The tables [tables'] extend [tables]: every index keeps its entry. *)
Definition extends (tables tables' : StyleTables) : Prop :=
  (exists more, _fonts tables' = _fonts tables ++ more)
  /\ (exists more, _fills tables' = _fills tables ++ more).

(** What [write_df] does to a header cell, the header font being the entry
    [id] of the table of fonts, and to a data cell. *)
Definition header_put (id : nat) (col : string) (cell : Cell) : Cell :=
  set_fontId id (set_value (VStr col) cell).

Definition data_put (v : CellValue) (cell : Cell) : Cell :=
  match v with
  | VNone => cell
  | _ => set_value v cell
  end.

(** [rc] is the place of a header cell or of a data cell of the frame
    written at ([start_row], [start_col]). *)
Definition in_frame (df : DataFrame) (start_row start_col : nat)
    (rc : nat * nat) : Prop :=
  (exists c col,
      nth_error (columns df) c = Some col
      /\ rc = (start_row + 1, start_col + c + 1))
  \/ (exists r row c v,
        nth_error (data df) r = Some row
        /\ nth_error row c = Some v
        /\ rc = (start_row + 2 + r, start_col + c + 1)).

(** The inner loop of [write_df] for the data row of index [r_idx]. *)
Definition write_row (start_row start_col r_idx : nat) (ws : Worksheet)
    (row : list CellValue) : Worksheet :=
  foldl (fun ws '(c_idx, v) =>
           ws_cell ws (start_row + 2 + r_idx, start_col + c_idx + 1) v)
        ws (enumerate row).

(** The cells that [write_df] leaves, the header font being the entry
    [id] of the table of fonts. *)
Definition write_df_sheet (id : nat) (ws : Worksheet) (df : DataFrame)
    (start_row start_col : nat) : Worksheet :=
  let ws :=
    foldl (fun ws '(c, col) =>
             let rc := (start_row + 1, start_col + c + 1) in
             update_cell (set_fontId id) (ws_cell ws rc (VStr col)) rc)
          ws (enumerate (columns df)) in
  foldl (fun ws '(r_idx, row) => write_row start_row start_col r_idx ws row)
        ws (enumerate (data df)).

(** What the highlighting does to the cell at [rc] of a flagged row of a
    table of [n] columns, the orange fill and the orange font being the
    entries [fill_id] and [font_id] of their tables: the cells of the table
    are filled, the cell after the last column is the annotation. *)
Definition highlight_put (fill_id font_id : nat) (n : nat) (rc : nat * nat)
    (cell : Cell) : Cell :=
  if bool_decide (2 <= snd rc < 2 + n) then set_fillId fill_id cell
  else if bool_decide (snd rc = 2 + n)
       then set_fontId font_id (set_value (VStr "Attention") cell)
       else cell.

(** The cells that the highlighting leaves, for these entries. *)
Definition highlight_sheet (fill_id font_id : nat) (ws : Worksheet)
    (n_columns : nat) (ent_column : list CellValue) : Worksheet :=
  foldl (fun ws '(row_offset, ent_val) =>
           if is_proxy ent_val then
             let excel_row := 3 + row_offset in
             let ws :=
               foldl (fun ws col_off =>
                        update_cell (set_fillId fill_id) ws
                                    (excel_row, 2 + col_off))
                     ws (seq 0 n_columns) in
             let att := (excel_row, 2 + n_columns) in
             update_cell (set_fontId font_id)
                         (update_cell (set_value (VStr "Attention")) ws att) att
           else ws)
        ws (enumerate ent_column).

(** The tables that the highlighting leaves: with a flagged row the orange
    font is added, and the orange fill when the table has a column. *)
Definition highlight_tables (tables : StyleTables) (n_columns : nat)
    (ent_column : list CellValue) : StyleTables :=
  if existsb is_proxy ent_column then
    with_font orange_font
      (match n_columns with
       | O => tables
       | S _ => with_fill orange_fill tables
       end)
  else tables.

(** [rc] lies in a row that the highlighting flags, within the table or in
    the column after it. *)
Definition flagged (n : nat) (ent_column : list CellValue) (rc : nat * nat) : Prop :=
  exists i v,
    nth_error ent_column i = Some v /\ is_proxy v = true
    /\ fst rc = 3 + i /\ 2 <= snd rc <= 2 + n.

(* ===================================================================== *)
(** * Entry points *)
(* ===================================================================== *)

(** ** [discover_ifcs] and [main] (multi_anabim.py) *)

(** What [main] asks the file system about paths. *)
Record Disk : Type := {
  is_file : Path -> bool;
  is_dir : Path -> bool;
  (** [folder.glob(pattern)] *)
  glob : Path -> string -> list Path;
}.

(** [p < q] on paths: the order of their sequences of components. *)
Fixpoint path_ltb (p q : Path) : bool :=
  match p, q with
  | _, [] => false
  | [], _ :: _ => true
  | a :: p', b :: q' =>
      if String.eqb a b then path_ltb p' q' else String.ltb a b
  end.

(** The order [sorted] derives from [<]: [p] may stay before [q] unless
    [q < p]. *)
Definition path_leb (p q : Path) : bool := negb (path_ltb q p).

Definition discover_ifcs (disk : Disk) (folder : Path) (recursive : bool)
    : list Path :=
  let pattern := if recursive then "**/*.ifc" else "*.ifc" in
  sorted path_leb (fun p => p)
         (List.filter (is_file disk) (glob disk folder pattern)).

(** The command line, parsed. *)
Record Args : Type := {
  arg_src : Path;
  arg_output : option Path;
  arg_recursive : bool;
  arg_merge : bool;
}.

(** What [parser.parse_args()] makes of the command line: the arguments,
    or, for [-h] and for a command line that the parser refuses, an exit
    with a status (0 and 2) after the lines [printed] on the standard
    output (the help; the usage and the error go to the standard error
    stream). *)
Inductive Parsed : Type :=
| Namespace (args : Args)
| ParserExit (status : nat) (printed : list string).

(** The argument of [SystemExit]: a message, which goes to the standard
    error stream and makes the exit status 1, or the exit status. *)
Inductive ExitArg : Type :=
| ExitMessage (message : string)
| ExitStatus (status : nat).

(** How a run of the script ends: it returns, an exception leaves it, or
    [SystemExit] ends it. *)
Inductive Outcome : Type :=
| Returned
| Raised (e : exn)
| SystemExit (arg : ExitArg).

(** [p.with_suffix(suffix)] *)
Definition path_with_suffix (p : Path) (suffix : string) : Path :=
  path_join (path_parent p) (with_suffix_name p suffix).

Definition initial_world : World :=
  {| merge_wb := None; written := []; stdout := [] |}.

(** [main]; [parsed] is what its call of [parser.parse_args()] gives. *)
Definition main (disk : Disk) (policy : TitlePolicy) (fs : FileSystem)
    (recursion_limit : nat)
    (parsed : Parsed) : World * Outcome :=
  match parsed with
  | ParserExit status printed =>
      ({| merge_wb := None; written := []; stdout := printed |},
       SystemExit (ExitStatus status))
  | Namespace args =>
      if is_file disk (arg_src args) then
        match build_workbook policy fs recursion_limit (arg_src args) with
        | inl e => (initial_world, Raised e)
        | inr wb =>
            let target := match arg_output args with
                          | Some o => o
                          | None => path_with_suffix (arg_src args) ".xlsx"
                          end in
            (save_wb wb target initial_world, Returned)
        end
      else if negb (is_dir disk (arg_src args)) then
        (initial_world, SystemExit (ExitMessage "❌  Chemin source introuvable"))
      else
        let ifc_files :=
          discover_ifcs disk (arg_src args) (arg_recursive args) in
        match ifc_files with
        | [] =>
            (initial_world,
             SystemExit (ExitMessage "❌  Aucun .ifc trouvé dans ce dossier"))
        | _ :: _ =>
            match main_batch policy fs recursion_limit (arg_src args) ifc_files
                             (arg_output args) (arg_merge args) with
            | (w, inl e) => (w, Raised e)
            | (w, inr _) => (w, Returned)
            end
        end
  end.

(** What the interpreter that runs the script finds installed. *)
Record Installation : Type := {
  (** the first of pandas and openpyxl that cannot be imported, if any *)
  missing_module : option string;
  (** [import ifcopenshell] succeeds *)
  ifcopenshell_found : bool;
}.

(** The script run as [__main__]: its imports, then [main()]. A missing
    pandas or openpyxl raises; a missing ifcopenshell is reported on the
    standard error stream and ends the script with [SystemExit(1)]. *)
Definition script (inst : Installation) (disk : Disk) (policy : TitlePolicy)
    (fs : FileSystem) (recursion_limit : nat) (parsed : Parsed)
    : World * Outcome :=
  match missing_module inst with
  | Some name => (initial_world, Raised (ModuleNotFoundError name))
  | None =>
      if ifcopenshell_found inst
      then main disk policy fs recursion_limit parsed
      else (initial_world, SystemExit (ExitStatus 1))
  end.

(** The exit status of the process of a script that ends so. *)
Definition exit_status (outcome : Outcome) : nat :=
  match outcome with
  | Returned => 0
  | Raised _ => 1
  | SystemExit (ExitMessage _) => 1
  | SystemExit (ExitStatus status) => status
  end.

(** ** The launcher (Anabim_Launcher.py) *)

(** The exceptions [run_cli] can raise: its own, that of a failed
    subprocess, or one that the script raised when it runs in-process. *)
Inductive LauncherError : Type :=
| FileNotFoundError (message : string)
| CalledProcessError (returncode : nat)
| ScriptError (e : exn).

(** The message boxes; the text of an error box ends with the exception. *)
Inductive Dialog : Type :=
| showinfo (title message : string)
| showerror (title message : string) (err : LauncherError).

(** How the launcher ends: [main] returns, or the [SystemExit] of the
    script, which [except Exception] does not catch, leaves it. *)
Inductive LauncherEnd : Type :=
| LauncherReturned
| LauncherExit (arg : ExitArg).

Record Launcher : Type := {
  (** the script is found next to the launcher *)
  script_exists : bool;
  (** [getattr(sys, "frozen", False)] *)
  frozen : bool;
}.

(** The command line [script folder], parsed. The folder comes from the
    directory dialog, which returns an absolute path: the parser takes it
    as the source. *)
Definition cli_args (folder : Path) : Args :=
  {| arg_src := folder; arg_output := None;
     arg_recursive := false; arg_merge := false |}.

(** [run_cli]: the world the script leaves, and how the call ends for the
    launcher: normally, with an exception, or with [SystemExit]. *)
Definition run_cli (l : Launcher) (inst : Installation) (disk : Disk)
    (policy : TitlePolicy) (fs : FileSystem)
    (recursion_limit : nat) (folder : Path)
    : World * (LauncherError + LauncherEnd) :=
  if negb (script_exists l) then
    (initial_world, inl (FileNotFoundError "Script principal introuvable"))
  else
    let '(w, outcome) :=
      script inst disk policy fs recursion_limit
             (Namespace (cli_args folder)) in
    if frozen l then
      (* runpy.run_path: the script runs in the process of the launcher *)
      match outcome with
      | Returned => (w, inr LauncherReturned)
      | Raised e => (w, inl (ScriptError e))
      | SystemExit arg => (w, inr (LauncherExit arg))
      end
    else
      (* subprocess.run(..., check=True): only the exit status comes back *)
      match exit_status outcome with
      | O => (w, inr LauncherReturned)
      | S status => (w, inl (CalledProcessError (S status)))
      end.

(** [main] of the launcher; [chosen] is what [choose_folder] returns. *)
Definition launcher_main (l : Launcher) (inst : Installation) (disk : Disk)
    (policy : TitlePolicy) (fs : FileSystem)
    (recursion_limit : nat) (chosen : option Path)
    : World * list Dialog * LauncherEnd :=
  match chosen with
  | None =>
      (initial_world, [showinfo "Annulé" "Aucun dossier sélectionné."],
       LauncherReturned)
  | Some folder =>
      match run_cli l inst disk policy fs recursion_limit folder with
      | (w, inr LauncherReturned) =>
          (w, [showinfo "Terminé" "Analyse IFC → Excel terminée !"],
           LauncherReturned)
      | (w, inr (LauncherExit arg)) => (w, [], LauncherExit arg)
      | (w, inl err) =>
          (w, [showerror "Erreur" "Le traitement a échoué." err],
           LauncherReturned)
      end
  end.

(** An installation with every module of the script. *)
Definition complete_installation : Installation :=
  {| missing_module := None; ifcopenshell_found := true |}.

(** An installation without ifcopenshell. *)
Definition no_ifcopenshell : Installation :=
  {| missing_module := None; ifcopenshell_found := false |}.

(** A folder with the three sample files. *)
Definition sample_disk : Disk :=
  {| is_file := fun p => bool_decide (p ∈ [c_ifc; a_ifc; b_ifc]);
     is_dir := fun p => bool_decide (p = models_dir \/ p = ["models"; "old.ifc"]);
     glob := fun folder pattern =>
       if bool_decide (folder = models_dir)
       then [c_ifc; ["models"; "old.ifc"]; a_ifc; b_ifc] else [] |}.

(** A folder without any file. *)
Definition empty_disk : Disk :=
  {| is_file := fun _ => false;
     is_dir := fun p => bool_decide (p = models_dir);
     glob := fun _ _ => [] |}.

(** The two lines a standalone run prints for an input: its name before it
    is processed, the name of its document once that is written. *)
Definition progress_lines (f : Path) : list string :=
  [ ("- " ++ path_name f)%string;
    ("  ✔ " ++ path_stem f ++ ".xlsx")%string ].

(* ===================================================================== *)
(** * Properties *)
(* ===================================================================== *)

(** ** Geodetic converter *)

Lemma Qltb_lt (x y : Q) : Qltb x y = true <-> (x < y)%Q.
Proof.
  unfold Qltb. rewrite negb_true_iff.
  split; intros H.
  - apply Qnot_le_lt. intros Hle. apply Qle_bool_iff in Hle. congruence.
  - destruct (Qle_bool y x) eqn:E; [|reflexivity].
    apply Qle_bool_iff in E. exfalso. eapply Qlt_not_le; eauto.
Qed.

Lemma sign_of_degrees_code (deg : Q) :
  (if Qltb deg 0 then (-1)%Q else 1%Q) = sign_of_degrees deg.
Proof.
  unfold sign_of_degrees.
  destruct (Qltb deg 0) eqn:E.
  - apply Qltb_lt in E. rewrite Qlt_alt in E. now rewrite E.
  - destruct (deg ?= 0)%Q eqn:C; try reflexivity.
    rewrite <- Qlt_alt in C. apply Qltb_lt in C. congruence.
Qed.

Lemma dms_to_dd_3 (deg minute sec : Q) :
  dms_to_dd (Some [deg; minute; sec]) = Some (dms_formula deg minute sec 0).
Proof.
  unfold dms_to_dd, dms_formula. cbn [length repeat app nth Nat.sub].
  now rewrite sign_of_degrees_code.
Qed.

Lemma dms_to_dd_4 (deg minute sec micro : Q) :
  dms_to_dd (Some [deg; minute; sec; micro])
  = Some (dms_formula deg minute sec micro).
Proof.
  unfold dms_to_dd, dms_formula. cbn [length repeat app nth Nat.sub].
  now rewrite sign_of_degrees_code.
Qed.

(** C10. The converter maps an absent input to absent; on three or four
    components it returns sign(deg) * (|deg| + min/60 + (sec + micro/1e6)/3600),
    a missing micro component counting as 0 and the sign being that of the
    degrees alone; [0,0,0] gives 0, [48,52,0] gives 48.8667 and [-33,52,0]
    gives -33.8667 within 1e-4. *)
Theorem dms_to_dd_spec :
  dms_to_dd None = None
  /\ (forall deg minute sec : Q,
        dms_to_dd (Some [deg; minute; sec])
        = Some (dms_formula deg minute sec 0))
  /\ (forall deg minute sec micro : Q,
        dms_to_dd (Some [deg; minute; sec; micro])
        = Some (dms_formula deg minute sec micro))
  /\ (forall deg : Q, (deg < 0)%Q -> sign_of_degrees deg = (-1)%Q)
  /\ (forall deg : Q, (0 <= deg)%Q -> sign_of_degrees deg = 1%Q)
  /\ within 0 0 (dms_to_dd (Some [0; 0; 0]%Q))
  /\ within (1 # 10000) (488667 # 10000) (dms_to_dd (Some [48; 52; 0]%Q))
  /\ within (1 # 10000) (- (338667 # 10000)) (dms_to_dd (Some [-33; 52; 0]%Q)).
Proof.
  split; [reflexivity|].
  split; [exact dms_to_dd_3|].
  split; [exact dms_to_dd_4|].
  split.
  { intros deg H. unfold sign_of_degrees. rewrite Qlt_alt in H. now rewrite H. }
  split.
  { intros deg H. unfold sign_of_degrees.
    destruct (deg ?= 0)%Q eqn:C; try reflexivity.
    rewrite <- Qlt_alt in C. exfalso. eapply Qlt_not_le; eauto. }
  repeat split; vm_compute; intros H; discriminate H.
Qed.

(** ** Unit normalizer *)

Lemma get_length_factor_milli (model : Model) (lu : IfcUnit) :
  length_unit model = inr lu ->
  get_length_factor model
  = if is_milli lu then (1 # 1000)%Q else 1%Q.
Proof.
  intros H. unfold get_length_factor, get_length_factor_try.
  rewrite H. cbn. now destruct (is_milli lu).
Qed.

Lemma get_length_factor_raise (model : Model) (e : exn) :
  length_unit model = inl e -> get_length_factor model = 1%Q.
Proof.
  intros H. unfold get_length_factor, get_length_factor_try.
  now rewrite H.
Qed.

Lemma get_length_factor_cases (model : Model) :
  get_length_factor model = (1 # 1000)%Q \/ get_length_factor model = 1%Q.
Proof.
  destruct (length_unit model) as [e|lu] eqn:H.
  - right. eapply get_length_factor_raise; eauto.
  - rewrite (get_length_factor_milli _ _ H). destruct (is_milli lu); auto.
Qed.

Lemma get_length_factor_pos (model : Model) : (0 < get_length_factor model)%Q.
Proof. destruct (get_length_factor_cases model) as [-> | ->]; reflexivity. Qed.

(** On readable units the generator expression finds the first SI length
    unit of the list. *)
Lemma next_matching_find (ua : list IfcUnit) :
  Forall readable_unit ua ->
  next_matching ua
  = match find si_length ua with
    | Some u => inr u
    | None => inl StopIteration
    end.
Proof.
  induction 1 as [|u ua Hu _ IH]; [reflexivity|].
  cbn [next_matching find].
  unfold readable_unit in Hu. unfold is_si_length_unit, si_length.
  destruct (String.eqb (unit_is_a u) "IfcSIUnit"); cbn.
  - destruct (UnitType u) as [| |t]; [congruence| |]; cbn.
    + exact IH.
    + destruct (bool_decide (Some t = Some "LENGTHUNIT")); [reflexivity|exact IH].
  - exact IH.
Qed.

(** C8. The factor is 0.001 exactly when the model declares a
    milli-prefixed SI length unit and 1.0 otherwise; whatever exception the
    lookup raises (no unit assignment, unreadable unit entity), 1.0 is
    returned, as it is when the unit has no prefix attribute: the function
    has a value on every model. On a unit assignment whose units are all
    readable the unit looked at is the first SI unit of type LENGTHUNIT. *)
Theorem get_length_factor_spec (model : Model) :
  (declares_millimetres model -> get_length_factor model = (1 # 1000)%Q)
  /\ (~ declares_millimetres model -> get_length_factor model = 1%Q)
  /\ (forall e, length_unit model = inl e -> get_length_factor model = 1%Q)
  /\ (all_IfcUnitAssignment model = [] -> get_length_factor model = 1%Q)
  /\ (forall lu, length_unit model = inr lu ->
        getattr_default (Prefix lu) = None -> get_length_factor model = 1%Q)
  /\ (forall ua rest units,
        all_IfcUnitAssignment model = ua :: rest ->
        Units ua = Val units ->
        Forall readable_unit units ->
        get_length_factor model
        = match find si_length units with
          | Some lu =>
              if bool_decide (getattr_default (Prefix lu) = Some "MILLI")
              then (1 # 1000)%Q else 1%Q
          | None => 1%Q
          end).
Proof.
  split; [|split; [|split; [|split; [|split]]]].
  - intros (lu & Hlu & Hp).
    rewrite (get_length_factor_milli _ _ Hlu). unfold is_milli.
    now rewrite bool_decide_eq_true_2.
  - intros Hn. destruct (length_unit model) as [e|lu] eqn:Hlu.
    + eapply get_length_factor_raise; eauto.
    + rewrite (get_length_factor_milli _ _ Hlu). unfold is_milli.
      case_bool_decide as Hp; [|reflexivity].
      exfalso. apply Hn. exists lu. auto.
  - intros e. apply get_length_factor_raise.
  - intros H. apply (get_length_factor_raise _ IndexError).
    unfold length_unit. now rewrite H.
  - intros lu Hlu Hp. rewrite (get_length_factor_milli _ _ Hlu).
    unfold is_milli. rewrite Hp. reflexivity.
  - intros ua rest units Hua Hunits Hread.
    assert (Hlu : length_unit model = next_matching units).
    { unfold length_unit. rewrite Hua. cbn. now rewrite Hunits. }
    rewrite (next_matching_find _ Hread) in Hlu.
    destruct (find si_length units) as [lu|].
    + now rewrite (get_length_factor_milli _ _ Hlu).
    + now rewrite (get_length_factor_raise _ _ Hlu).
Qed.

Lemma get_length_factor_spec_witness :
  declares_millimetres millimetre_model
  /\ get_length_factor millimetre_model = (1 # 1000)%Q
  /\ get_length_factor (model_with_units []) = 1%Q.
Proof.
  assert (H : declares_millimetres millimetre_model).
  { exists millimetre. split; reflexivity. }
  split; [exact H|]. split.
  - exact (proj1 (get_length_factor_spec millimetre_model) H).
  - exact (proj1 (proj2 (proj2 (proj2
             (get_length_factor_spec (model_with_units []))))) eq_refl).
Defined.

(** ** Spatial resolver *)

Lemma or_zero_Some (q : Q) : (or_zero (Some q) == q)%Q.
Proof.
  unfold or_zero. destruct (Qeq_bool q 0) eqn:E; [|reflexivity].
  apply Qeq_bool_eq in E. now rewrite E.
Qed.

Lemma first_map_conversion_Some (model : Model) mc rest :
  all_IfcMapConversion model = inr (mc :: rest) ->
  first_map_conversion model = inr (Some mc).
Proof. intros H. unfold first_map_conversion. now rewrite H. Qed.

Lemma first_map_conversion_None (model : Model) :
  no_map_conversion model -> first_map_conversion model = inr None.
Proof.
  unfold no_map_conversion, first_map_conversion.
  destruct (all_IfcMapConversion model) as [[]|[|]]; cbn; tauto.
Qed.

(** The three values read off the padded coordinate list. *)
Lemma padded_coordinates (cs : list Q) :
  cs <> [] ->
  let padded := map Some cs ++ [None; None] in
  nth 0 padded None = nth_error cs 0
  /\ nth 1 padded None = nth_error cs 1
  /\ index0 (skipn 2 padded) = inr (nth_error cs 2).
Proof.
  destruct cs as [|x [|y [|z cs]]]; [congruence| | |]; intros _; cbn; auto.
Qed.

(** C5. With a map-conversion object the origin is its eastings, northings
    and orthogonal height times the unit scale (the height unset when
    absent), whatever the sites are; without one it is the first site's
    local-placement coordinates times the unit scale (a missing third
    coordinate unset); with neither source no field is set. *)
Theorem get_global_coords_spec (model : Model) :
  let factor := get_length_factor model in
  (forall mc rest,
      all_IfcMapConversion model = inr (mc :: rest) ->
      exists z,
        get_global_coords model
        = inr [ ("X_global_m", Some (Eastings mc * factor)%Q);
                ("Y_global_m", Some (Northings mc * factor)%Q);
                ("Z_global_m", z) ]
        /\ opt_Qeq z (scaled factor (OrthogonalHeight mc)))
  /\ (forall Coordinates,
        no_map_conversion model ->
        site_placement model Coordinates ->
        Coordinates <> [] ->
        get_global_coords model
        = inr [ ("X_global_m", scaled factor (nth_error Coordinates 0));
                ("Y_global_m", scaled factor (nth_error Coordinates 1));
                ("Z_global_m", scaled factor (nth_error Coordinates 2)) ])
  /\ (no_map_conversion model ->
      no_site_placement model ->
      exists glob,
        get_global_coords model = inr glob
        /\ dict_get "X_global_m" glob = None
        /\ dict_get "Y_global_m" glob = None
        /\ dict_get "Z_global_m" glob = None).
Proof.
  intros factor. split; [|split].
  - intros mc rest H. unfold get_global_coords.
    rewrite (first_map_conversion_Some _ _ _ H). cbn.
    eexists. split; [reflexivity|].
    destruct (OrthogonalHeight mc) as [h|]; cbn; [|exact I].
    fold factor. now rewrite (or_zero_Some h).
  - intros cs Hno (site & rest & Hs & Hp) Hne. unfold get_global_coords.
    rewrite (first_map_conversion_None _ Hno). cbn.
    rewrite Hs. cbn. rewrite Hp.
    destruct (padded_coordinates cs Hne) as (Hx & Hy & Hz).
    cbn zeta in Hx, Hy, Hz. rewrite Hx, Hy, Hz. reflexivity.
  - intros Hno Hs. unfold get_global_coords.
    rewrite (first_map_conversion_None _ Hno). cbn.
    unfold no_site_placement in Hs.
    destruct (all_IfcSite model) as [|site rest]; cbn.
    + exists []. auto.
    + destruct (ObjectPlacement site) as [[cs|k]|]; [tauto| |];
        exists []; auto.
Qed.

Lemma get_global_coords_spec_witness :
  (exists z,
      get_global_coords both_sources_model
      = inr [ ("X_global_m", Some (1000 * (1 # 1000))%Q);
              ("Y_global_m", Some (2000 * (1 # 1000))%Q);
              ("Z_global_m", z) ]
      /\ opt_Qeq z (Some (3000 * (1 # 1000))%Q))
  /\ get_global_coords placement_only_model
     = inr [ ("X_global_m", Some (7 * (1 # 1000))%Q);
             ("Y_global_m", Some (8 * (1 # 1000))%Q);
             ("Z_global_m", None) ].
Proof.
  split.
  - exact (proj1 (get_global_coords_spec both_sources_model) _ _ eq_refl).
  - refine (proj1 (proj2 (get_global_coords_spec placement_only_model))
              [7; 8]%Q I _ _).
    + eexists _, _. split; reflexivity.
    + discriminate.
Defined.

(** ** Summary table *)

Lemma get_site_geolocation_keys (model : Model) :
  map fst (get_site_geolocation model)
  = if has_site model then geo_reference_keys else [].
Proof.
  unfold get_site_geolocation, has_site.
  now destruct (all_IfcSite model).
Qed.

Lemma get_global_coords_keys (model : Model) glob :
  get_global_coords model = inr glob ->
  map fst glob
  = if has_map_conversion model || has_site_placement model
    then global_origin_keys else [].
Proof.
  unfold get_global_coords, first_map_conversion, has_map_conversion,
    has_site_placement.
  destruct (all_IfcMapConversion model) as [e|[|mc l]]; cbn.
  - destruct e; cbn; try discriminate;
      (destruct (all_IfcSite model) as [|site rest]; cbn;
       [intros [= <-]; reflexivity|];
       destruct (ObjectPlacement site) as [[cs|k]|]; cbn;
       [|intros [= <-]; reflexivity..];
       destruct (index0 _); cbn; [discriminate|]; intros [= <-]; reflexivity).
  - destruct (all_IfcSite model) as [|site rest]; cbn;
      [intros [= <-]; reflexivity|].
    destruct (ObjectPlacement site) as [[cs|k]|]; cbn;
      [|intros [= <-]; reflexivity..].
    destruct (index0 _); cbn; [discriminate|]; intros [= <-]; reflexivity.
  - intros [= <-]. reflexivity.
Qed.

Lemma items_unset (d : list (string * option Q)) (k : string) :
  In (k, None) d -> In (k, VNone) (items d).
Proof.
  intros H. unfold items.
  change (k, VNone) with ((fun kv : string * option Q =>
                             (fst kv, of_number (snd kv))) (k, None)).
  now apply in_map.
Qed.

(** C4 (as the code has it). The rows of the summary are, in this order,
    file name, file size and schema, then the GlobalOrigin fields, then the
    GeoReference fields. The three GlobalOrigin rows are there when the model
    has a map-conversion object or its first site a local placement, and the
    three GeoReference rows when the model has a site; a field of theirs that
    is unset is a row with an empty value. Without such a source the rows of
    that group are not emitted. *)
Theorem summary_table_rows (file_name : string) (size : N) (model : Model)
    (pairs : list (string * CellValue)) :
  summary_table file_name size model = inr pairs ->
  exists glob,
    let geo := get_site_geolocation model in
    get_global_coords model = inr glob
    /\ pairs
       = [ ("fichier", VStr file_name);
           ("taille", VStr (human_readable_size size));
           ("schéma", VStr (schema model)) ]
         ++ items glob ++ items geo
    /\ map fst glob
       = (if has_map_conversion model || has_site_placement model
          then global_origin_keys else [])
    /\ map fst geo = (if has_site model then geo_reference_keys else [])
    /\ (forall k, In (k, None) (glob ++ geo) -> In (k, VNone) pairs).
Proof.
  unfold summary_table. intros H.
  destruct (get_global_coords model) as [e|glob] eqn:Hg; [discriminate|].
  unfold Py.bind, Py.ret in H. injection H as <-.
  exists glob. cbn zeta. split; [reflexivity|]. split; [reflexivity|].
  split; [now apply get_global_coords_keys|].
  split; [apply get_site_geolocation_keys|].
  intros k Hk. unfold summary_pairs.
  rewrite in_app_iff. right. rewrite in_app_iff in Hk |- *.
  destruct Hk as [Hk|Hk]; [left|right]; now apply items_unset.
Qed.

Lemma summary_table_rows_witness :
  exists glob,
    get_global_coords placement_only_model = inr glob
    /\ map fst glob = global_origin_keys
    /\ In ("Z_global_m", VNone)
          [ ("fichier", VStr "m.ifc"); ("taille", VStr "2.0 KB");
            ("schéma", VStr "IFC2X3");
            ("X_global_m", VNum (7 * (1 # 1000)));
            ("Y_global_m", VNum (8 * (1 # 1000)));
            ("Z_global_m", VNone);
            ("latitude", VNone); ("longitude", VNone);
            ("elevation_m", VNone) ].
Proof.
  destruct (summary_table_rows "m.ifc" 2048 placement_only_model _ eq_refl)
    as (glob & Hg & _ & Hk & _ & Hu).
  exists glob. split; [exact Hg|]. split; [exact Hk|].
  apply Hu. rewrite in_app_iff. left.
  vm_compute in Hg. injection Hg as <-. cbn. auto.
Defined.

(** C4, as stated, fails: a model with no site and no map-conversion object
    has a summary of three rows, without any GlobalOrigin or GeoReference
    row. *)
Lemma summary_table_rows_omitted :
  summary_table "m.ifc" 2048 bare_model
  = inr [ ("fichier", VStr "m.ifc"); ("taille", VStr "2.0 KB");
          ("schéma", VStr "IFC4") ]
  /\ ~ (exists pairs,
          summary_table "m.ifc" 2048 bare_model = inr pairs
          /\ incl (global_origin_keys ++ geo_reference_keys) (map fst pairs)).
Proof.
  split; [reflexivity|].
  intros (pairs & H & Hincl). vm_compute in H. injection H as <-.
  specialize (Hincl "X_global_m"). cbn in Hincl.
  destruct Hincl as [H|[H|[H|[]]]]; [auto|discriminate H..].
Qed.

(** ** Sorting *)

Section SortedFacts.
Context {A K : Type} (leb : K -> K -> bool) (key : A -> K).
Hypothesis leb_total : forall a b, leb a b = false -> leb b a = true.

Lemma insert_sorted_perm (x : A) (l : list A) :
  Permutation (x :: l) (insert_sorted leb key x l).
Proof.
  induction l as [|y l IH]; cbn; [reflexivity|].
  destruct (leb (key x) (key y)); [reflexivity|].
  rewrite perm_swap. now apply perm_skip.
Qed.

Lemma sorted_perm (l : list A) : Permutation l (sorted leb key l).
Proof.
  induction l as [|x l IH]; cbn; [constructor|].
  rewrite <- insert_sorted_perm. now apply perm_skip.
Qed.

Lemma insert_sorted_HdRel (a x : A) (l : list A) :
  key_le leb key a x ->
  HdRel (key_le leb key) a l ->
  HdRel (key_le leb key) a (insert_sorted leb key x l).
Proof.
  unfold key_le. intros Hax Hl. destruct l as [|y l]; cbn; [now constructor|].
  destruct (leb (key x) (key y)); constructor; auto.
  now inversion Hl.
Qed.

Lemma insert_sorted_Sorted (x : A) (l : list A) :
  Sorted (key_le leb key) l ->
  Sorted (key_le leb key) (insert_sorted leb key x l).
Proof.
  induction 1 as [|y l Hs IH Hhd]; cbn; [repeat constructor|].
  destruct (leb (key x) (key y)) eqn:E.
  - constructor; [now constructor|]. now constructor.
  - constructor; [exact IH|].
    apply insert_sorted_HdRel; [|exact Hhd].
    now apply leb_total.
Qed.

Lemma sorted_Sorted (l : list A) : Sorted (key_le leb key) (sorted leb key l).
Proof.
  induction l as [|x l IH]; cbn; [constructor|].
  now apply insert_sorted_Sorted.
Qed.

(** The sort is stable: a list that is in order already is left as it is. *)
Lemma sorted_of_Sorted (l : list A) :
  Sorted (key_le leb key) l -> sorted leb key l = l.
Proof.
  induction 1 as [|x l Hs IH Hhd]; cbn; [reflexivity|].
  rewrite IH. destruct Hhd as [|y l' Hxy]; cbn; [reflexivity|].
  unfold key_le in Hxy. now rewrite Hxy.
Qed.

End SortedFacts.

Lemma Sorted_map {A B} (R : A -> A -> Prop) (S : B -> B -> Prop) (f : A -> B)
    (l : list A) :
  (forall a b, R a b -> S (f a) (f b)) ->
  Sorted R l -> Sorted S (map f l).
Proof.
  intros HRS. induction 1 as [|a l Hs IH Hhd]; cbn; constructor; auto.
  destruct Hhd; cbn; constructor; auto.
Qed.

(** ** Levels table *)

Lemma Qle_bool_total (a b : Q) : Qle_bool a b = false -> Qle_bool b a = true.
Proof.
  intros H. apply Qle_bool_iff. apply Qlt_le_weak. apply Qnot_le_lt.
  intros Hle. apply Qle_bool_iff in Hle. congruence.
Qed.

Lemma Sorted_impl {A} (R S : A -> A -> Prop) (l : list A) :
  (forall a b, R a b -> S a b) -> Sorted R l -> Sorted S l.
Proof.
  intros HRS. induction 1 as [|a l Hs IH Hhd]; constructor; auto.
  destruct Hhd; constructor; auto.
Qed.

Lemma sort_elevation_scaled (factor : Q) (e : option Q) :
  (sort_elevation (scaled factor e) == or_zero e * factor)%Q.
Proof.
  destruct e as [q|]; cbn [scaled sort_elevation].
  - now rewrite or_zero_Some.
  - cbn. now rewrite Qmult_0_l.
Qed.

Lemma float_column_shown (col : list (option Q)) :
  float_column col = map (shown col) col.
Proof.
  unfold float_column.
  destruct (existsb _ col) eqn:E.
  - assert (F : forallb (fun x : option Q =>
                           match x with Some _ => false | None => true end)
                        col = false).
    { apply existsb_exists in E. destruct E as ([q|] & Hin & Hq);
        [|discriminate].
      destruct (forallb _ col) eqn:F; [|reflexivity].
      rewrite forallb_forall in F. now apply F in Hin. }
    apply map_ext. intros [q|]; cbn [shown]; [reflexivity|].
    now rewrite F.
  - assert (F : forall x, In x col -> x = None).
    { intros [q|] Hin; [|reflexivity].
      assert (existsb (fun v : option Q =>
                         match v with Some _ => true | None => false end)
                      col = true)
        by (apply existsb_exists; eexists; split; [exact Hin|reflexivity]).
      congruence. }
    assert (G : forallb (fun x : option Q =>
                           match x with Some _ => false | None => true end)
                        col = true).
    { apply forallb_forall. intros x Hx. now rewrite (F x Hx). }
    apply map_ext_in. intros x Hx. rewrite (F x Hx). cbn [shown].
    now rewrite G.
Qed.

Lemma zip3_map {A B C D} (f : A -> B) (g : A -> C) (h : A -> D) (l : list A) :
  zip3 (map f l) (map g l) (map h l) = map (fun a => (f a, g a, h a)) l.
Proof. induction l as [|a l IH]; cbn; [reflexivity|now rewrite IH]. Qed.

Lemma level_ngf_absolute (site_z : option Q) (alt : list (option Q)) :
  level_ngf site_z alt = map (fun a => absolute_elevation a site_z) alt.
Proof.
  unfold level_ngf, absolute_elevation. apply map_ext.
  intros [a|]; destruct site_z; reflexivity.
Qed.

(** The Z that [build_workbook] reads off the global origin is
    GlobalOrigin.z. *)
Lemma get_global_coords_z (model : Model) (glob : list (string * option Q)) :
  get_global_coords model = inr glob ->
  opt_Qeq (dict_get "Z_global_m" glob) (GlobalOrigin_z model).
Proof.
  unfold get_global_coords, first_map_conversion, GlobalOrigin_z.
  destruct (all_IfcMapConversion model) as [e|[|mc l]]; cbn.
  - destruct e; cbn; try discriminate;
      (destruct (all_IfcSite model) as [|site rest]; cbn;
       [intros [= <-]; exact I|];
       destruct (ObjectPlacement site) as [[cs|k]|]; cbn;
       [|intros [= <-]; exact I..];
       destruct cs as [|x [|y [|z cs]]]; cbn; try discriminate;
       intros [= <-]; cbn; solve [exact I | reflexivity]).
  - destruct (all_IfcSite model) as [|site rest]; cbn;
      [intros [= <-]; exact I|].
    destruct (ObjectPlacement site) as [[cs|k]|]; cbn;
      [|intros [= <-]; exact I..].
    destruct cs as [|x [|y [|z cs]]]; cbn; try discriminate;
      intros [= <-]; cbn; solve [exact I | reflexivity].
  - intros [= <-]. cbn [dict_get String.eqb Ascii.eqb Bool.eqb].
    destruct (OrthogonalHeight mc) as [h|]; cbn [opt_Qeq]; [|exact I].
    now rewrite (or_zero_Some h).
Qed.

(** C9 (the code at the failing input). Of two storeys, one at elevation 3
    and one whose elevation is unset, in a model without global origin, the
    row of the second comes first, as if at 0, but its local elevation is
    not left unset in the frame that is written to the sheet: the column
    holds a number, and the unset entry is NaN. The absolute elevations,
    none of which is known, are left unset. *)
Theorem levels_unset_shown_as_nan :
  get_global_coords two_storeys_model = inr []
  /\ data (levels_frame two_storeys_model [])
     = [ [VStr "Toit"; VNaN; VNone];
         [VStr "Etage"; VNum (3 * 1); VNone] ]
  /\ ~ In [VStr "Toit"; VNone; VNone]
          (data (levels_frame two_storeys_model []))
  /\ exists wb ws,
       build_workbook numbered_title two_storeys_fs 3 ["m.ifc"] = inr wb
       /\ getitem wb "Niveaux" = inr ws
       /\ value (get_cell ws (3, 2)) = VStr "Toit"
       /\ value (get_cell ws (3, 3)) = VNaN
       /\ value (get_cell ws (4, 2)) = VStr "Etage"
       /\ value (get_cell ws (4, 3)) = VNum (3 * 1).
Proof.
  split; [reflexivity|]. split; [reflexivity|]. split.
  - cbn. intros [H|[H|[]]]; discriminate H.
  - vm_compute. eexists _, _. repeat (split; [reflexivity|]). reflexivity.
Qed.

(** X25. The levels table has one row per building
    storey, holding its name and its elevation times the unit scale; the
    rows are in ascending order of local elevation, an unset elevation
    counting as 0 in the comparison only; the absolute elevation of a row is
    its local elevation plus GlobalOrigin.z (the Z that [get_global_coords]
    returns) when both are known and is unset otherwise. An unset elevation
    shows in its column as an empty cell when no row of the column has a
    number, and as NaN when some row has one; it never shows as 0. *)
Theorem levels_table_spec (model : Model) (glob : list (string * option Q)) :
  get_global_coords model = inr glob ->
  exists (lvls : list (option string * option Q)) (z : option Q),
    let local := fun t => scaled (get_length_factor model) (snd t) in
    let absolute := fun t => absolute_elevation (local t) z in
    opt_Qeq z (GlobalOrigin_z model)
    /\ Permutation (storey_pairs model) lvls
    /\ StronglySorted
         (fun a b => (sort_elevation (local a) <= sort_elevation (local b))%Q)
         lvls
    /\ columns (levels_frame model glob)
       = ["Nom"; "Altimétrie locale (m)"; "Altimétrie NGF (m)"]
    /\ data (levels_frame model glob)
       = map (fun t => [ of_string (fst t);
                         shown (map local lvls) (local t);
                         shown (map absolute lvls) (absolute t) ])
             lvls.
Proof.
  intros Hglob.
  exists (get_levels model), (dict_get "Z_global_m" glob). cbn zeta.
  split; [now apply get_global_coords_z|].
  split; [apply sorted_perm|].
  split.
  { apply Sorted_StronglySorted.
    { intros a b c. apply Qle_trans. }
    unfold get_levels.
    eapply Sorted_impl; [|apply sorted_Sorted; exact Qle_bool_total].
    intros a b Hab. unfold key_le in Hab.
    apply Qle_bool_iff in Hab. rewrite !sort_elevation_scaled.
    apply Qmult_le_compat_r; [exact Hab|].
    apply Qlt_le_weak, get_length_factor_pos. }
  split; [reflexivity|].
  unfold levels_frame, levels_df. cbn [data].
  rewrite level_ngf_absolute. unfold level_alt.
  rewrite !float_column_shown, !map_map.
  rewrite (zip3_map (fun t => of_string (fst t))).
  rewrite map_map. reflexivity.
Qed.

Lemma levels_table_spec_witness :
  exists lvls z,
    opt_Qeq z (Some (500 * (1 # 1000))%Q)
    /\ Permutation [ (Some "Etage", Some 3000%Q); (Some "Toit", None) ] lvls
    /\ data (levels_frame storeys_on_site_model
               [ ("X_global_m", Some (0 * (1 # 1000))%Q);
                 ("Y_global_m", Some (0 * (1 # 1000))%Q);
                 ("Z_global_m", Some (500 * (1 # 1000))%Q) ])
       = map (fun t =>
                [ of_string (fst t);
                  shown (map (fun t => scaled (1 # 1000) (snd t)) lvls)
                        (scaled (1 # 1000) (snd t));
                  shown (map (fun t => absolute_elevation
                                         (scaled (1 # 1000) (snd t)) z) lvls)
                        (absolute_elevation (scaled (1 # 1000) (snd t)) z) ])
             lvls.
Proof.
  destruct (levels_table_spec storeys_on_site_model _ eq_refl)
    as (lvls & z & Hz & Hperm & _ & _ & Hdata).
  exists lvls, z. split; [exact Hz|]. split; [exact Hperm|exact Hdata].
Defined.

(** ** Entities table *)

Lemma subtype_of_spec (obj : IfcProduct) :
  subtype_of obj
  = match getattr_default (PredefinedType obj),
          getattr_default (ObjectType obj) with
    | Some p, _ => Some p
    | None, Some (String c s) => Some (String c s)
    | None, _ => None
    end.
Proof.
  unfold subtype_of.
  destruct (PredefinedType obj); cbn; try reflexivity;
    destruct (ObjectType obj) as [| |[|c s]]; reflexivity.
Qed.

Lemma counter_get_incr_same (k : entity_key) (d : list (entity_key * nat)) :
  counter_get k (counter_incr k d) = counter_get k d + 1.
Proof.
  induction d as [|[k' v] d IH]; cbn.
  - now rewrite decide_True.
  - destruct (decide (k' = k)) as [->|Hne]; cbn.
    + now rewrite decide_True.
    + now rewrite decide_False.
Qed.

Lemma counter_get_incr_other (k k' : entity_key) (d : list (entity_key * nat)) :
  k <> k' -> counter_get k' (counter_incr k d) = counter_get k' d.
Proof.
  intros Hne. induction d as [|[k0 v] d IH]; cbn.
  - now rewrite decide_False.
  - destruct (decide (k0 = k)) as [->|Hne0]; cbn.
    + now rewrite !decide_False.
    + destruct (decide (k0 = k')); auto.
Qed.

Lemma counter_incr_keys (k k' : entity_key) (d : list (entity_key * nat)) :
  In k' (map fst (counter_incr k d)) <-> k' = k \/ In k' (map fst d).
Proof.
  induction d as [|[k0 v] d IH]; cbn.
  - intuition.
  - destruct (decide (k0 = k)) as [->|Hne0]; cbn; [intuition|].
    rewrite IH. intuition.
Qed.

Lemma counter_incr_NoDup (k : entity_key) (d : list (entity_key * nat)) :
  List.NoDup (map fst d) -> List.NoDup (map fst (counter_incr k d)).
Proof.
  induction d as [|[k0 v] d IH]; cbn; intros Hnd.
  - constructor; [intros []|constructor].
  - inversion Hnd as [|? ? Hnotin Hnd']; subst.
    destruct (decide (k0 = k)) as [->|Hne0]; cbn; [now constructor|].
    constructor; [|auto].
    rewrite counter_incr_keys. intros [H|H]; [congruence|auto].
Qed.

Lemma counter_get_In (k : entity_key) (n : nat) (d : list (entity_key * nat)) :
  List.NoDup (map fst d) -> In (k, n) d -> counter_get k d = n.
Proof.
  induction d as [|[k0 v] d IH]; cbn; [tauto|].
  intros Hnd [H|H]; inversion Hnd as [|? ? Hnotin Hnd']; subst.
  - injection H as -> ->. now rewrite decide_True.
  - rewrite decide_False; [auto|].
    intros ->. apply Hnotin. now apply (in_map fst) in H.
Qed.

Lemma counter_get_pos (k : entity_key) (d : list (entity_key * nat)) :
  Forall (fun kv => 0 < snd kv) d ->
  In k (map fst d) -> 0 < counter_get k d.
Proof.
  induction 1 as [|[k0 v] d Hv _ IH]; cbn; [tauto|].
  intros [H|H]; destruct (decide (k0 = k)); auto; congruence.
Qed.

Lemma counter_incr_pos (k : entity_key) (d : list (entity_key * nat)) :
  Forall (fun kv => 0 < snd kv) d ->
  Forall (fun kv => 0 < snd kv) (counter_incr k d).
Proof.
  induction 1 as [|[k0 v] d Hv Hd IH]; cbn.
  - repeat constructor.
  - destruct (decide (k0 = k)); constructor; cbn in *; auto; lia.
Qed.

Lemma count_entities_snoc (products : list IfcProduct) (obj : IfcProduct) :
  count_entities (products ++ [obj])
  = counter_incr (product_key obj) (count_entities products).
Proof. unfold count_entities. now rewrite foldl_app. Qed.

Lemma instances_snoc (k : entity_key) (products : list IfcProduct) (obj : IfcProduct) :
  instances k (products ++ [obj])
  = instances k products + (if decide (product_key obj = k) then 1 else 0).
Proof.
  unfold instances. rewrite List.filter_app, length_app. cbn.
  destruct (decide (product_key obj = k)) as [H|H].
  - now rewrite bool_decide_eq_true_2.
  - now rewrite bool_decide_eq_false_2.
Qed.

Lemma count_entities_invariant (products : list IfcProduct) :
  let counter := count_entities products in
  List.NoDup (map fst counter)
  /\ Forall (fun kv => 0 < snd kv) counter
  /\ (forall k, counter_get k counter = instances k products)
  /\ (forall k, In k (map fst counter) <-> 0 < instances k products).
Proof.
  induction products as [|obj products IH] using rev_ind.
  - cbn. split; [constructor|]. split; [constructor|].
    split; [reflexivity|]. intros k. split; [tauto|lia].
  - cbn zeta in *. rewrite count_entities_snoc.
    destruct IH as (Hnd & Hpos & Hget & Hkeys).
    split; [now apply counter_incr_NoDup|].
    split; [now apply counter_incr_pos|].
    split.
    + intros k. rewrite instances_snoc.
      destruct (decide (product_key obj = k)) as [<-|Hne].
      * now rewrite counter_get_incr_same, Hget.
      * rewrite counter_get_incr_other, Hget; auto with arith.
    + intros k. rewrite counter_incr_keys, instances_snoc, Hkeys.
      destruct (decide (product_key obj = k)) as [<-|Hne].
      * split; [lia|auto].
      * split; [intros [H|H]; [congruence|lia]|intros H; right; lia].
Qed.

Lemma rank_leb_total (a b : Z * string) :
  rank_leb a b = false -> rank_leb b a = true.
Proof.
  unfold rank_leb. destruct a as [za sa], b as [zb sb]. cbn [fst snd].
  intros H. apply orb_false_iff in H. destruct H as [Hlt H].
  apply Z.ltb_ge in Hlt.
  destruct (Z.eqb_spec za zb) as [->|Hne]; cbn in H.
  - rewrite Z.eqb_refl. cbn.
    destruct (String.leb_total sa sb) as [E|E]; [congruence|].
    rewrite E. now rewrite orb_true_r.
  - apply orb_true_iff. left. apply Z.ltb_lt. lia.
Qed.

Lemma rank_leb_ranked_before (a b : entity_key * nat) :
  rank_leb (rank_key a) (rank_key b) = true ->
  ranked_before (render_row a) (render_row b).
Proof.
  unfold rank_leb, rank_key, ranked_before, render_row.
  cbn [fst snd row_Nombre row_Entite].
  intros H. apply orb_true_iff in H. destruct H as [H|H].
  - apply Z.ltb_lt in H. left. lia.
  - apply andb_true_iff in H. destruct H as [H1 H2].
    apply Z.eqb_eq in H1. right. split; [lia|exact H2].
Qed.

(** C7. Products are counted per (kind, subtype), the subtype being the
    predefined type when the product has one that is not null, else its
    object type when that is a non-empty string, else none (shown as "—");
    each key that has instances is in the table exactly once, with the
    number of its instances; rows are in descending order of count and,
    for equal counts, ascending order of kind; three X without subtype
    and one Y of subtype "S" give [(X,—,3), (Y,S,1)]. *)
Theorem entities_table_spec (products : list IfcProduct) :
  let counter := count_entities products in
  (forall obj,
      subtype_of obj
      = match getattr_default (PredefinedType obj),
              getattr_default (ObjectType obj) with
        | Some p, _ => Some p
        | None, Some (String c s) => Some (String c s)
        | None, _ => None
        end)
  /\ List.NoDup (map fst counter)
  /\ (forall k, In k (map fst counter) <-> 0 < instances k products)
  /\ (forall k n, In (k, n) counter -> n = instances k products)
  /\ (exists ranked,
        Permutation counter ranked
        /\ ent_rows counter = map render_row ranked
        /\ Sorted ranked_before (ent_rows counter))
  /\ ent_rows (count_entities [product_X; product_X; product_X; product_Y_S])
     = [ {| row_Entite := "X"; row_SousType := "—"; row_Nombre := 3 |};
         {| row_Entite := "Y"; row_SousType := "S"; row_Nombre := 1 |} ]
  /\ ent_rows (count_entities [product_Y_S; product_X; product_X; product_X])
     = [ {| row_Entite := "X"; row_SousType := "—"; row_Nombre := 3 |};
         {| row_Entite := "Y"; row_SousType := "S"; row_Nombre := 1 |} ].
Proof.
  intros counter.
  destruct (count_entities_invariant products) as (Hnd & Hpos & Hget & Hkeys).
  fold counter in Hnd, Hpos, Hget, Hkeys.
  split; [exact subtype_of_spec|].
  split; [exact Hnd|].
  split; [exact Hkeys|].
  split.
  { intros k n Hin. rewrite <- Hget. symmetry. now apply counter_get_In. }
  split.
  { exists (sorted rank_leb rank_key counter).
    split; [apply sorted_perm|]. split; [reflexivity|].
    unfold ent_rows. fold render_row.
    eapply Sorted_map; [|apply sorted_Sorted; exact rank_leb_total].
    exact rank_leb_ranked_before. }
  split; reflexivity.
Qed.

(** ** Hierarchy flattener *)

Lemma Tree_induction (P : Tree -> Prop) :
  (forall ent children, Forall P children -> P (Node ent children)) ->
  forall t, P t.
Proof.
  intros H. fix IH 1. intros [ent children]. apply H.
  induction children as [|t ts IHts]; constructor; [apply IH|exact IHts].
Qed.

Lemma display_name_spec (ent : Entity) :
  named ent -> display_name ent = inr (spec_display_name ent).
Proof.
  unfold named, display_name, spec_display_name, or_else.
  destruct (Name ent) as [[|c s]|], (LongName ent) as [| |[|c' s']]; cbn;
    intros [H|H]; try reflexivity; try discriminate; now destruct H.
Qed.

Lemma display_name_returns (ent : Entity) (name : string) :
  display_name ent = inr name -> name = spec_display_name ent /\ named ent.
Proof.
  unfold named, display_name, spec_display_name, or_else.
  destruct (Name ent) as [[|c s]|], (LongName ent) as [| |[|c' s']]; cbn;
    intros [= <-]; (split; [reflexivity|]);
    solve [left; reflexivity | right; discriminate].
Qed.

Lemma display_name_raises (ent : Entity) (e : exn) :
  display_name ent = inl e -> e = AttributeError "LongName" /\ ~ named ent.
Proof.
  unfold named, display_name.
  destruct (Name ent) as [[|c s]|], (LongName ent) as [| |[|c' s']]; cbn;
    intros [= <-]; (split; [reflexivity|]);
    intros [H|H]; solve [discriminate | now destruct H].
Qed.

Lemma path_label_spec (ent : Entity) :
  path_label ent (spec_display_name ent) = spec_label ent.
Proof. reflexivity. Qed.

Lemma make_row_spec (ancestors : list Entity) (ent : Entity) :
  make_row ent (spec_display_name ent) (map spec_label ancestors)
  = spec_row ancestors ent.
Proof.
  unfold make_row, spec_row.
  now rewrite path_label_spec, length_map, map_app.
Qed.

Lemma aggregation_tree_children (rels : gmap string (list Entity))
    (ent : Entity) (children : list Tree) :
  aggregation_tree rels (Node ent children) ->
  map root children = rels_get rels (GlobalId ent)
  /\ Forall (aggregation_tree rels) children.
Proof.
  intros [Hch Hall]. split; [exact Hch|].
  clear Hch. induction children as [|t ts IH]; constructor; [apply Hall|].
  apply IH, Hall.
Qed.

Lemma for_in_subtrees
    (body : Entity -> list HierarchyRow -> result (list HierarchyRow))
    (ancestors : list Entity) (children : list Tree) :
  Forall (fun t => forall rows,
              body (root t) rows = inr (rows ++ spec_preorder ancestors t))
         children ->
  forall rows,
    for_in body (map root children) rows
    = inr (rows ++ flat_map (spec_preorder ancestors) children).
Proof.
  induction 1 as [|t ts Ht _ IH]; intros rows; cbn [map for_in flat_map].
  - now rewrite app_nil_r.
  - rewrite Ht. cbn [Py.bind]. rewrite IH. now rewrite app_assoc.
Qed.

Lemma walk_aggregation_tree (rels : gmap string (list Entity)) (t : Tree) :
  forall depth ancestors rows,
    aggregation_tree rels t ->
    Forall named (nodes t) ->
    height t <= depth ->
    walk depth rels (root t) (map spec_label ancestors) rows
    = inr (rows ++ spec_preorder ancestors t).
Proof.
  induction t as [ent children IH] using Tree_induction.
  intros depth ancestors rows Hagg Hnamed Hh.
  apply aggregation_tree_children in Hagg. destruct Hagg as [Hch Hall].
  cbn [nodes] in Hnamed. apply List.Forall_cons_iff in Hnamed.
  destruct Hnamed as [Hent Hnamed]. apply List.Forall_flat_map in Hnamed.
  destruct depth as [|depth]; [cbn in Hh; lia|].
  cbn [height] in Hh. apply le_S_n in Hh.
  apply list_max_le in Hh. rewrite List.Forall_map in Hh.
  cbn [walk root spec_preorder]. rewrite (display_name_spec _ Hent).
  cbn [Py.bind]. rewrite <- Hch.
  rewrite make_row_spec, path_label_spec.
  change (map spec_label ancestors ++ [spec_label ent])
    with (map spec_label ancestors ++ map spec_label [ent]).
  rewrite <- map_app.
  rewrite (for_in_subtrees _ (ancestors ++ [ent])).
  - now rewrite <- app_assoc.
  - rewrite List.Forall_forall in IH, Hall, Hh, Hnamed |- *.
    intros t Ht rows'. apply IH; auto.
Qed.

Lemma named_dec (ent : Entity) : {named ent} + {~ named ent}.
Proof.
  unfold named.
  destruct (truthy_str (Name ent)); [left; now left|].
  destruct (LongName ent); [right|left; right; discriminate..].
  intros [H|H]; [discriminate|now apply H].
Qed.

Lemma display_name_unnamed (ent : Entity) :
  ~ named ent -> display_name ent = inl (AttributeError "LongName").
Proof.
  intros H. destruct (display_name ent) as [e|name] eqn:E.
  - apply display_name_raises in E. now destruct E as [-> _].
  - apply display_name_returns in E. now destruct E.
Qed.

Lemma for_in_first_raise
    (body : Entity -> list HierarchyRow -> result (list HierarchyRow))
    (e : exn) (children : list Entity) :
  Forall (fun c => (forall rows, exists r, body c rows = inr r)
                   \/ forall rows, body c rows = inl e) children ->
  Exists (fun c => forall rows, body c rows = inl e) children ->
  forall rows, for_in body children rows = inl e.
Proof.
  induction 1 as [|c cs Hc _ IH]; intros Hex rows; [inversion Hex|].
  cbn [for_in]. destruct Hc as [Hc|Hc].
  - inversion Hex as [? ? H|? ? H]; subst.
    + destruct (Hc rows) as [r Hr]. rewrite H in Hr. discriminate.
    + destruct (Hc rows) as [r ->]. cbn [Py.bind]. now apply IH.
  - now rewrite Hc.
Qed.

Lemma for_in_returns
    (body : Entity -> list HierarchyRow -> result (list HierarchyRow))
    (children : list Entity) :
  Forall (fun c => forall rows, exists r, body c rows = inr r) children ->
  forall rows, exists r, for_in body children rows = inr r.
Proof.
  induction 1 as [|c cs Hc _ IH]; intros rows; cbn [for_in].
  - now exists rows.
  - destruct (Hc rows) as [r ->]. cbn [Py.bind]. apply IH.
Qed.

Lemma walk_returns (rels : gmap string (list Entity)) (t : Tree) :
  forall depth path rows,
    aggregation_tree rels t ->
    Forall named (nodes t) ->
    height t <= depth ->
    exists r, walk depth rels (root t) path rows = inr r.
Proof.
  induction t as [ent children IH] using Tree_induction.
  intros depth path rows Hagg Hnamed Hh.
  apply aggregation_tree_children in Hagg. destruct Hagg as [Hch Hall].
  cbn [nodes] in Hnamed. apply List.Forall_cons_iff in Hnamed.
  destruct Hnamed as [Hent Hnamed]. apply List.Forall_flat_map in Hnamed.
  destruct depth as [|depth]; [cbn in Hh; lia|].
  cbn [height] in Hh. apply le_S_n in Hh.
  apply list_max_le in Hh. rewrite List.Forall_map in Hh.
  cbn [walk root]. rewrite (display_name_spec _ Hent).
  cbn [Py.bind]. rewrite <- Hch.
  apply for_in_returns. rewrite List.Forall_map.
  rewrite List.Forall_forall in IH, Hall, Hh, Hnamed |- *.
  intros t Ht rows'. apply IH; auto.
Qed.

Lemma walk_unnamed (rels : gmap string (list Entity)) (t : Tree) :
  forall depth path rows,
    aggregation_tree rels t ->
    height t <= depth ->
    Exists (fun ent => ~ named ent) (nodes t) ->
    walk depth rels (root t) path rows = inl (AttributeError "LongName").
Proof.
  induction t as [ent children IH] using Tree_induction.
  intros depth path rows Hagg Hh Hex.
  apply aggregation_tree_children in Hagg. destruct Hagg as [Hch Hall].
  destruct depth as [|depth]; [cbn in Hh; lia|].
  cbn [height] in Hh. apply le_S_n in Hh.
  apply list_max_le in Hh. rewrite List.Forall_map in Hh.
  cbn [walk root]. destruct (named_dec ent) as [Hent|Hent].
  - rewrite (display_name_spec _ Hent). cbn [Py.bind]. rewrite <- Hch.
    cbn [nodes] in Hex. apply List.Exists_cons in Hex.
    destruct Hex as [Hex|Hex]; [contradiction|].
    apply List.Exists_flat_map in Hex.
    apply for_in_first_raise.
    + rewrite List.Forall_map.
      rewrite List.Forall_forall in IH, Hall, Hh |- *.
      intros t Ht.
      destruct (List.Forall_dec named named_dec (nodes t)) as [Hn|Hn].
      * left. intros rows'. apply walk_returns; auto.
      * right. intros rows'. apply IH; auto.
        apply List.neg_Forall_Exists_neg; [|exact Hn].
        intros x. destruct (named_dec x); auto.
    + rewrite List.Exists_map.
      rewrite List.Exists_exists in Hex |- *.
      destruct Hex as (t & Ht & Hex). exists t. split; [exact Ht|].
      rewrite List.Forall_forall in IH, Hall, Hh.
      intros rows'. apply IH; auto.
  - now rewrite (display_name_unnamed _ Hent).
Qed.

(** C6 (the code at the failing input). Below the project the index lists
    a wall that has no short name and whose class has no long name. The
    rows of the specification for this tree are the row of the project and
    the row of the wall under its identifier; the flattener, as soon as the
    recursion limit lets it reach the wall, raises AttributeError when it
    reads the long name, and returns no row. *)
Theorem flatten_hierarchy_unnamed_child :
  aggregation_tree (build_rels (all_IfcRelAggregates wall_model)) wall_tree
  /\ all_IfcProject wall_model = [root wall_tree]
  /\ spec_preorder [] wall_tree
     = [ {| row_Type := "IfcProject"; row_Nom := "root"; row_Profondeur := 0;
            row_Chemin := "IfcProject:root" |};
         {| row_Type := "IfcWall"; row_Nom := "3W"; row_Profondeur := 1;
            row_Chemin := "IfcProject:root/IfcWall:3W" |} ]
  /\ forall k,
       flatten_hierarchy (height wall_tree + k) wall_model
       = inl (AttributeError "LongName").
Proof.
  split; [vm_compute; tauto|].
  split; [reflexivity|].
  split; [vm_compute; reflexivity|].
  intros k. reflexivity.
Qed.

(** X24. A model without project flattens to the empty sequence. With a
    project, when the parent-to-children index unfolds below it into the
    finite tree [t] and the recursion limit is at least the height of [t]:
    if every node of [t] has a short name or a class with the long-name
    attribute, the flattener returns the rows of [t] in pre-order, each node
    before its subtrees and these in the order of the child list, each row
    with the kind, the display name (short name, else long name, else
    identifier), the number of ancestors as depth and the "/"-joined
    kind:name labels from the root as path; if some node of [t] has neither,
    the flattener raises AttributeError and returns no row. *)
Theorem flatten_hierarchy_preorder (model : Model) :
  (all_IfcProject model = [] ->
   forall depth, flatten_hierarchy depth model = inr [])
  /\ (forall t rest depth,
        all_IfcProject model = root t :: rest ->
        aggregation_tree (build_rels (all_IfcRelAggregates model)) t ->
        height t <= depth ->
        (Forall named (nodes t) ->
         flatten_hierarchy depth model = inr (spec_preorder [] t))
        /\ (Exists (fun ent => ~ named ent) (nodes t) ->
            flatten_hierarchy depth model = inl (AttributeError "LongName")))
  /\ (forall t, exists row, head (spec_preorder [] t) = Some row
                            /\ row_Profondeur row = 0).
Proof.
  split; [|split].
  - intros H depth. unfold flatten_hierarchy. now rewrite H.
  - intros t rest depth Hp Hagg Hh. unfold flatten_hierarchy. rewrite Hp.
    cbn [next_or_None head]. split.
    + intros Hnamed.
      exact (walk_aggregation_tree _ t depth [] [] Hagg Hnamed Hh).
    + intros Hex. now apply walk_unnamed.
  - intros [ent children]. eexists. split; reflexivity.
Qed.

Lemma flatten_hierarchy_preorder_witness :
  flatten_hierarchy 3 small_model
  = inr [ {| row_Type := "IfcProject"; row_Nom := "root"; row_Profondeur := 0;
             row_Chemin := "IfcProject:root" |};
          {| row_Type := "IfcSite"; row_Nom := "A"; row_Profondeur := 1;
             row_Chemin := "IfcProject:root/IfcSite:A" |};
          {| row_Type := "IfcBuilding"; row_Nom := "B"; row_Profondeur := 2;
             row_Chemin := "IfcProject:root/IfcSite:A/IfcBuilding:B" |};
          {| row_Type := "IfcBuilding"; row_Nom := "C"; row_Profondeur := 2;
             row_Chemin := "IfcProject:root/IfcSite:A/IfcBuilding:C" |} ].
Proof.
  refine (proj1 (proj1 (proj2 (flatten_hierarchy_preorder small_model))
                   small_tree [] 3 eq_refl _ _) _).
  - vm_compute. tauto.
  - vm_compute. lia.
  - cbn [nodes small_tree flat_map app].
    repeat (apply List.Forall_cons;
            [first [left; reflexivity | right; discriminate]|]).
    apply List.Forall_nil.
Defined.

(** C3 (the code at the failing input). With two relations naming the
    project as parent, the first listing the site and the second a building,
    the index keeps the children of the second relation only, and the site
    and all below it are missing from the flattened hierarchy. *)
Theorem build_rels_keeps_last_relation :
  rels_get (build_rels (all_IfcRelAggregates split_model)) (GlobalId ent_project)
  = [ent_building_B]
  /\ rels_get (build_rels (all_IfcRelAggregates split_model)) (GlobalId ent_project)
     <> [ent_site] ++ [ent_building_B]
  /\ flatten_hierarchy 3 split_model
     = inr [ {| row_Type := "IfcProject"; row_Nom := "root"; row_Profondeur := 0;
                row_Chemin := "IfcProject:root" |};
             {| row_Type := "IfcBuilding"; row_Nom := "B"; row_Profondeur := 1;
                row_Chemin := "IfcProject:root/IfcBuilding:B" |} ].
Proof.
  split; [vm_compute; reflexivity|].
  split; [vm_compute; discriminate|].
  vm_compute. reflexivity.
Qed.

(** In general the entry of a parent is the child list of the last relation
    that names it. *)
Lemma build_rels_snoc (relations : list IfcRelAggregates) (rel : IfcRelAggregates) :
  rels_get (build_rels (relations ++ [rel])) (GlobalId (RelatingObject rel))
  = RelatedObjects rel.
Proof.
  unfold rels_get, build_rels. rewrite foldl_app. cbn [foldl].
  now rewrite lookup_insert_eq.
Qed.

(** ** Merge: the copy of the sheets *)

Lemma in_rows_coordinates (ws : Worksheet) (rc : nat * nat) :
  In rc (rows_coordinates ws) <-> in_rows ws rc.
Proof.
  unfold rows_coordinates, in_rows. rewrite in_flat_map. split.
  - intros (r & Hr & Hc). apply in_map_iff in Hc.
    destruct Hc as (c & <- & Hc). apply in_seq in Hr, Hc. cbn. lia.
  - destruct rc as [r c]. cbn. intros [Hr Hc].
    exists r. split; [apply in_seq; lia|].
    apply in_map_iff. exists c. split; [reflexivity|apply in_seq; lia].
Qed.

(** One step of the copy leaves at [rc] the cell of the source. *)
Lemma copy_step_cells (src dst : Worksheet) (rc : nat * nat) :
  cells (update_cell (set_style (_style (get_cell src rc)))
           (update_cell (set_value (value (get_cell src rc))) dst rc) rc)
  = <[rc := get_cell src rc]> (cells dst).
Proof.
  unfold update_cell at 1. cbn [cells].
  unfold get_cell at 2. unfold update_cell. cbn [cells].
  rewrite lookup_insert_eq. cbn [default from_option].
  rewrite insert_insert_eq. f_equal.
  unfold set_style, set_value. cbn. now destruct (get_cell src rc).
Qed.

Lemma copy_cells_lookup (src : Worksheet) (coordinates : list (nat * nat)) :
  forall (dst : Worksheet) (rc : nat * nat),
    cells (foldl (fun dst rc =>
                    let cell := get_cell src rc in
                    let dst := update_cell (set_value (value cell)) dst rc in
                    update_cell (set_style (_style cell)) dst rc)
                 dst coordinates) !! rc
    = if decide (rc ∈ coordinates) then Some (get_cell src rc)
      else cells dst !! rc.
Proof.
  induction coordinates as [|rc0 l IH]; intros dst rc; cbn [foldl].
  - now rewrite decide_False by (apply not_elem_of_nil).
  - rewrite IH. cbn zeta. rewrite copy_step_cells.
    destruct (decide (rc ∈ l)) as [Hin|Hnin].
    + rewrite decide_True by (now apply list_elem_of_further). reflexivity.
    + destruct (decide (rc0 = rc)) as [->|Hne].
      * rewrite decide_True by (apply list_elem_of_here).
        apply lookup_insert_eq.
      * rewrite decide_False
          by (rewrite elem_of_cons; intros [H|H]; [congruence|tauto]).
        now apply lookup_insert_ne.
Qed.

(** The copy into a new sheet holds, at the coordinates of [src.rows], the
    cells of the source, and holds no other cell. *)
Lemma copy_cells_new_sheet (src : Worksheet) (rc : nat * nat) :
  cells (copy_cells src new_sheet) !! rc
  = if decide (rc ∈ rows_coordinates src) then Some (get_cell src rc)
    else None.
Proof. unfold copy_cells. rewrite copy_cells_lookup. reflexivity. Qed.



(** *** Titles *)



Lemma create_sheet_returns (policy : TitlePolicy) (wb : Workbook)
    (title : string)
    (fill_in : StyleTables -> Worksheet -> StyleTables * Worksheet) :
  has_invalid_title_char title = false ->
  exists title',
    create_sheet policy wb title fill_in
    = inr {| _sheets := _sheets wb
                        ++ [(title', snd (fill_in (_tables wb) new_sheet))];
             _tables := fst (fill_in (_tables wb) new_sheet) |}.
Proof.
  intros Hv. unfold create_sheet. rewrite Hv.
  destruct (fill_in _ _). eauto.
Qed.


Lemma getitem_sheetnames (wb : Workbook) (sheet : string) :
  In sheet (sheetnames wb) -> exists src, getitem wb sheet = inr src.
Proof.
  unfold getitem, sheetnames.
  induction (_sheets wb) as [|[t ws] l IH]; cbn [map find fst In];
    intros Hin; [destruct Hin|].
  destruct (String.eqb_spec t sheet) as [->|Hne]; [eauto|].
  destruct Hin as [H|H]; [congruence|now apply IH].
Qed.


(** *** The copy of the sheets of a report *)


Lemma copy_sheets_returns (policy : TitlePolicy) (wb : Workbook) (f : Path)
    (names : list string) :
  incl names (sheetnames wb) ->
  Forall (fun sheet => has_invalid_title_char (merged_title sheet f) = false)
         names ->
  forall acc, exists acc',
    copy_sheets policy wb names f acc = (acc', inr tt).
Proof.
  induction names as [|sheet names IH]; intros Hincl Hvalid acc;
    cbn [copy_sheets]; [eauto|].
  destruct (getitem_sheetnames wb sheet) as [src ->];
    [apply Hincl; now left|].
  inversion Hvalid as [|? ? Hv Hvalid']; subst.
  destruct (create_sheet_returns policy acc (merged_title sheet f)
              (fun tables dst => (tables, copy_cells src dst)) Hv)
    as [title' ->].
  apply IH; [|exact Hvalid'].
  intros s Hs. apply Hincl. now right.
Qed.

(** *** The sheets of a report *)








(** *** The batch in merge mode *)



Lemma for_ifc_files_merge_returns (policy : TitlePolicy) (fs : FileSystem)
    (recursion_limit : nat)
    (out_dir : option Path) (ifc_files : list Path) :
  Forall (builds policy fs recursion_limit) ifc_files ->
  Forall (mergeable policy fs recursion_limit) ifc_files ->
  forall (w : World) (acc : Workbook),
    merge_wb w = Some acc ->
    exists w',
      for_ifc_files policy fs recursion_limit ifc_files out_dir true w
      = (w', inr tt)
      /\ written w' = written w.
Proof.
  induction 1 as [|f l [wb Hwb] _ IH]; intros Hm w acc Hacc;
    cbn [for_ifc_files]; [eauto|].
  inversion Hm as [|? ? Hf Hm']; subst.
  unfold process_single. rewrite Hwb. cbn [print merge_wb]. rewrite Hacc.
  destruct (copy_sheets_returns policy wb f (sheetnames wb)
              (incl_refl _) (Hf wb Hwb) acc) as [acc' ->].
  match goal with
  | |- context [for_ifc_files _ _ _ _ _ _ ?w0] =>
      destruct (IH Hm' w0 acc' eq_refl) as (w' & Hrun & Hwr)
  end.
  exists w'. split; [exact Hrun|exact Hwr].
Qed.



Lemma sample_fs_builds (corrupt : list string) (f : Path) :
  path_name f ∉ corrupt -> builds numbered_title (sample_fs corrupt) 3 f.
Proof.
  intros H. exists (report_of numbered_title (sample_fs corrupt) 3 f).
  unfold report_of, build_workbook. cbn [ifcopenshell_open sample_fs].
  rewrite bool_decide_eq_false_2 by exact H. reflexivity.
Qed.


(** ** Batch runs *)

Lemma process_single_raises (policy : TitlePolicy) (fs : FileSystem)
    (recursion_limit : nat)
    (f : Path) (out_dir : option Path) (merge : bool) (w : World) (e : exn) :
  ifcopenshell_open fs f = inl e ->
  process_single policy fs recursion_limit f out_dir merge w = (w, inl e).
Proof.
  intros H. unfold process_single, build_workbook. now rewrite H.
Qed.

Lemma for_ifc_files_app (policy : TitlePolicy) (fs : FileSystem)
    (recursion_limit : nat)
    (out_dir : option Path) (merge : bool) (l1 l2 : list Path) :
  forall w,
    for_ifc_files policy fs recursion_limit (l1 ++ l2) out_dir merge w
    = match for_ifc_files policy fs recursion_limit l1 out_dir merge w with
      | (w', inr _) => for_ifc_files policy fs recursion_limit l2 out_dir merge w'
      | (w', inl e) => (w', inl e)
      end.
Proof.
  induction l1 as [|f l1 IH]; intros w; cbn [app for_ifc_files]; [reflexivity|].
  destruct (process_single _ _ _ f out_dir merge _) as [w1 [e|u]]; [reflexivity|].
  apply IH.
Qed.

Lemma for_ifc_files_standalone (policy : TitlePolicy) (fs : FileSystem)
    (recursion_limit : nat)
    (out_dir : option Path) (ifc_files : list Path) :
  Forall (builds policy fs recursion_limit) ifc_files ->
  forall w,
    exists w' outs,
      for_ifc_files policy fs recursion_limit ifc_files out_dir false w
      = (w', inr tt)
      /\ merge_wb w' = merge_wb w
      /\ written w' = written w ++ outs
      /\ Forall2 (standalone_output policy fs recursion_limit out_dir)
                 ifc_files outs.
Proof.
  induction 1 as [|f l [wb Hwb] _ IH]; intros w; cbn [for_ifc_files].
  - exists w, []. rewrite app_nil_r. repeat split; constructor.
  - unfold process_single. rewrite Hwb. cbn match.
    match goal with
    | |- context [for_ifc_files _ _ _ _ _ _ ?w0] =>
        destruct (IH w0) as (w' & outs & Hrun & Hm & Hwr & Houts)
    end.
    exists w'. eexists ((_, wb) :: outs).
    split; [exact Hrun|]. split; [exact Hm|].
    split.
    + rewrite Hwr. cbn [save_wb print written]. now rewrite <- app_assoc.
    + constructor; [|exact Houts]. split; [|exact Hwb].
      cbn [fst]. unfold with_suffix_name. now destruct out_dir.
Qed.

(** C1 (as the code has it). An input that fails to open is not caught: its
    exception leaves the batch run. The inputs before it have been processed
    in order; in standalone mode their documents, and no others, are
    written; in merge mode, where the sheets of the inputs before it have
    been merged, nothing is written. The inputs after it are not processed,
    and no failure is recorded. *)
Theorem batch_stops_at_failure (policy : TitlePolicy) (fs : FileSystem)
    (recursion_limit : nat)
    (src : Path) (before after : list Path) (bad : Path)
    (output : option Path) (merge : bool) (e : exn) :
  Forall (builds policy fs recursion_limit) before ->
  (merge = true -> Forall (mergeable policy fs recursion_limit) before) ->
  ifcopenshell_open fs bad = inl e ->
  exists w,
    main_batch policy fs recursion_limit src (before ++ bad :: after) output merge
    = (w, inl e)
    /\ if merge then written w = []
       else Forall2 (standalone_output policy fs recursion_limit output)
                    before (written w).
Proof.
  intros Hbefore Hmerge Hbad. unfold main_batch.
  rewrite for_ifc_files_app.
  destruct merge.
  - match goal with
    | |- context [for_ifc_files _ _ _ before _ _ ?w0] =>
        destruct (for_ifc_files_merge_returns policy fs recursion_limit None
                    before Hbefore (Hmerge eq_refl) w0 new_workbook eq_refl)
          as (w' & Hrun & Hwr)
    end.
    rewrite Hrun. cbn [for_ifc_files].
    rewrite (process_single_raises _ _ _ _ _ _ _ e Hbad).
    eexists. split; [reflexivity|]. cbn [print written]. exact Hwr.
  - match goal with
    | |- context [for_ifc_files _ _ _ before _ _ ?w0] =>
        destruct (for_ifc_files_standalone policy fs recursion_limit output
                    before Hbefore w0) as (w' & outs & Hrun & Hm & Hwr & Houts)
    end.
    rewrite Hrun. cbn [for_ifc_files].
    rewrite (process_single_raises _ _ _ _ _ _ _ e Hbad).
    eexists. split; [reflexivity|]. cbn [print written].
    rewrite Hwr. exact Houts.
Qed.

Lemma batch_stops_at_failure_witness :
  exists w,
    main_batch numbered_title (sample_fs ["b.ifc"]) 3 models_dir
               ([a_ifc] ++ b_ifc :: [c_ifc]) None false
    = (w, inl (RuntimeError "not a valid IFC file"))
    /\ Forall2 (standalone_output numbered_title (sample_fs ["b.ifc"]) 3 None)
               [a_ifc] (written w).
Proof.
  refine (batch_stops_at_failure numbered_title (sample_fs ["b.ifc"]) 3
            models_dir [a_ifc] [c_ifc] b_ifc None false _ _ _ _).
  - repeat constructor. apply sample_fs_builds.
    rewrite list_elem_of_singleton. discriminate.
  - discriminate.
  - reflexivity.
Defined.

(** C1, as stated, fails: of three inputs whose second is corrupt, the run
    writes the document of the first only and ends with the exception of
    the second; the third input is not processed and nothing is recorded. *)
Lemma batch_isolation_fails :
  let run := main_batch numbered_title (sample_fs ["b.ifc"]) 3 models_dir
                        [a_ifc; b_ifc; c_ifc] None false in
  snd run = inl (RuntimeError "not a valid IFC file")
  /\ map fst (written (fst run)) = [ ["models"; "a.xlsx"] ]
  /\ length (written (fst run)) <> 2
  /\ stdout (fst run)
     = [ "▶ Analyse de 3 IFC …"; "- a.ifc"; "  ✔ a.xlsx"; "- b.ifc" ].
Proof.
  vm_compute. repeat split; discriminate.
Qed.

(** ** The tables behind a report *)

(** The sheets of a report are rendered from the summary, the levels table,
    the flattened hierarchy and the entities table of the model that the
    file holds. *)
Lemma build_workbook_tables (policy : TitlePolicy) (fs : FileSystem)
    (recursion_limit : nat)
    (ifc_path : Path) (wb : Workbook) :
  build_workbook policy fs recursion_limit ifc_path = inr wb ->
  exists model glob hierarchy pairs,
    ifcopenshell_open fs ifc_path = inr model
    /\ get_global_coords model = inr glob
    /\ flatten_hierarchy recursion_limit model = inr hierarchy
    /\ summary_table (path_name ifc_path) (st_size fs ifc_path) model = inr pairs
    /\ add_sheets policy new_workbook
         [ ("Résumé", summary_df pairs);
           ("Niveaux", levels_frame model glob);
           ("Arborescence", hierarchy_df hierarchy);
           ("Entités",
            entities_df (ent_rows (count_entities (all_IfcProduct model)))) ]
       = inr wb.
Proof.
  unfold build_workbook, summary_table.
  destruct (ifcopenshell_open fs ifc_path) as [e|model] eqn:Ho; [discriminate|].
  cbn [Py.bind].
  destruct (get_global_coords model) as [e|glob] eqn:Hg; [discriminate|].
  cbn [Py.bind].
  destruct (flatten_hierarchy recursion_limit model) as [e|h] eqn:Hh;
    [discriminate|].
  cbn [Py.bind]. intros H.
  exists model, glob, h, (summary_pairs (path_name ifc_path)
                            (st_size fs ifc_path) model glob
                            (get_site_geolocation model)).
  split; [reflexivity|]. split; [exact Hg|]. split; [exact Hh|].
  split; [now rewrite Hg|exact H].
Qed.

(* ===================================================================== *)
(** * Further properties of the code *)
(* ===================================================================== *)

(** ** [dms_to_dd] on sequences of any length *)

Lemma nth_padded (l : list Q) (n i : nat) :
  nth i (l ++ repeat 0%Q n) 0%Q = nth i l 0%Q.
Proof.
  destruct (Nat.lt_ge_cases i (length l)) as [H|H].
  - now apply app_nth1.
  - rewrite app_nth2 by exact H. rewrite nth_repeat.
    symmetry. now apply nth_overflow.
Qed.

(** X1. [dms_to_dd] accepts a sequence of any length and never raises:
    components that are missing count as 0 and components after the fourth
    are ignored. *)
Theorem dms_to_dd_any_length (dms : list Q) :
  dms_to_dd (Some dms)
  = Some (dms_formula (nth 0 dms 0%Q) (nth 1 dms 0%Q)
                      (nth 2 dms 0%Q) (nth 3 dms 0%Q)).
Proof.
  unfold dms_to_dd, dms_formula. cbn zeta.
  rewrite !nth_padded. now rewrite sign_of_degrees_code.
Qed.

Lemma dms_formula_neg (deg minute sec micro : Q) :
  (deg < 0)%Q ->
  (dms_formula deg minute sec micro == deg - dms_fraction minute sec micro)%Q.
Proof.
  intros H. unfold dms_formula, dms_fraction, sign_of_degrees.
  pose proof H as Hc. rewrite Qlt_alt in Hc. rewrite Hc.
  rewrite (Qabs_neg deg) by now apply Qlt_le_weak.
  unfold Qdiv. ring.
Qed.

Lemma dms_formula_nonneg (deg minute sec micro : Q) :
  (0 <= deg)%Q ->
  (dms_formula deg minute sec micro == deg + dms_fraction minute sec micro)%Q.
Proof.
  intros H. unfold dms_formula, dms_fraction, sign_of_degrees.
  rewrite (Qabs_pos deg) by exact H.
  destruct (deg ?= 0)%Q eqn:C.
  - unfold Qdiv. ring.
  - rewrite <- Qlt_alt in C. exfalso. eapply Qlt_not_le; eauto.
  - unfold Qdiv. ring.
Qed.

(** X2. On [deg, min, sec, micro] the result is the degrees plus the
    fraction min/60 + (sec + micro/1e6)/3600 when the degrees are not
    negative, and the degrees minus that fraction when they are negative:
    the sign of the minutes and seconds themselves is not looked at. *)
Theorem dms_to_dd_linear (deg minute sec micro : Q) :
  opt_Qeq (dms_to_dd (Some [deg; minute; sec; micro]))
          (Some (if Qltb deg 0
                 then deg - dms_fraction minute sec micro
                 else deg + dms_fraction minute sec micro)%Q).
Proof.
  rewrite dms_to_dd_4. cbn [opt_Qeq].
  destruct (Qltb deg 0) eqn:E.
  - apply dms_formula_neg. now apply Qltb_lt.
  - apply dms_formula_nonneg. apply Qnot_lt_le. intros H.
    apply Qltb_lt in H. congruence.
Qed.

(** ** [human_readable_size] *)

Lemma divided_succ_r (k : nat) (x : Q) :
  divided (S k) x = divided k (x / 1024)%Q.
Proof.
  unfold divided. induction k as [|k IH]; [reflexivity|].
  change (Nat.iter (S (S k)) (fun q => (q / 1024)%Q) x)
    with (Nat.iter (S k) (fun q => (q / 1024)%Q) x / 1024)%Q.
  rewrite IH. reflexivity.
Qed.

Lemma human_readable_size_from_unit (units : list string) :
  forall (x : Q) (k : nat),
    k <= length units ->
    (forall i, i < k -> Qltb (divided i x) 1024 = false) ->
    (k < length units -> Qltb (divided k x) 1024 = true) ->
    human_readable_size_from units x
    = (format_1f (divided k x) ++ " "
       ++ nth k (units ++ ["PB"])%list "")%string.
Proof.
  induction units as [|unit units IH]; intros x k Hk Hge Hlt.
  - cbn in Hk. assert (k = 0) as -> by lia. reflexivity.
  - destruct k as [|k]; cbn [human_readable_size_from].
    + change (divided 0 x) with x in *.
      rewrite Hlt by (cbn; lia). reflexivity.
    + pose proof (Hge 0 ltac:(lia)) as H0.
      change (divided 0 x) with x in H0. rewrite H0.
      rewrite (IH (x / 1024)%Q k).
      * now rewrite divided_succ_r.
      * cbn in Hk. lia.
      * intros i Hi. rewrite <- divided_succ_r. apply Hge. lia.
      * intros Hk'. rewrite <- divided_succ_r. apply Hlt. cbn. lia.
Qed.

Lemma divided_lt (k : nat) :
  forall x c : Q,
    (divided k x < c)%Q <-> (x < c * inject_Z (1024 ^ Z.of_nat k))%Q.
Proof.
  induction k as [|k IH]; intros x c.
  - cbn [divided Nat.iter Z.of_nat Z.pow]. now rewrite Qmult_1_r.
  - rewrite divided_succ_r, IH.
    rewrite Nat2Z.inj_succ, Z.pow_succ_r by lia.
    rewrite inject_Z_mult.
    assert (H1024 : (0 < 1024)%Q) by reflexivity.
    rewrite <- (Qmult_lt_r (x / 1024) _ 1024 H1024).
    assert (E1 : (x / 1024 * 1024 == x)%Q) by (field).
    assert (E2 : (c * inject_Z (1024 ^ Z.of_nat k) * 1024
                  == c * (inject_Z 1024 * inject_Z (1024 ^ Z.of_nat k)))%Q)
      by (change (inject_Z 1024) with 1024%Q; ring).
    now rewrite E1, E2.
Qed.

Lemma Qltb_divided (k : nat) (n : Z) :
  Qltb (divided k (inject_Z n)) 1024 = true <-> (n < 1024 ^ Z.of_nat (S k))%Z.
Proof.
  rewrite Qltb_lt, divided_lt.
  change 1024%Q with (inject_Z 1024). rewrite <- inject_Z_mult, <- Zlt_Qlt.
  rewrite Nat2Z.inj_succ, Z.pow_succ_r by lia. reflexivity.
Qed.

Lemma float_of_int_exact (n : Z) :
  (0 <= n < 2 ^ 53)%Z -> float_of_int n = n.
Proof.
  intros [H0 H]. unfold float_of_int.
  destruct (Z.eq_dec n 0%Z) as [->|Hn]; [reflexivity|].
  assert (Z.log2 n < 53)%Z by (apply Z.log2_lt_pow2; lia).
  destruct (Z.leb_spec (Z.log2 n - 52) 0%Z); [reflexivity|lia].
Qed.

(** X3. For a size below 2^53 bytes, which a binary64 holds exactly,
    [human_readable_size] divides the size by 1024 as many times as it takes
    to get below 1024, at most five times, prints the quotient with one
    decimal and names the unit after the number [k] of divisions: B, KB, MB,
    GB, TB and, from 1024^5 bytes on, PB. *)
Theorem human_readable_size_unit (bytes_ : N) (k : nat) :
  (Z.of_N bytes_ < 2 ^ 53)%Z ->
  k <= 5 ->
  (k = 0 \/ (1024 ^ Z.of_nat k <= Z.of_N bytes_)%Z) ->
  (k = 5 \/ (Z.of_N bytes_ < 1024 ^ Z.of_nat (S k))%Z) ->
  human_readable_size bytes_
  = (format_1f (divided k (inject_Z (Z.of_N bytes_)))
     ++ " " ++ nth k size_units "")%string.
Proof.
  intros Hexact Hk Hlow Hhigh. unfold human_readable_size.
  set (n := Z.of_N bytes_) in *.
  assert (Hn : (0 <= n)%Z) by (subst n; lia).
  destruct (Z.ltb_spec n 1024) as [Hsmall|Hbig].
  - assert (k = 0) as ->.
    { destruct Hlow as [->|Hlow]; [reflexivity|].
      destruct k as [|k]; [reflexivity|].
      assert (1024 ^ 1 <= 1024 ^ Z.of_nat (S k))%Z
        by (apply Z.pow_le_mono_r; lia).
      lia. }
    reflexivity.
  - rewrite float_of_int_exact by lia.
    destruct k as [|k].
    { destruct Hhigh as [Hhigh|Hhigh]; [discriminate|].
      change (1024 ^ Z.of_nat 1)%Z with 1024%Z in Hhigh. lia. }
    rewrite divided_succ_r.
    change (nth (S k) size_units "")
      with (nth k (["KB"; "MB"; "GB"; "TB"] ++ ["PB"])%list "").
    apply (human_readable_size_from_unit ["KB"; "MB"; "GB"; "TB"]).
    + cbn [length]. lia.
    + intros i Hi. rewrite <- divided_succ_r.
      destruct (Qltb _ 1024) eqn:E; [|reflexivity].
      apply Qltb_divided in E. exfalso.
      destruct Hlow as [Hlow|Hlow]; [discriminate|].
      assert (1024 ^ Z.of_nat (S (S i)) <= 1024 ^ Z.of_nat (S k))%Z
        by (apply Z.pow_le_mono_r; lia).
      lia.
    + cbn [length]. intros Hk4. rewrite <- divided_succ_r.
      apply Qltb_divided.
      destruct Hhigh as [Hhigh|Hhigh]; [lia|exact Hhigh].
Qed.

Lemma human_readable_size_unit_witness :
  human_readable_size 1536 = "1.5 KB"
  /\ human_readable_size (3 * 1024 ^ 5) = "3.0 PB".
Proof.
  split.
  - refine (human_readable_size_unit 1536 1 _ _ _ _).
    + vm_compute. reflexivity.
    + lia.
    + right. vm_compute. discriminate.
    + right. vm_compute. reflexivity.
  - refine (human_readable_size_unit (3 * 1024 ^ 5) 5 _ _ _ _).
    + vm_compute. reflexivity.
    + lia.
    + right. vm_compute. discriminate.
    + left. reflexivity.
Defined.

(** ** Failures of [get_global_coords] *)

(** X4. [get_global_coords] raises in two cases only: the query for the
    map-conversion objects raises an exception other than RuntimeError and
    StopIteration, which is passed on; or there is no map-conversion object
    and the first site is placed by a point without any coordinate, which
    raises IndexError. *)
Theorem get_global_coords_raises (model : Model) (e : exn) :
  get_global_coords model = inl e
  <-> (all_IfcMapConversion model = inl e /\ caught_by_lookup e = false)
      \/ (no_map_conversion model /\ site_placement model []
          /\ e = IndexError).
Proof.
  unfold get_global_coords, first_map_conversion, no_map_conversion,
    site_placement.
  destruct (all_IfcMapConversion model) as [e0|[|mc l]] eqn:Hm; cbn;
    [destruct e0; cbn| |].
  all: repeat match goal with
       | |- context [all_IfcSite ?m] =>
           destruct (all_IfcSite m) as [|site rest] eqn:Hs; cbn
       | |- context [ObjectPlacement ?s] =>
           destruct (ObjectPlacement s) as [[[|c [|c' [|c'' cs]]]|k]|] eqn:Hp;
           cbn
       end.
  all: split;
    [ intros H; try discriminate H; injection H as <-;
      first [ left; split; reflexivity
            | right; split; [exact I|]; split;
              [eexists _, _; split; eauto|reflexivity] ]
    | intros [[H1 H2]|(H1 & (s & r & H2 & H3) & H4)];
      try discriminate H1; try discriminate H2; try contradiction;
      try (injection H1 as <-; first [discriminate H2|reflexivity]);
      try (injection H2 as <- <-; congruence);
      subst; try reflexivity ].
Qed.

(** ** Stability of the sort *)

Section StableSort.
Context {A K : Type} (leb : K -> K -> bool) (key : A -> K).
Variable P : A -> bool.
Hypothesis P_tied :
  forall a b, P a = true -> P b = true -> leb (key a) (key b) = true.

Lemma filter_insert_sorted (x : A) (l : list A) :
  List.filter P (insert_sorted leb key x l) = List.filter P (x :: l).
Proof.
  induction l as [|y l IH]; [reflexivity|].
  cbn [insert_sorted]. destruct (leb (key x) (key y)) eqn:E; [reflexivity|].
  cbn [List.filter] in *. rewrite IH.
  destruct (P x) eqn:Hx, (P y) eqn:Hy; try reflexivity.
  rewrite P_tied in E by assumption. discriminate.
Qed.

Lemma filter_sorted (l : list A) :
  List.filter P (sorted leb key l) = List.filter P l.
Proof.
  induction l as [|x l IH]; [reflexivity|].
  cbn [sorted]. rewrite filter_insert_sorted. cbn [List.filter].
  now rewrite IH.
Qed.

End StableSort.

(** X5. Storeys at the same elevation, an unset elevation counting as 0,
    are listed by [get_levels] in the order the model has them. *)
Theorem get_levels_stable (model : Model) (q : Q) :
  List.filter (at_elevation q) (get_levels model)
  = List.filter (at_elevation q) (storey_pairs model).
Proof.
  unfold get_levels. fold (storey_pairs model).
  apply filter_sorted. intros a b Ha Hb. unfold at_elevation in *.
  apply Qeq_bool_eq in Ha, Hb. apply Qle_bool_iff.
  rewrite Ha, Hb. apply Qle_refl.
Qed.

(** ** Counting *)

Lemma list_sum_counter_incr (k : entity_key) (d : list (entity_key * nat)) :
  list_sum (map snd (counter_incr k d)) = S (list_sum (map snd d)).
Proof.
  induction d as [|[k0 v] d IH]; [reflexivity|].
  cbn [counter_incr]. destruct (decide (k0 = k)).
  - change (v + 1 + list_sum (map snd d) = S (v + list_sum (map snd d))).
    lia.
  - change (v + list_sum (map snd (counter_incr k d))
            = S (v + list_sum (map snd d))).
    rewrite IH. lia.
Qed.

Lemma list_sum_Permutation (l l' : list nat) :
  Permutation l l' -> list_sum l = list_sum l'.
Proof.
  induction 1 as [|x l l' _ IH|x y l|l l' l'' _ IH1 _ IH2].
  - reflexivity.
  - change (x + list_sum l = x + list_sum l'). lia.
  - change (y + (x + list_sum l) = x + (y + list_sum l)). lia.
  - congruence.
Qed.

(** X6. Every product is counted once: the counts of the entities table
    add up to the number of products of the model. *)
Theorem ent_rows_total (products : list IfcProduct) :
  list_sum (map row_Nombre (ent_rows (count_entities products)))
  = length products.
Proof.
  unfold ent_rows. rewrite map_map.
  change (list_sum (map snd (sorted rank_leb rank_key
                               (count_entities products)))
          = length products).
  rewrite <- (list_sum_Permutation _ _
                (Permutation_map snd
                   (sorted_perm rank_leb rank_key (count_entities products)))).
  induction products as [|obj products IH] using rev_ind; [reflexivity|].
  rewrite count_entities_snoc, list_sum_counter_incr, IH, length_app.
  cbn [length]. lia.
Qed.

(** ** The parent-to-children index *)

(** X7. The index returns for an identifier the child list of the last
    aggregation relation that names it as parent, and the empty list when
    no relation does. *)
Theorem build_rels_lookup (relations : list IfcRelAggregates) (gid : string) :
  rels_get (build_rels relations) gid
  = match find (relates gid) (rev relations) with
    | Some rel => RelatedObjects rel
    | None => []
    end.
Proof.
  induction relations as [|rel relations IH] using rev_ind; [reflexivity|].
  rewrite rev_app_distr. cbn [rev app find]. unfold relates at 1.
  destruct (String.eqb_spec (GlobalId (RelatingObject rel)) gid) as [<-|Hne].
  - apply build_rels_snoc.
  - rewrite <- IH. unfold rels_get, build_rels. rewrite foldl_app. cbn [foldl].
    now rewrite lookup_insert_ne.
Qed.

(** ** The walk *)

Lemma for_in_mono
    (body body' : Entity -> list HierarchyRow -> result (list HierarchyRow))
    (children : list Entity) :
  (forall child rows r, In child children ->
      body child rows = inr r -> body' child rows = inr r) ->
  forall rows r,
    for_in body children rows = inr r -> for_in body' children rows = inr r.
Proof.
  induction children as [|c cs IH]; intros Hb rows r; cbn [for_in]; [auto|].
  destruct (body c rows) as [e|rows1] eqn:E; [discriminate|].
  cbn [Py.bind]. rewrite (Hb c rows rows1 (or_introl eq_refl) E). cbn [Py.bind].
  apply IH. intros child rows' r' Hin. apply Hb. now right.
Qed.

Lemma walk_mono (rels : gmap string (list Entity)) (depth : nat) :
  forall ent path rows r,
    walk depth rels ent path rows = inr r ->
    walk (S depth) rels ent path rows = inr r.
Proof.
  induction depth as [|depth IH]; intros ent path rows r; [discriminate|].
  intros H. cbn [walk] in *.
  destruct (display_name ent) as [e|name]; [discriminate|].
  cbn [Py.bind] in *.
  eapply for_in_mono; [|exact H].
  intros child rows' r' _ Hc. apply IH in Hc. exact Hc.
Qed.

(** X8. The recursion limit only bounds the walk: a hierarchy that is
    flattened under some limit is flattened to the same rows under every
    larger limit. *)
Theorem flatten_hierarchy_mono (model : Model) (depth depth' : nat)
    (rows : list HierarchyRow) :
  flatten_hierarchy depth model = inr rows ->
  depth <= depth' ->
  flatten_hierarchy depth' model = inr rows.
Proof.
  unfold flatten_hierarchy.
  destruct (next_or_None (all_IfcProject model)) as [project|]; [|auto].
  intros H Hle. induction Hle as [|d Hle IH]; [exact H|].
  now apply walk_mono.
Qed.

Lemma flatten_hierarchy_mono_witness :
  flatten_hierarchy 7 small_model = flatten_hierarchy 3 small_model.
Proof.
  rewrite (flatten_hierarchy_mono small_model 3 7 _ eq_refl); [reflexivity|].
  lia.
Defined.

Lemma for_in_raises
    (body : Entity -> list HierarchyRow -> result (list HierarchyRow))
    (children : list Entity) (e : exn) :
  forall rows,
    for_in body children rows = inl e ->
    exists child rows', In child children /\ body child rows' = inl e.
Proof.
  induction children as [|c cs IH]; intros rows; cbn [for_in]; [discriminate|].
  destruct (body c rows) as [e'|rows1] eqn:E; cbn [Py.bind].
  - intros [= <-]. exists c, rows. split; [now left|exact E].
  - intros H. destruct (IH _ H) as (child & rows' & Hin & Hb).
    exists child, rows'. split; [now right|exact Hb].
Qed.

Lemma walk_raises (rels : gmap string (list Entity)) (depth : nat) :
  forall ent path rows e,
    walk depth rels ent path rows = inl e ->
    e = RecursionError \/ e = AttributeError "LongName".
Proof.
  induction depth as [|depth IH]; intros ent path rows e; cbn [walk].
  - intros [= <-]. now left.
  - destruct (display_name ent) as [e'|name] eqn:E; cbn [Py.bind].
    + intros [= <-]. right. now apply display_name_raises in E.
    + intros H. apply for_in_raises in H.
      destruct H as (child & rows' & _ & H). now apply IH in H.
Qed.

(** Both the entity and all the children that the index lists are named. *)
Lemma walk_raises_named (rels : gmap string (list Entity)) (depth : nat) :
  (forall gid child, In child (rels_get rels gid) -> named child) ->
  forall ent path rows e,
    named ent ->
    walk depth rels ent path rows = inl e -> e = RecursionError.
Proof.
  intros Hrels.
  induction depth as [|depth IH]; intros ent path rows e Hent; cbn [walk].
  - now intros [= <-].
  - rewrite (display_name_spec _ Hent). cbn [Py.bind].
    intros H. apply for_in_raises in H.
    destruct H as (child & rows' & Hin & H).
    apply IH in H; [exact H|]. eapply Hrels, Hin.
Qed.

Lemma for_in_child_raises
    (body : Entity -> list HierarchyRow -> result (list HierarchyRow))
    (children : list Entity) (child : Entity) :
  In child children ->
  (forall rows, exists e, body child rows = inl e) ->
  forall rows, exists e, for_in body children rows = inl e.
Proof.
  intros Hin Hchild.
  induction children as [|c cs IH]; intros rows; [destruct Hin|].
  cbn [for_in]. destruct Hin as [->|Hin].
  - destruct (Hchild rows) as [e ->]. now exists e.
  - destruct (body c rows) as [e|rows1] eqn:E; cbn [Py.bind].
    + now exists e.
    + now apply IH.
Qed.

Lemma cyclic_model_children (gid : string) (children : list Entity) :
  build_rels (all_IfcRelAggregates cyclic_model) !! gid = Some children ->
  children = [ent_site] \/ children = [ent_project].
Proof.
  unfold build_rels.
  cbn [all_IfcRelAggregates cyclic_model model_with_relations foldl
       RelatingObject RelatedObjects].
  intros H.
  apply lookup_insert_Some in H. destruct H as [[_ <-]|[_ H]]; [now right|].
  apply lookup_insert_Some in H. destruct H as [[_ <-]|[_ H]]; [now left|].
  now rewrite lookup_empty in H.
Qed.

Lemma walk_cycle (rels : gmap string (list Entity)) (cyclic : string -> Prop) :
  (forall gid, cyclic gid ->
      exists child, In child (rels_get rels gid) /\ cyclic (GlobalId child)) ->
  forall depth ent path rows,
    cyclic (GlobalId ent) ->
    exists e, walk depth rels ent path rows = inl e.
Proof.
  intros Hclosed.
  induction depth as [|depth IH]; intros ent path rows Hent; cbn [walk].
  - now exists RecursionError.
  - destruct (display_name ent) as [e|name]; cbn [Py.bind]; [now exists e|].
    destruct (Hclosed _ Hent) as (child & Hin & Hchild).
    apply (for_in_child_raises _ _ child); [exact Hin|].
    intros rows'. now apply IH.
Qed.

(** X9. When the project lies in a set of identifiers each of which has,
    in the index, a child in the set again (an aggregation cycle is such a
    set), the hierarchy is flattened under no recursion limit: whatever the
    limit, the walk ends in an exception, RecursionError or the
    AttributeError of a name that cannot be read; it is RecursionError when
    the project and every child that the index lists have a short name or a
    class with the long-name attribute. *)
Theorem flatten_hierarchy_cycle (model : Model) (cyclic : string -> Prop)
    (project : Entity) (rest : list Entity) :
  all_IfcProject model = project :: rest ->
  cyclic (GlobalId project) ->
  (forall gid, cyclic gid ->
      exists child,
        In child (rels_get (build_rels (all_IfcRelAggregates model)) gid)
        /\ cyclic (GlobalId child)) ->
  (forall depth,
      flatten_hierarchy depth model = inl RecursionError
      \/ flatten_hierarchy depth model = inl (AttributeError "LongName"))
  /\ (named project ->
      (forall gid child,
          In child (rels_get (build_rels (all_IfcRelAggregates model)) gid) ->
          named child) ->
      forall depth, flatten_hierarchy depth model = inl RecursionError).
Proof.
  intros Hp Hproject Hclosed. unfold flatten_hierarchy. rewrite Hp.
  cbn [next_or_None head]. split.
  - intros depth.
    destruct (walk_cycle _ cyclic Hclosed depth project [] [] Hproject)
      as [e He].
    rewrite He. destruct (walk_raises _ _ _ _ _ _ He) as [-> | ->]; auto.
  - intros Hnamed Hrels depth.
    destruct (walk_cycle _ cyclic Hclosed depth project [] [] Hproject)
      as [e He].
    rewrite He. f_equal.
    exact (walk_raises_named _ _ Hrels _ _ _ _ Hnamed He).
Qed.

Lemma flatten_hierarchy_cycle_witness :
  flatten_hierarchy 1000 cyclic_model = inl RecursionError.
Proof.
  refine (proj2 (flatten_hierarchy_cycle cyclic_model
                   (fun gid => gid = "0P" \/ gid = "1S") ent_project []
                   eq_refl _ _) _ _ 1000).
  - left. reflexivity.
  - intros gid [-> | ->].
    + exists ent_site. split; [vm_compute; auto|right; reflexivity].
    + exists ent_project. split; [vm_compute; auto|left; reflexivity].
  - left. reflexivity.
  - intros gid child Hin. left.
    unfold rels_get in Hin.
    destruct (build_rels (all_IfcRelAggregates cyclic_model) !! gid)
      as [children|] eqn:E; [|destruct Hin].
    apply cyclic_model_children in E. cbn [default] in Hin.
    destruct E as [-> | ->]; destruct Hin as [<-|[]]; reflexivity.
Defined.

Lemma for_in_extends
    (body : Entity -> list HierarchyRow -> result (list HierarchyRow))
    (Q : HierarchyRow -> Prop) (children : list Entity) :
  (forall child rows r,
      body child rows = inr r ->
      exists more, r = rows ++ more /\ Forall Q more) ->
  forall rows r,
    for_in body children rows = inr r ->
    exists more, r = rows ++ more /\ Forall Q more.
Proof.
  intros Hb. induction children as [|c cs IH]; intros rows r; cbn [for_in].
  - intros [= <-]. exists []. split; [now rewrite app_nil_r|constructor].
  - destruct (body c rows) as [e|rows1] eqn:E; [discriminate|].
    cbn [Py.bind]. intros H.
    destruct (Hb _ _ _ E) as (m1 & -> & H1).
    destruct (IH _ _ H) as (m2 & -> & H2).
    exists (m1 ++ m2). split; [now rewrite app_assoc|].
    apply Forall_app. auto.
Qed.

Lemma walk_extends (rels : gmap string (list Entity)) (depth : nat) :
  forall ent path rows r,
    walk depth rels ent path rows = inr r ->
    exists more,
      r = rows ++ make_row ent (spec_display_name ent) path :: more
      /\ Forall (fun row => length path < row_Profondeur row) more.
Proof.
  induction depth as [|depth IH]; intros ent path rows r; [discriminate|].
  cbn [walk]. destruct (display_name ent) as [e|name] eqn:E; [discriminate|].
  apply display_name_returns in E. destruct E as [-> _]. cbn [Py.bind].
  intros H.
  apply (for_in_extends _ (fun row => length path < row_Profondeur row)) in H.
  - destruct H as (more & -> & Hmore). exists more.
    split; [now rewrite <- app_assoc|exact Hmore].
  - intros child rows' r' Hc. apply IH in Hc.
    destruct Hc as (more & -> & Hmore).
    eexists (make_row child _ _ :: more).
    split; [reflexivity|].
    constructor.
    + cbn [make_row row_Profondeur]. rewrite length_app. cbn. lia.
    + eapply List.Forall_impl; [|exact Hmore].
      intros row. cbn beta. rewrite length_app. cbn. lia.
Qed.

(** X10. Whatever the relations of the model are, a hierarchy that is
    flattened starts with the row of the first project, at depth 0 and with
    the single label kind:name as path, and every row after it has a depth
    of at least 1. *)
Theorem flatten_hierarchy_root_row (model : Model) (depth : nat)
    (project : Entity) (rest : list Entity) (rows : list HierarchyRow) :
  all_IfcProject model = project :: rest ->
  flatten_hierarchy depth model = inr rows ->
  exists more,
    rows = {| row_Type := is_a project;
              row_Nom := spec_display_name project;
              row_Profondeur := 0;
              row_Chemin := (is_a project ++ ":"
                             ++ spec_display_name project)%string |}
           :: more
    /\ Forall (fun row => 1 <= row_Profondeur row) more.
Proof.
  intros Hp. unfold flatten_hierarchy. rewrite Hp. cbn [next_or_None head].
  intros H. apply walk_extends in H. destruct H as (more & -> & Hmore).
  exists more. split; [|exact Hmore].
  reflexivity.
Qed.

Lemma flatten_hierarchy_root_row_witness :
  exists more,
    flatten_hierarchy 3 split_model
    = inr ({| row_Type := "IfcProject"; row_Nom := "root";
              row_Profondeur := 0; row_Chemin := "IfcProject:root" |}
           :: more)
    /\ Forall (fun row => 1 <= row_Profondeur row) more.
Proof.
  destruct (flatten_hierarchy_root_row split_model 3 ent_project [] _
              eq_refl eq_refl) as (more & Hrows & Hmore).
  exists more. split; [|exact Hmore].
  exact (f_equal inr Hrows).
Defined.

(** ** The style tables *)

Lemma index_of_Some {A} `{EqDecision A} (x : A) (l : list A) :
  forall i, index_of x l = Some i -> nth_error l i = Some x.
Proof.
  induction l as [|y l IH]; intros i; cbn [index_of]; [discriminate|].
  destruct (decide (y = x)) as [->|Hne].
  - now intros [= <-].
  - destruct (index_of x l) as [j|]; cbn; [|discriminate].
    intros [= <-]. cbn. now apply IH.
Qed.

Lemma index_of_snoc {A} `{EqDecision A} (x : A) (l : list A) :
  index_of x l = None -> index_of x (l ++ [x]) = Some (length l).
Proof.
  induction l as [|y l IH]; cbn [index_of app length].
  - intros _. now rewrite decide_True.
  - destruct (decide (y = x)); [discriminate|].
    destruct (index_of x l); cbn; [discriminate|].
    intros _. now rewrite IH.
Qed.

Lemma added_id_of {A} `{EqDecision A} (x : A) (l : list A) :
  nth_error (added x l) (id_of x l) = Some x.
Proof.
  unfold added, id_of, IndexedList_add.
  destruct (index_of x l) as [i|] eqn:E; cbn [fst snd].
  - now apply index_of_Some.
  - rewrite nth_error_app2 by lia. now rewrite Nat.sub_diag.
Qed.

Lemma added_extends {A} `{EqDecision A} (x : A) (l : list A) :
  exists more, added x l = l ++ more.
Proof.
  unfold added, IndexedList_add.
  destruct (index_of x l); cbn [fst]; [exists []; now rewrite app_nil_r|eauto].
Qed.

Lemma IndexedList_add_added {A} `{EqDecision A} (x : A) (l : list A) :
  IndexedList_add x (added x l) = (added x l, id_of x l).
Proof.
  unfold added, id_of, IndexedList_add.
  destruct (index_of x l) as [i|] eqn:E; cbn [fst snd].
  - now rewrite E.
  - now rewrite index_of_snoc.
Qed.

Lemma id_of_added {A} `{EqDecision A} (x : A) (l : list A) :
  id_of x (added x l) = id_of x l.
Proof. unfold id_of at 1. now rewrite IndexedList_add_added. Qed.

Lemma added_added {A} `{EqDecision A} (x : A) (l : list A) :
  added x (added x l) = added x l.
Proof. unfold added at 1. now rewrite IndexedList_add_added. Qed.

Lemma assign_font_eq (font : Font) (tables : StyleTables) (ws : Worksheet)
    (rc : nat * nat) :
  assign_font font tables ws rc
  = (with_font font tables,
     update_cell (set_fontId (id_of font (_fonts tables))) ws rc).
Proof.
  unfold assign_font, with_font, added, id_of.
  now destruct (IndexedList_add font (_fonts tables)).
Qed.

Lemma assign_fill_eq (fill : PatternFill) (tables : StyleTables)
    (ws : Worksheet) (rc : nat * nat) :
  assign_fill fill tables ws rc
  = (with_fill fill tables,
     update_cell (set_fillId (id_of fill (_fills tables))) ws rc).
Proof.
  unfold assign_fill, with_fill, added, id_of.
  now destruct (IndexedList_add fill (_fills tables)).
Qed.

Lemma with_font_idem (font : Font) (tables : StyleTables) :
  with_font font (with_font font tables) = with_font font tables.
Proof. unfold with_font. cbn [_fonts _fills]. now rewrite added_added. Qed.

Lemma with_fill_idem (fill : PatternFill) (tables : StyleTables) :
  with_fill fill (with_fill fill tables) = with_fill fill tables.
Proof. unfold with_fill. cbn [_fonts _fills]. now rewrite added_added. Qed.

Lemma extends_refl (tables : StyleTables) : extends tables tables.
Proof. split; exists []; now rewrite app_nil_r. Qed.

Lemma extends_trans (t1 t2 t3 : StyleTables) :
  extends t1 t2 -> extends t2 t3 -> extends t1 t3.
Proof.
  intros [[m1 H1] [n1 G1]] [[m2 H2] [n2 G2]]. split.
  - exists (m1 ++ m2). now rewrite H2, H1, app_assoc.
  - exists (n1 ++ n2). now rewrite G2, G1, app_assoc.
Qed.

Lemma extends_with_font (font : Font) (tables : StyleTables) :
  extends tables (with_font font tables).
Proof.
  split; cbn [with_font _fonts _fills].
  - apply added_extends.
  - exists []. now rewrite app_nil_r.
Qed.

Lemma extends_with_fill (fill : PatternFill) (tables : StyleTables) :
  extends tables (with_fill fill tables).
Proof.
  split; cbn [with_fill _fonts _fills].
  - exists []. now rewrite app_nil_r.
  - apply added_extends.
Qed.

(** An index that selects an entry keeps selecting it in tables that
    extend the tables. *)
Lemma extends_fonts (t t' : StyleTables) (i : nat) (font : Font) :
  extends t t' ->
  nth_error (_fonts t) i = Some font -> nth_error (_fonts t') i = Some font.
Proof.
  intros [[more ->] _] H. rewrite nth_error_app1; [exact H|].
  apply nth_error_Some. congruence.
Qed.

Lemma extends_fills (t t' : StyleTables) (i : nat) (fill : PatternFill) :
  extends t t' ->
  nth_error (_fills t) i = Some fill -> nth_error (_fills t') i = Some fill.
Proof.
  intros [_ [more ->]] H. rewrite nth_error_app1; [exact H|].
  apply nth_error_Some. congruence.
Qed.

(** ** [write_df] and the highlighting, cells and tables apart *)

Lemma header_fold_eq (start_row start_col : nat) (l : list (nat * string)) :
  forall (t : StyleTables) (ws : Worksheet),
    foldl (fun '(tables, ws) '(c, col) =>
             let rc := (start_row + 1, start_col + c + 1) in
             assign_font header_font tables (ws_cell ws rc (VStr col)) rc)
          (t, ws) l
    = (match l with [] => t | _ :: _ => with_font header_font t end,
       foldl (fun ws '(c, col) =>
                let rc := (start_row + 1, start_col + c + 1) in
                update_cell (set_fontId (id_of header_font (_fonts t)))
                            (ws_cell ws rc (VStr col)) rc)
             ws l).
Proof.
  induction l as [|[c col] l IH]; intros t ws; cbn [foldl]; [reflexivity|].
  cbn zeta. rewrite assign_font_eq, IH.
  cbn [with_font _fonts]. rewrite id_of_added.
  destruct l; [reflexivity|].
  now rewrite (with_font_idem header_font t).
Qed.

Lemma write_df_eq (t : StyleTables) (ws : Worksheet) (df : DataFrame)
    (start_row start_col : nat) :
  write_df t ws df start_row start_col
  = (match columns df with [] => t | _ :: _ => with_font header_font t end,
     write_df_sheet (id_of header_font (_fonts t)) ws df start_row start_col).
Proof.
  unfold write_df, write_df_sheet. rewrite header_fold_eq.
  unfold enumerate. destruct (columns df); reflexivity.
Qed.

Lemma fill_fold_eq (r : nat) (l : list nat) :
  forall (t : StyleTables) (ws : Worksheet),
    foldl (fun '(tables, ws) col_off =>
             assign_fill orange_fill tables ws (r, 2 + col_off))
          (t, ws) l
    = (match l with [] => t | _ :: _ => with_fill orange_fill t end,
       foldl (fun ws col_off =>
                update_cell (set_fillId (id_of orange_fill (_fills t))) ws
                            (r, 2 + col_off))
             ws l).
Proof.
  induction l as [|c l IH]; intros t ws; cbn [foldl]; [reflexivity|].
  rewrite assign_fill_eq, IH.
  cbn [with_fill _fills]. rewrite id_of_added.
  destruct l; [reflexivity|].
  now rewrite (with_fill_idem orange_fill t).
Qed.

(** The tables after one flagged row of a table of [n] columns. *)
Lemma flagged_row_tables_idem (n : nat) (t : StyleTables) :
  let after := fun t => with_font orange_font
                          (match n with
                           | O => t
                           | S _ => with_fill orange_fill t
                           end) in
  after (after t) = after t
  /\ id_of orange_fill (_fills (after t)) = id_of orange_fill (_fills t)
  /\ id_of orange_font (_fonts (after t)) = id_of orange_font (_fonts t).
Proof.
  cbn zeta. destruct n as [|n]; unfold with_font, with_fill;
    cbn [_fonts _fills]; rewrite ?added_added, ?id_of_added; auto.
Qed.

Lemma highlight_fold_eq (n : nat) (l : list (nat * CellValue)) :
  forall (t : StyleTables) (ws : Worksheet),
    foldl (fun '(tables, ws) '(row_offset, ent_val) =>
             if is_proxy ent_val then
               let excel_row := 3 + row_offset in
               let '(tables, ws) :=
                 foldl (fun '(tables, ws) col_off =>
                          assign_fill orange_fill tables ws
                                      (excel_row, 2 + col_off))
                       (tables, ws) (seq 0 n) in
               let att := (excel_row, 2 + n) in
               assign_font orange_font tables
                           (update_cell (set_value (VStr "Attention")) ws att) att
             else (tables, ws))
          (t, ws) l
    = (highlight_tables t n (map snd l),
       foldl (fun ws '(row_offset, ent_val) =>
                if is_proxy ent_val then
                  let excel_row := 3 + row_offset in
                  let ws :=
                    foldl (fun ws col_off =>
                             update_cell
                               (set_fillId (id_of orange_fill (_fills t))) ws
                               (excel_row, 2 + col_off))
                          ws (seq 0 n) in
                  let att := (excel_row, 2 + n) in
                  update_cell (set_fontId (id_of orange_font (_fonts t)))
                              (update_cell (set_value (VStr "Attention")) ws att)
                              att
                else ws)
             ws l).
Proof.
  induction l as [|[row_offset ent_val] l IH]; intros t ws;
    cbn [foldl map snd]; [reflexivity|].
  unfold highlight_tables. cbn [existsb].
  destruct (is_proxy ent_val) eqn:E; cbn [orb].
  - cbn zeta. rewrite fill_fold_eq, assign_font_eq.
    rewrite IH.
    destruct (flagged_row_tables_idem n t) as (Hidem & Hfill & Hfont).
    cbn zeta in Hidem, Hfill, Hfont.
    assert (Hseq : match seq 0 n with
                   | [] => t
                   | _ :: _ => with_fill orange_fill t
                   end
                   = match n with
                     | O => t
                     | S _ => with_fill orange_fill t
                     end) by now destruct n.
    rewrite Hseq.
    assert (Hfont0 : id_of orange_font
                       (_fonts match n with
                               | O => t
                               | S _ => with_fill orange_fill t
                               end)
                     = id_of orange_font (_fonts t)) by now destruct n.
    rewrite Hfill, Hfont, Hfont0. f_equal.
    unfold highlight_tables. destruct (existsb is_proxy (map snd l)).
    + exact Hidem.
    + reflexivity.
  - rewrite IH. reflexivity.
Qed.

Lemma map_snd_enumerate {A} (l : list A) : map snd (enumerate l) = l.
Proof.
  unfold enumerate. generalize 0. induction l as [|x l IH]; intros k;
    cbn; [reflexivity|]. now rewrite IH.
Qed.

Lemma highlight_proxies_eq (t : StyleTables) (ws : Worksheet) (n : nat)
    (ent_column : list CellValue) :
  highlight_proxies t ws n ent_column
  = (highlight_tables t n ent_column,
     highlight_sheet (id_of orange_fill (_fills t))
                     (id_of orange_font (_fonts t)) ws n ent_column).
Proof.
  unfold highlight_proxies, highlight_sheet. cbn zeta.
  rewrite highlight_fold_eq. now rewrite map_snd_enumerate.
Qed.

Lemma extends_highlight_tables (t : StyleTables) (n : nat)
    (ent_column : list CellValue) :
  extends t (highlight_tables t n ent_column).
Proof.
  unfold highlight_tables. destruct (existsb is_proxy ent_column);
    [|apply extends_refl].
  eapply extends_trans; [|apply extends_with_font].
  destruct n; [apply extends_refl|apply extends_with_fill].
Qed.

(** ** The sheets of a report *)

Lemma foldl_preserves {A B : Type} (Inv : A -> Prop) (f : A -> B -> A)
    (l : list B) :
  (forall a x, In x l -> Inv a -> Inv (f a x)) ->
  forall a, Inv a -> Inv (foldl f a l).
Proof.
  induction l as [|x l IH]; intros Hf a Ha; cbn [foldl]; [exact Ha|].
  apply IH.
  - intros a' x' Hin. apply Hf. now right.
  - apply Hf; [now left|exact Ha].
Qed.

Lemma tidy_new_sheet : tidy new_sheet.
Proof.
  intros rc [cell H]. cbn in H. rewrite lookup_empty in H. discriminate.
Qed.

Lemma update_cell_tidy (f : Cell -> Cell) (ws : Worksheet) (rc : nat * nat) :
  2 <= fst rc -> 2 <= snd rc -> tidy ws -> tidy (update_cell f ws rc).
Proof.
  intros Hr Hc Hws rc' H. unfold update_cell in *. cbn [cells max_row max_column] in *.
  destruct (decide (rc = rc')) as [<-|Hne].
  - lia.
  - rewrite lookup_insert_ne in H by exact Hne.
    apply Hws in H. lia.
Qed.

Lemma ws_cell_tidy (ws : Worksheet) (rc : nat * nat) (v : CellValue) :
  2 <= fst rc -> 2 <= snd rc -> tidy ws -> tidy (ws_cell ws rc v).
Proof.
  intros Hr Hc Hws. unfold ws_cell.
  destruct v; now apply update_cell_tidy.
Qed.

Lemma write_df_tidy (id : nat) (ws : Worksheet) (df : DataFrame) :
  tidy ws -> tidy (write_df_sheet id ws df 1 1).
Proof.
  intros Hws. unfold write_df_sheet.
  apply foldl_preserves.
  - intros a [r_idx row] _ Ha. unfold write_row.
    apply foldl_preserves; [|exact Ha].
    intros a' [c_idx v] _ Ha'.
    apply ws_cell_tidy; [cbn; lia|cbn; lia|exact Ha'].
  - apply foldl_preserves; [|exact Hws].
    intros a [c col] _ Ha.
    apply update_cell_tidy; [cbn; lia|cbn; lia|].
    apply ws_cell_tidy; [cbn; lia|cbn; lia|exact Ha].
Qed.

Lemma highlight_proxies_tidy (fill_id font_id : nat) (ws : Worksheet)
    (n : nat) (col : list CellValue) :
  tidy ws -> tidy (highlight_sheet fill_id font_id ws n col).
Proof.
  intros Hws. unfold highlight_sheet.
  apply foldl_preserves; [|exact Hws].
  intros a [row_offset ent_val] _ Ha.
  destruct (is_proxy ent_val); [|exact Ha].
  do 2 (apply update_cell_tidy; [cbn; lia|cbn; lia|]).
  apply foldl_preserves; [|exact Ha].
  intros a' col_off _ Ha'.
  apply update_cell_tidy; [cbn; lia|cbn; lia|exact Ha'].
Qed.

Lemma render_sheet_tidy (sheet : string) (df : DataFrame)
    (fill_in : StyleTables -> Worksheet -> StyleTables * Worksheet)
    (tables : StyleTables) :
  render_sheet sheet df = inr fill_in ->
  tidy (snd (fill_in tables new_sheet)).
Proof.
  unfold render_sheet. destruct (String.eqb sheet "Entités").
  - destruct (df_column df "Entité IFC") as [e|col]; [discriminate|].
    cbn. intros [= <-]. rewrite write_df_eq, highlight_proxies_eq. cbn [snd].
    apply highlight_proxies_tidy, write_df_tidy, tidy_new_sheet.
  - intros [= <-]. rewrite write_df_eq. cbn [snd].
    apply write_df_tidy, tidy_new_sheet.
Qed.

Lemma add_sheets_tidy (policy : TitlePolicy)
    (sheets_data : list (string * DataFrame)) :
  forall wb wb',
    Forall (fun s => tidy (snd s)) (_sheets wb) ->
    add_sheets policy wb sheets_data = inr wb' ->
    Forall (fun s => tidy (snd s)) (_sheets wb').
Proof.
  induction sheets_data as [|[sheet df] l IH]; intros wb wb' Hwb;
    cbn [add_sheets].
  - now intros [= <-].
  - destruct (render_sheet sheet df) as [e|fill_in] eqn:E; [discriminate|].
    cbn [Py.bind]. unfold create_sheet.
    destruct (has_invalid_title_char sheet); [discriminate|].
    pose proof (render_sheet_tidy sheet df fill_in (_tables wb) E) as Htidy.
    destruct (fill_in (_tables wb) new_sheet) as [tables ws].
    cbn [Py.bind Py.ret]. apply IH. cbn [_sheets].
    apply Forall_app. split; [exact Hwb|].
    constructor; [|constructor]. exact Htidy.
Qed.

Lemma build_workbook_tidy (policy : TitlePolicy) (fs : FileSystem)
    (recursion_limit : nat)
    (ifc_path : Path) (wb : Workbook) :
  build_workbook policy fs recursion_limit ifc_path = inr wb ->
  Forall (fun s => tidy (snd s)) (_sheets wb).
Proof.
  intros H. apply build_workbook_tables in H.
  destruct H as (model & glob & h & pairs & _ & _ & _ & _ & H).
  eapply add_sheets_tidy; [|exact H]. constructor.
Qed.

(** X11. In every sheet of a report, row 1 and column A are left empty:
    each cell that is written lies in row 2 or below and in column B or
    beyond. *)
Theorem build_workbook_margin (policy : TitlePolicy) (fs : FileSystem)
    (recursion_limit : nat)
    (ifc_path : Path) (wb : Workbook) (sheet : string) (ws : Worksheet)
    (rc : nat * nat) :
  build_workbook policy fs recursion_limit ifc_path = inr wb ->
  In (sheet, ws) (_sheets wb) ->
  is_Some (cells ws !! rc) ->
  2 <= fst rc /\ 2 <= snd rc.
Proof.
  intros Hwb Hin Hcell. apply build_workbook_tidy in Hwb.
  rewrite List.Forall_forall in Hwb. specialize (Hwb _ Hin rc Hcell).
  cbn in Hwb. lia.
Qed.

(** X12. The copy that the merge makes of a sheet of a report has at every
    coordinate the value and the style array of the source, the indices of
    the array being those into the tables of the report: no written cell of
    the source lies outside the rows that are copied, and where the source
    has no cell the copy has none or an empty one. *)
Theorem copy_cells_complete (policy : TitlePolicy) (fs : FileSystem)
    (recursion_limit : nat)
    (ifc_path : Path) (wb : Workbook) (sheet : string) (src : Worksheet)
    (rc : nat * nat) :
  build_workbook policy fs recursion_limit ifc_path = inr wb ->
  In (sheet, src) (_sheets wb) ->
  get_cell (copy_cells src new_sheet) rc = get_cell src rc.
Proof.
  intros Hwb Hin. apply build_workbook_tidy in Hwb.
  rewrite List.Forall_forall in Hwb. specialize (Hwb _ Hin). cbn in Hwb.
  unfold get_cell at 1. rewrite copy_cells_new_sheet.
  destruct (decide (rc ∈ rows_coordinates src)) as [Hrc|Hrc]; [reflexivity|].
  cbn. unfold get_cell.
  destruct (cells src !! rc) as [cell|] eqn:E; [|reflexivity].
  exfalso. apply Hrc. apply list_elem_of_In, in_rows_coordinates.
  specialize (Hwb rc ltac:(eauto)). unfold in_rows. lia.
Qed.

Lemma build_workbook_margin_witness :
  cells sample_summary !! (1, 1) = None
  /\ cells sample_summary !! (2, 1) = None.
Proof.
  assert (Hwb : build_workbook numbered_title (sample_fs []) 3 a_ifc = inr sample_report)
    by (vm_compute; reflexivity).
  assert (Hin : In ("Résumé", sample_summary) (_sheets sample_report))
    by (vm_compute; left; reflexivity).
  split.
  - destruct (cells sample_summary !! (1, 1)) as [cell|] eqn:E; [|reflexivity].
    destruct (build_workbook_margin _ _ _ _ _ _ _ (1, 1) Hwb Hin) as [H _].
    + rewrite E. eauto.
    + cbn in H. lia.
  - destruct (cells sample_summary !! (2, 1)) as [cell|] eqn:E; [|reflexivity].
    destruct (build_workbook_margin _ _ _ _ _ _ _ (2, 1) Hwb Hin) as [_ H].
    + rewrite E. eauto.
    + cbn in H. lia.
Defined.

Lemma copy_cells_complete_witness :
  get_cell (copy_cells sample_summary new_sheet) (2, 2)
  = get_cell sample_summary (2, 2)
  /\ get_cell (copy_cells sample_summary new_sheet) (40, 40)
     = get_cell sample_summary (40, 40).
Proof.
  assert (Hwb : build_workbook numbered_title (sample_fs []) 3 a_ifc = inr sample_report)
    by (vm_compute; reflexivity).
  assert (Hin : In ("Résumé", sample_summary) (_sheets sample_report))
    by (vm_compute; left; reflexivity).
  split; exact (copy_cells_complete _ _ _ _ _ _ _ _ Hwb Hin).
Defined.

(** ** What [write_df] writes *)

Lemma get_cell_update_cell (f : Cell -> Cell) (ws : Worksheet) (rc rc' : nat * nat) :
  get_cell (update_cell f ws rc) rc'
  = if decide (rc = rc') then f (get_cell ws rc') else get_cell ws rc'.
Proof.
  unfold get_cell, update_cell. cbn [cells].
  destruct (decide (rc = rc')) as [<-|Hne].
  - now rewrite lookup_insert_eq.
  - now rewrite lookup_insert_ne.
Qed.

Lemma cells_update_cell_ne (f : Cell -> Cell) (ws : Worksheet) (rc rc' : nat * nat) :
  rc <> rc' -> cells (update_cell f ws rc) !! rc' = cells ws !! rc'.
Proof. intros H. unfold update_cell. cbn [cells]. now apply lookup_insert_ne. Qed.

Lemma ws_cell_update (ws : Worksheet) (rc : nat * nat) (v : CellValue) :
  ws_cell ws rc v = update_cell (data_put v) ws rc.
Proof. destruct v; reflexivity. Qed.

Lemma header_step (id : nat) (ws : Worksheet) (rc : nat * nat) (col : string) :
  forall rc',
    get_cell (update_cell (set_fontId id) (ws_cell ws rc (VStr col)) rc) rc'
    = if decide (rc = rc') then header_put id col (get_cell ws rc')
      else get_cell ws rc'.
Proof.
  intros rc'. rewrite get_cell_update_cell. cbn [ws_cell].
  rewrite get_cell_update_cell. now destruct (decide (rc = rc')).
Qed.

(** A fold over the elements of a list with their indices from [k] on, in
    which the step for the index [i] changes the cells that [touch i] holds
    of, and no index shares a cell with another. *)
Section IndexedFold.
Context {X : Type} (touch : nat -> nat * nat -> bool)
        (step : Worksheet -> nat * X -> Worksheet).

Lemma indexed_fold_miss :
  (forall ws i x rc, touch i rc = false ->
      cells (step ws (i, x)) !! rc = cells ws !! rc) ->
  forall (l : list X) (k : nat) (ws : Worksheet) (rc : nat * nat),
    (forall i, k <= i < k + length l -> touch i rc = false) ->
    cells (foldl step ws (combine (seq k (length l)) l)) !! rc
    = cells ws !! rc.
Proof.
  intros Hstep. induction l as [|y l IH]; intros k ws rc Hrc; [reflexivity|].
  cbn [length seq combine foldl]. rewrite IH.
  - apply Hstep. apply Hrc. cbn. lia.
  - intros i Hi. apply Hrc. cbn. lia.
Qed.

Variable change : nat -> X -> nat * nat -> Cell -> Cell.
Hypothesis touch_once :
  forall i j rc, touch i rc = true -> touch j rc = true -> i = j.
Hypothesis step_get_cell :
  forall ws i x rc,
    get_cell (step ws (i, x)) rc
    = if touch i rc then change i x rc (get_cell ws rc) else get_cell ws rc.

Lemma indexed_fold_untouched (l : list X) :
  forall (k : nat) (ws : Worksheet) (rc : nat * nat),
    (forall i, k <= i -> touch i rc = false) ->
    get_cell (foldl step ws (combine (seq k (length l)) l)) rc
    = get_cell ws rc.
Proof.
  induction l as [|y l IH]; intros k ws rc Hrc; [reflexivity|].
  cbn [length seq combine foldl]. rewrite IH.
  - rewrite step_get_cell. now rewrite Hrc by lia.
  - intros i Hi. apply Hrc. lia.
Qed.

Lemma indexed_fold_hit (l : list X) :
  forall (k i : nat) (x : X) (ws : Worksheet) (rc : nat * nat),
    nth_error l i = Some x ->
    touch (k + i) rc = true ->
    get_cell (foldl step ws (combine (seq k (length l)) l)) rc
    = change (k + i) x rc (get_cell ws rc).
Proof.
  induction l as [|y l IH]; intros k i x ws rc Hx Ht;
    [destruct i; discriminate|].
  cbn [length seq combine foldl]. destruct i as [|i].
  - injection Hx as ->. rewrite Nat.add_0_r in *.
    rewrite indexed_fold_untouched.
    + rewrite step_get_cell. now rewrite Ht.
    + intros i Hi. destruct (touch i rc) eqn:E; [|reflexivity].
      pose proof (touch_once _ _ _ Ht E). lia.
  - cbn [nth_error] in Hx.
    replace (k + S i) with (S k + i) in * by lia.
    rewrite (IH (S k) i x _ rc Hx Ht). rewrite step_get_cell.
    destruct (touch k rc) eqn:E; [|reflexivity].
    pose proof (touch_once _ _ _ Ht E). lia.
Qed.

End IndexedFold.

Lemma indexed_fold_cells {X : Type} (touches : nat -> X -> nat * nat -> Prop)
    (step : Worksheet -> nat * X -> Worksheet) :
  (forall ws i x rc, ~ touches i x rc ->
      cells (step ws (i, x)) !! rc = cells ws !! rc) ->
  forall (l : list X) (k : nat) (ws : Worksheet) (rc : nat * nat),
    (forall i x, nth_error l i = Some x -> ~ touches (k + i) x rc) ->
    cells (foldl step ws (combine (seq k (length l)) l)) !! rc
    = cells ws !! rc.
Proof.
  intros Hstep. induction l as [|y l IH]; intros k ws rc Hrc; [reflexivity|].
  cbn [length seq combine foldl]. rewrite IH.
  - apply Hstep. rewrite <- (Nat.add_0_r k). now apply Hrc.
  - intros i x Hx. replace (S k + i) with (k + S i) by lia. now apply Hrc.
Qed.

Section WriteDf.
Variables start_row start_col : nat.

Lemma write_row_hit (r_idx : nat) (ws : Worksheet) (row : list CellValue)
    (c : nat) (v : CellValue) :
  nth_error row c = Some v ->
  get_cell (write_row start_row start_col r_idx ws row) (start_row + 2 + r_idx, start_col + c + 1)
  = data_put v (get_cell ws (start_row + 2 + r_idx, start_col + c + 1)).
Proof.
  intros Hv. unfold write_row, enumerate.
  apply (indexed_fold_hit
           (fun c rc => bool_decide
                          ((start_row + 2 + r_idx, start_col + c + 1) = rc))
           _ (fun _ v _ => data_put v)) with (k := 0) (i := c).
  - intros i j rc Hi Hj. apply bool_decide_eq_true_1 in Hi, Hj.
    rewrite <- Hj in Hi. injection Hi. lia.
  - intros ws' i x rc. rewrite ws_cell_update, get_cell_update_cell.
    destruct (decide (_ = rc)) as [H|H].
    + now rewrite bool_decide_eq_true_2.
    + now rewrite bool_decide_eq_false_2.
  - exact Hv.
  - now apply bool_decide_eq_true_2.
Qed.

Lemma write_row_miss (r_idx : nat) (ws : Worksheet) (row : list CellValue)
    (rc : nat * nat) :
  (forall c v, nth_error row c = Some v ->
      rc <> (start_row + 2 + r_idx, start_col + c + 1)) ->
  cells (write_row start_row start_col r_idx ws row) !! rc = cells ws !! rc.
Proof.
  intros Hrc. unfold write_row, enumerate.
  apply (indexed_fold_cells
           (fun c (_ : CellValue) rc =>
              rc = (start_row + 2 + r_idx, start_col + c + 1))).
  - intros ws' i x rc' Hne. rewrite ws_cell_update.
    apply cells_update_cell_ne. congruence.
  - intros i x Hx. exact (Hrc i x Hx).
Qed.

Lemma write_row_get_cell (r_idx : nat) (ws : Worksheet) (row : list CellValue)
    (rc : nat * nat) :
  get_cell (write_row start_row start_col r_idx ws row) rc
  = if bool_decide (fst rc = start_row + 2 + r_idx)
    then match (if decide (start_col + 1 <= snd rc)
                then nth_error row (snd rc - (start_col + 1)) else None) with
         | Some v => data_put v (get_cell ws rc)
         | None => get_cell ws rc
         end
    else get_cell ws rc.
Proof.
  assert (Hmiss : (forall c v, nth_error row c = Some v ->
                      rc <> (start_row + 2 + r_idx, start_col + c + 1)) ->
                  get_cell (write_row start_row start_col r_idx ws row) rc = get_cell ws rc).
  { intros H. unfold get_cell. now rewrite write_row_miss. }
  destruct rc as [r c]. cbn [fst snd].
  case_bool_decide as Hr.
  - destruct (decide (start_col + 1 <= c)) as [Hc|Hc].
    + destruct (nth_error row (c - (start_col + 1))) as [v|] eqn:Hv.
      * subst r. pose proof (write_row_hit r_idx ws row _ _ Hv) as H.
        replace (start_col + (c - (start_col + 1)) + 1) with c in H by lia.
        exact H.
      * apply Hmiss. intros c' v Hv' [= _ ->].
        replace (start_col + c' + 1 - (start_col + 1)) with c' in Hv by lia.
        congruence.
    + apply Hmiss. intros c' v _ [= _ ->]. lia.
  - apply Hmiss. intros c' v _ [= -> _]. lia.
Qed.

Lemma write_df_sheet_cells (id : nat) (ws : Worksheet) (df : DataFrame) :
  (forall c col,
      nth_error (columns df) c = Some col ->
      get_cell (write_df_sheet id ws df start_row start_col)
               (start_row + 1, start_col + c + 1)
      = header_put id col (get_cell ws (start_row + 1, start_col + c + 1)))
  /\ (forall r row c v,
        nth_error (data df) r = Some row ->
        nth_error row c = Some v ->
        get_cell (write_df_sheet id ws df start_row start_col)
                 (start_row + 2 + r, start_col + c + 1)
        = data_put v (get_cell ws (start_row + 2 + r, start_col + c + 1)))
  /\ (forall rc,
        ~ in_frame df start_row start_col rc ->
        cells (write_df_sheet id ws df start_row start_col) !! rc
        = cells ws !! rc).
Proof.
  unfold write_df_sheet.
  set (header := foldl _ ws (enumerate (columns df))).
  assert (Hrows_touch :
            forall i j (rc : nat * nat),
              bool_decide (fst rc = start_row + 2 + i) = true ->
              bool_decide (fst rc = start_row + 2 + j) = true -> i = j).
  { intros i j rc Hi Hj. apply bool_decide_eq_true_1 in Hi, Hj. lia. }
  assert (Hheader_hit :
            forall c col, nth_error (columns df) c = Some col ->
              get_cell header (start_row + 1, start_col + c + 1)
              = header_put id col
                  (get_cell ws (start_row + 1, start_col + c + 1))).
  { intros c col Hcol. subst header. unfold enumerate.
    apply (indexed_fold_hit
             (fun c rc => bool_decide
                            ((start_row + 1, start_col + c + 1) = rc))
             _ (fun _ col _ => header_put id col)) with (k := 0) (i := c).
    - intros i j rc Hi Hj. apply bool_decide_eq_true_1 in Hi, Hj.
      rewrite <- Hj in Hi. injection Hi. lia.
    - intros ws' i x rc. rewrite header_step.
      destruct (decide (_ = rc)) as [H|H].
      + now rewrite bool_decide_eq_true_2.
      + now rewrite bool_decide_eq_false_2.
    - exact Hcol.
    - now apply bool_decide_eq_true_2. }
  assert (Hheader_miss :
            forall rc,
              (forall c col, nth_error (columns df) c = Some col ->
                  rc <> (start_row + 1, start_col + c + 1)) ->
              cells header !! rc = cells ws !! rc).
  { intros rc Hrc. subst header. unfold enumerate.
    apply (indexed_fold_cells
             (fun c (_ : string) rc => rc = (start_row + 1, start_col + c + 1))).
    - intros ws' i x rc' Hne. rewrite cells_update_cell_ne by congruence.
      rewrite ws_cell_update. apply cells_update_cell_ne. congruence.
    - intros i x Hx. exact (Hrc i x Hx). }
  split; [|split].
  - intros c col Hcol. unfold enumerate.
    rewrite (indexed_fold_untouched
               (fun r rc => bool_decide (fst rc = start_row + 2 + r))
               _ (fun r row rc cell =>
                    match (if decide (start_col + 1 <= snd rc)
                           then nth_error row (snd rc - (start_col + 1))
                           else None) with
                    | Some v => data_put v cell
                    | None => cell
                    end)).
    + now apply Hheader_hit.
    + intros ws' i x rc. apply write_row_get_cell.
    + intros i _. apply bool_decide_eq_false_2. cbn. lia.
  - intros r row c v Hrow Hv. unfold enumerate.
    rewrite (indexed_fold_hit
               (fun r rc => bool_decide (fst rc = start_row + 2 + r))
               _ (fun r row rc cell =>
                    match (if decide (start_col + 1 <= snd rc)
                           then nth_error row (snd rc - (start_col + 1))
                           else None) with
                    | Some v => data_put v cell
                    | None => cell
                    end) Hrows_touch) with (k := 0) (i := r) (x := row).
    + cbn [fst snd]. rewrite decide_True by lia.
      replace (start_col + c + 1 - (start_col + 1)) with c by lia.
      rewrite Hv. f_equal. unfold get_cell. rewrite Hheader_miss; [reflexivity|].
      intros c' col _ [= H _]. lia.
    + intros ws' i x rc. apply write_row_get_cell.
    + exact Hrow.
    + now apply bool_decide_eq_true_2.
  - intros rc Hrc. unfold enumerate.
    rewrite (indexed_fold_cells
               (fun r (row : list CellValue) rc =>
                  exists c v, nth_error row c = Some v
                              /\ rc = (start_row + 2 + r, start_col + c + 1))).
    + apply Hheader_miss. intros c col Hcol ->. apply Hrc. left. eauto.
    + intros ws' i x rc' Hne. apply write_row_miss.
      intros c v Hv ->. apply Hne. eauto.
    + intros i x Hx (c & v & Hv & ->). apply Hrc. right.
      exists i, x, c, v. auto.
Qed.

(** X13. [write_df] writes the name of the column of index [c] at row
    [start_row + 1], column [start_col + c + 1], and gives that cell the
    bold white header font: the font is added to the table of fonts of the
    workbook, the cell gets its index and reads in that font; it writes the
    value of index [c] of the data row of index [r] at row
    [start_row + 2 + r], column [start_col + c + 1], where a value None
    leaves the content of the cell as it is; it changes no other cell of the
    sheet, leaves the table of fills as it is and every index into the
    table of fonts its entry. *)
Theorem write_df_cells (tables : StyleTables) (ws : Worksheet) (df : DataFrame) :
  let out := write_df tables ws df start_row start_col in
  let id := id_of header_font (_fonts tables) in
  (forall c col,
      nth_error (columns df) c = Some col ->
      get_cell (snd out) (start_row + 1, start_col + c + 1)
      = header_put id col (get_cell ws (start_row + 1, start_col + c + 1))
      /\ cell_font (fst out)
                   (get_cell (snd out) (start_row + 1, start_col + c + 1))
         = inr header_font)
  /\ (forall r row c v,
        nth_error (data df) r = Some row ->
        nth_error row c = Some v ->
        get_cell (snd out) (start_row + 2 + r, start_col + c + 1)
        = data_put v (get_cell ws (start_row + 2 + r, start_col + c + 1)))
  /\ (forall rc,
        ~ in_frame df start_row start_col rc ->
        cells (snd out) !! rc = cells ws !! rc)
  /\ extends tables (fst out)
  /\ _fills (fst out) = _fills tables.
Proof.
  cbn zeta. rewrite write_df_eq. cbn [fst snd].
  destruct (write_df_sheet_cells (id_of header_font (_fonts tables)) ws df)
    as (Hheader & Hdata & Hother).
  split; [|split; [exact Hdata|split; [exact Hother|split]]].
  - intros c col Hcol. split; [now apply Hheader|].
    rewrite (Hheader c col Hcol).
    destruct (columns df) as [|col0 cols]; [destruct c; discriminate|].
    unfold cell_font, header_put. cbn [set_fontId _style fontId with_font _fonts].
    now rewrite added_id_of.
  - destruct (columns df); [apply extends_refl|apply extends_with_font].
  - now destruct (columns df).
Qed.

End WriteDf.

(** ** What the highlighting changes *)

Lemma fill_columns_get_cell (f : Cell -> Cell) (r b : nat) (m : nat) :
  forall (k : nat) (ws : Worksheet) (rc : nat * nat),
    get_cell (foldl (fun ws j => update_cell f ws (r, b + j)) ws (seq k m)) rc
    = if bool_decide (fst rc = r /\ b + k <= snd rc < b + k + m)
      then f (get_cell ws rc) else get_cell ws rc.
Proof.
  induction m as [|m IH]; intros k ws rc; cbn [seq foldl].
  - rewrite bool_decide_eq_false_2 by lia. reflexivity.
  - rewrite IH, get_cell_update_cell. destruct rc as [r' c']. cbn [fst snd].
    destruct (decide ((r, b + k) = (r', c'))) as [[= <- <-]|Hne].
    + rewrite bool_decide_eq_false_2 by lia.
      now rewrite bool_decide_eq_true_2 by lia.
    + case_bool_decide as H1; case_bool_decide as H2; try reflexivity.
      * exfalso. apply H2. lia.
      * exfalso. destruct H2 as [-> H2].
        assert (c' = b + k) as -> by lia. now apply Hne.
Qed.

Lemma fill_columns_cells (f : Cell -> Cell) (r b : nat) (m : nat) :
  forall (k : nat) (ws : Worksheet) (rc : nat * nat),
    ~ (fst rc = r /\ b + k <= snd rc < b + k + m) ->
    cells (foldl (fun ws j => update_cell f ws (r, b + j)) ws (seq k m)) !! rc
    = cells ws !! rc.
Proof.
  induction m as [|m IH]; intros k ws rc Hrc; cbn [seq foldl]; [reflexivity|].
  rewrite IH by lia. apply cells_update_cell_ne.
  intros <-. apply Hrc. cbn. lia.
Qed.

Lemma highlight_sheet_cells (fill_id font_id : nat) (ws : Worksheet) (n : nat)
    (ent_column : list CellValue) :
  (forall i v rc,
      nth_error ent_column i = Some v ->
      is_proxy v = true ->
      fst rc = 3 + i ->
      get_cell (highlight_sheet fill_id font_id ws n ent_column) rc
      = highlight_put fill_id font_id n rc (get_cell ws rc))
  /\ (forall rc,
        ~ flagged n ent_column rc ->
        cells (highlight_sheet fill_id font_id ws n ent_column) !! rc
        = cells ws !! rc).
Proof.
  unfold highlight_sheet. cbn zeta. unfold enumerate.
  split.
  - intros i v rc Hv Hp Hrc.
    rewrite (indexed_fold_hit
               (fun i rc => bool_decide (fst rc = 3 + i))
               _ (fun _ v rc cell =>
                    if is_proxy v then highlight_put fill_id font_id n rc cell
                    else cell))
      with (k := 0) (i := i) (x := v).
    + now rewrite Hp.
    + intros a b rc' Ha Hb. apply bool_decide_eq_true_1 in Ha, Hb. lia.
    + intros ws' j x rc'. destruct (is_proxy x); [|now case_bool_decide].
      rewrite !get_cell_update_cell, fill_columns_get_cell.
      unfold highlight_put. destruct rc' as [r c]. cbn [fst snd].
      destruct (decide ((3 + j, 2 + n) = (r, c))) as [[= <- <-]|Hne].
      * rewrite (bool_decide_eq_true_2 (3 + j = 3 + j)) by reflexivity.
        rewrite bool_decide_eq_false_2 by lia.
        rewrite bool_decide_eq_false_2 by lia.
        now rewrite bool_decide_eq_true_2 by reflexivity.
      * assert (Hne' : ~ (r = 3 + j /\ c = 2 + n))
          by (intros [-> ->]; now apply Hne).
        repeat case_bool_decide; try reflexivity; exfalso; lia.
    + exact Hv.
    + now apply bool_decide_eq_true_2.
  - intros rc Hrc.
    apply (indexed_fold_cells
             (fun i v rc => is_proxy v = true
                            /\ fst rc = 3 + i /\ 2 <= snd rc <= 2 + n)).
    + intros ws' i x rc' Hne. destruct (is_proxy x); [|reflexivity].
      rewrite !cells_update_cell_ne, fill_columns_cells; try reflexivity.
      * intros [H1 H2]. apply Hne. lia.
      * intros <-. apply Hne. cbn. lia.
      * intros <-. apply Hne. cbn. lia.
    + intros i x Hx (Hp & H1 & H2). apply Hrc. exists i, x. auto.
Qed.

(** X14. The highlighting acts on the rows of the entities sheet whose kind
    is IfcBuildingElementProxy, and on no other cell: in such a row, of
    index [i], the [n] cells of the table from column B on get the orange
    fill, and the cell after the last column gets the value "Attention" in
    the orange italic font. The fill and the font are added to the tables of
    the workbook, where the indices given to the cells select them, and
    every other index keeps its entry. *)
Theorem highlight_proxies_cells (tables : StyleTables) (ws : Worksheet)
    (n : nat) (ent_column : list CellValue) :
  let out := highlight_proxies tables ws n ent_column in
  let fill_id := id_of orange_fill (_fills tables) in
  let font_id := id_of orange_font (_fonts tables) in
  (forall i v rc,
      nth_error ent_column i = Some v ->
      is_proxy v = true ->
      fst rc = 3 + i ->
      get_cell (snd out) rc
      = highlight_put fill_id font_id n rc (get_cell ws rc)
      /\ nth_error (_fonts (fst out)) font_id = Some orange_font
      /\ (0 < n -> nth_error (_fills (fst out)) fill_id = Some orange_fill))
  /\ (forall rc,
        ~ flagged n ent_column rc ->
        cells (snd out) !! rc = cells ws !! rc)
  /\ extends tables (fst out).
Proof.
  cbn zeta. rewrite highlight_proxies_eq. cbn [fst snd].
  destruct (highlight_sheet_cells (id_of orange_fill (_fills tables))
              (id_of orange_font (_fonts tables)) ws n ent_column)
    as (Hrow & Hother).
  split; [|split; [exact Hother|apply extends_highlight_tables]].
  intros i v rc Hv Hp Hrc. split; [exact (Hrow i v rc Hv Hp Hrc)|].
  assert (Hex : existsb is_proxy ent_column = true).
  { apply existsb_exists. exists v. split; [|exact Hp].
    eapply nth_error_In, Hv. }
  unfold highlight_tables. rewrite Hex. split.
  - cbn [with_font _fonts]. destruct n; cbn [with_fill _fonts];
      apply added_id_of.
  - intros Hn. destruct n as [|n]; [lia|].
    cbn [with_font with_fill _fills]. apply added_id_of.
Qed.

(** ** Standalone runs *)

(** X15. In standalone mode, when the report of every input can be built,
    the batch returns normally and has written one document per input, in
    the order of the inputs: the report of the input, under the name of
    its stem with the suffix .xlsx, in the output folder when one is given
    and next to the input otherwise. No merged document is written. *)
Theorem main_batch_standalone (policy : TitlePolicy) (fs : FileSystem)
    (recursion_limit : nat)
    (src : Path) (ifc_files : list Path) (output : option Path) :
  Forall (builds policy fs recursion_limit) ifc_files ->
  exists w,
    main_batch policy fs recursion_limit src ifc_files output false = (w, inr tt)
    /\ Forall2 (standalone_output policy fs recursion_limit output) ifc_files
               (written w)
    /\ merge_wb w = None.
Proof.
  intros Hall. unfold main_batch.
  match goal with
  | |- context [for_ifc_files _ _ _ _ _ _ ?w0] =>
      destruct (for_ifc_files_standalone policy fs recursion_limit output ifc_files
                  Hall w0) as (w' & outs & Hrun & Hm & Hwr & Houts)
  end.
  rewrite Hrun. eexists. split; [reflexivity|].
  cbn [print written merge_wb].
  split; [rewrite Hwr; exact Houts|exact Hm].
Qed.

Lemma main_batch_standalone_witness :
  exists w,
    main_batch numbered_title (sample_fs []) 3 models_dir [a_ifc; b_ifc] (Some ["out"]) false
    = (w, inr tt)
    /\ map fst (written w) = [ ["out"; "a.xlsx"]; ["out"; "b.xlsx"] ].
Proof.
  destruct (main_batch_standalone numbered_title (sample_fs []) 3 models_dir [a_ifc; b_ifc]
              (Some ["out"])) as (w & Hrun & Houts & _).
  - repeat constructor; apply sample_fs_builds, not_elem_of_nil.
  - exists w. split; [exact Hrun|].
    destruct (written w) as [|o1 [|o2 [|o3 outs]]];
      try (exfalso; apply Forall2_length in Houts; discriminate Houts).
    apply List.Forall2_cons_iff in Houts. destruct Houts as [[Ho1 _] Houts].
    apply List.Forall2_cons_iff in Houts. destruct Houts as [[Ho2 _] _].
    cbn [map]. now rewrite Ho1, Ho2.
Defined.

(** ** When a report can be built *)

Lemma counter_incr_not_nil (k : entity_key) (d : list (entity_key * nat)) :
  counter_incr k d <> [].
Proof.
  destruct d as [|[k0 v] d]; cbn; [discriminate|].
  destruct (decide (k0 = k)); discriminate.
Qed.

Lemma ent_rows_nil (products : list IfcProduct) :
  ent_rows (count_entities products) = [] <-> products = [].
Proof.
  split; [|now intros ->].
  intros H. unfold ent_rows in H. apply List.map_eq_nil in H.
  pose proof (sorted_perm rank_leb rank_key (count_entities products)) as Hp.
  rewrite H in Hp. apply Permutation_sym, Permutation_nil in Hp.
  destruct products as [|obj products] using rev_ind; [reflexivity|].
  rewrite count_entities_snoc in Hp.
  now apply counter_incr_not_nil in Hp.
Qed.

Lemma add_sheets_report (policy : TitlePolicy)
    (summary levels hierarchy entities : DataFrame) :
  match column_index "Entité IFC" (columns entities) with
  | None =>
      add_sheets policy new_workbook
        [ ("Résumé", summary); ("Niveaux", levels);
          ("Arborescence", hierarchy); ("Entités", entities) ]
      = inl (KeyError "Entité IFC")
  | Some _ =>
      exists wb,
        add_sheets policy new_workbook
          [ ("Résumé", summary); ("Niveaux", levels);
            ("Arborescence", hierarchy); ("Entités", entities) ]
        = inr wb
  end.
Proof.
  cbn [add_sheets]. unfold render_sheet.
  change (String.eqb "Résumé" "Entités") with false.
  change (String.eqb "Niveaux" "Entités") with false.
  change (String.eqb "Arborescence" "Entités") with false.
  change (String.eqb "Entités" "Entités") with true.
  cbn [Py.bind Py.ret].
  destruct (create_sheet_returns policy new_workbook "Résumé"
              (fun tables ws => write_df tables ws summary 1 1) eq_refl)
    as [t1 ->].
  cbn [Py.bind].
  match goal with
  | |- context [create_sheet policy ?wb "Niveaux" ?f] =>
      destruct (create_sheet_returns policy wb "Niveaux" f eq_refl)
        as [t2 ->]
  end.
  cbn [Py.bind].
  match goal with
  | |- context [create_sheet policy ?wb "Arborescence" ?f] =>
      destruct (create_sheet_returns policy wb "Arborescence" f eq_refl)
        as [t3 ->]
  end.
  cbn [Py.bind]. unfold df_column.
  destruct (column_index "Entité IFC" (columns entities)) as [i|];
    [|reflexivity].
  cbn [Py.bind Py.ret].
  match goal with
  | |- context [create_sheet policy ?wb "Entités" ?f] =>
      destruct (create_sheet_returns policy wb "Entités" f eq_refl)
        as [t4 ->]
  end.
  cbn [Py.bind]. eauto.
Qed.

(** X16. A report is built exactly when the file opens as a model, the
    global coordinates and the hierarchy of the model are computed without
    exception, and the model has at least one product. The first of these
    steps that raises gives its exception to [build_workbook]; a model
    without any product ends in KeyError, on the column "Entité IFC" that
    the empty entities table does not have. *)
Theorem build_workbook_outcome (policy : TitlePolicy) (fs : FileSystem)
    (recursion_limit : nat)
    (ifc_path : Path) :
  match ifcopenshell_open fs ifc_path with
  | inl e => build_workbook policy fs recursion_limit ifc_path = inl e
  | inr model =>
      match get_global_coords model with
      | inl e => build_workbook policy fs recursion_limit ifc_path = inl e
      | inr _ =>
          match flatten_hierarchy recursion_limit model with
          | inl e => build_workbook policy fs recursion_limit ifc_path = inl e
          | inr _ =>
              match all_IfcProduct model with
              | [] => build_workbook policy fs recursion_limit ifc_path
                      = inl (KeyError "Entité IFC")
              | _ :: _ => builds policy fs recursion_limit ifc_path
              end
          end
      end
  end.
Proof.
  unfold builds, build_workbook.
  destruct (ifcopenshell_open fs ifc_path) as [e|model]; [reflexivity|].
  cbn [Py.bind].
  destruct (get_global_coords model) as [e|glob]; [reflexivity|].
  cbn [Py.bind].
  destruct (flatten_hierarchy recursion_limit model) as [e|h]; [reflexivity|].
  cbn [Py.bind].
  match goal with
  | |- context [add_sheets policy new_workbook
                  [ (_, ?summary); (_, ?levels); (_, ?hierarchy);
                    (_, ?entities) ]] =>
      pose proof (add_sheets_report policy summary levels hierarchy entities)
        as Hsheets
  end.
  destruct (all_IfcProduct model) as [|obj products] eqn:Hp.
  - exact Hsheets.
  - destruct (ent_rows (count_entities (obj :: products))) as [|row rows] eqn:E.
    + apply ent_rows_nil in E. discriminate.
    + exact Hsheets.
Qed.

(** ** Names of the outputs *)

Lemma string_length_append (s t : string) :
  String.length (s ++ t) = String.length s + String.length t.
Proof.
  induction s as [|c s IH]; [reflexivity|].
  change (String c s +:+ t) with (String c (s +:+ t)).
  cbn [String.length Nat.add]. now f_equal.
Qed.

Lemma rfind_dot_append (s t : string) :
  rfind_dot (s ++ t)
  = match rfind_dot t with
    | Some i => Some (String.length s + i)
    | None => rfind_dot s
    end.
Proof.
  induction s as [|c s IH].
  - change ("" +:+ t) with t. cbn [rfind_dot String.length].
    now destruct (rfind_dot t).
  - change (String c s +:+ t) with (String c (s +:+ t)).
    cbn [rfind_dot String.length]. rewrite IH.
    destruct (rfind_dot t); [reflexivity|]. now destruct (rfind_dot s).
Qed.

Lemma substring_append_prefix (s t : string) :
  substring 0 (String.length s) (s ++ t) = s.
Proof.
  induction s as [|c s IH].
  - change ("" +:+ t) with t. cbn [String.length substring]. now destruct t.
  - change (String c s +:+ t) with (String c (s +:+ t)).
    cbn [String.length substring]. now rewrite IH.
Qed.

Lemma stem_of_name_ifc (base : string) :
  base <> "" -> stem_of_name (base ++ ".ifc") = base.
Proof.
  intros Hbase. unfold stem_of_name.
  rewrite rfind_dot_append. cbn [rfind_dot Ascii.eqb Bool.eqb].
  rewrite string_length_append. cbn [String.length].
  rewrite Nat.add_0_r.
  assert (0 < String.length base) by (destruct base; [congruence|cbn; lia]).
  replace (0 <? String.length base)%nat with true
    by (symmetry; apply Nat.ltb_lt; lia).
  replace (String.length base <? String.length base + 4 - 1)%nat with true
    by (symmetry; apply Nat.ltb_lt; lia).
  cbn [andb]. apply substring_append_prefix.
Qed.

(** X17. For an input file named base.ifc, with a non-empty base that may
    itself contain dots, the stem is the base: the standalone document is
    named base.xlsx and the merged sheets {sheet}_base. A file named just
    .ifc keeps its whole name as stem. *)
Theorem path_stem_ifc (dir : Path) (base sheet : string) :
  base <> "" ->
  let ifc_path := path_join dir (base ++ ".ifc") in
  path_stem ifc_path = base
  /\ with_suffix_name ifc_path ".xlsx" = (base ++ ".xlsx")%string
  /\ merged_title sheet ifc_path = (sheet ++ "_" ++ base)%string
  /\ path_stem (path_join dir ".ifc") = ".ifc".
Proof.
  intros Hbase ifc_path.
  assert (Hstem : path_stem ifc_path = base).
  { unfold path_stem, path_name, ifc_path, path_join.
    rewrite last_last. now apply stem_of_name_ifc. }
  unfold with_suffix_name, merged_title. rewrite Hstem.
  repeat split.
  unfold path_stem, path_name, path_join. now rewrite last_last.
Qed.

Lemma path_stem_ifc_witness :
  path_stem ["models"; "tour.v2.ifc"] = "tour.v2"
  /\ with_suffix_name ["models"; "tour.v2.ifc"] ".xlsx" = "tour.v2.xlsx".
Proof.
  destruct (path_stem_ifc ["models"] "tour.v2" "Niveaux") as (H1 & H2 & _).
  - discriminate.
  - split; [exact H1|exact H2].
Defined.

(** ** Discovery of the inputs *)

Lemma string_ltb_asym (a b : string) :
  String.ltb a b = true -> String.ltb b a = false.
Proof.
  unfold String.ltb. rewrite (String.compare_antisym a b).
  now destruct (String.compare b a).
Qed.

Lemma string_ltb_irrefl (a : string) : String.ltb a a = false.
Proof.
  destruct (String.ltb a a) eqn:E; [|reflexivity].
  pose proof (string_ltb_asym _ _ E). congruence.
Qed.

Lemma path_ltb_asym (p : Path) :
  forall q, path_ltb p q = true -> path_ltb q p = false.
Proof.
  induction p as [|a p IH]; intros [|b q]; cbn [path_ltb]; try congruence.
  rewrite (String.eqb_sym b a).
  destruct (String.eqb a b); [apply IH|apply string_ltb_asym].
Qed.

Lemma path_leb_total (p q : Path) :
  path_leb p q = false -> path_leb q p = true.
Proof.
  unfold path_leb. rewrite negb_false_iff, negb_true_iff.
  apply path_ltb_asym.
Qed.

(** X18. [discover_ifcs] returns the matches of the pattern that are
    regular files, each as often as the match occurs, in ascending order of
    path: no later path is smaller than an earlier neighbour. Matches that
    are not files, as a folder named like an IFC file, are left out. *)
Theorem discover_ifcs_spec (disk : Disk) (folder : Path) (recursive : bool) :
  let pattern := if recursive then "**/*.ifc" else "*.ifc" in
  let found := discover_ifcs disk folder recursive in
  Permutation (List.filter (is_file disk) (glob disk folder pattern)) found
  /\ Sorted (fun p q => path_ltb q p = false) found
  /\ Forall (fun p => is_file disk p = true) found.
Proof.
  intros pattern found. subst found. unfold discover_ifcs. fold pattern.
  pose proof (sorted_perm path_leb (fun p => p)
                (List.filter (is_file disk) (glob disk folder pattern))) as Hp.
  split; [exact Hp|]. split.
  - pose proof (sorted_Sorted path_leb (fun p => p) path_leb_total
                  (List.filter (is_file disk) (glob disk folder pattern))) as Hs.
    rewrite <- (map_id (sorted _ _ _)).
    eapply Sorted_map; [|exact Hs].
    intros p q Hpq. unfold key_le, path_leb in Hpq.
    now apply negb_true_iff in Hpq.
  - apply List.Forall_forall. intros p Hin.
    eapply Permutation_in in Hin; [|apply Permutation_sym, Hp].
    now apply filter_In in Hin.
Qed.

Lemma discover_ifcs_spec_example :
  discover_ifcs sample_disk models_dir false = [a_ifc; b_ifc; c_ifc].
Proof. vm_compute. reflexivity. Qed.

(** ** [main] *)

(** X19. [main] ends by [SystemExit] in three cases only: the parser
    ends it, for [-h] or for a command line that it refuses, with the status
    of the parser and after the lines that the parser prints; or, with a
    message, before any model is read and with nothing printed or written,
    the source is neither a file nor a folder, or it is a folder in which no
    IFC file is discovered. *)
Theorem main_system_exit (disk : Disk) (policy : TitlePolicy)
    (fs : FileSystem)
    (recursion_limit : nat) (parsed : Parsed) (arg : ExitArg) :
  snd (main disk policy fs recursion_limit parsed) = SystemExit arg
  <-> (exists status printed,
          parsed = ParserExit status printed
          /\ arg = ExitStatus status
          /\ fst (main disk policy fs recursion_limit parsed)
             = {| merge_wb := None; written := []; stdout := printed |})
      \/ (exists args,
             parsed = Namespace args
             /\ is_file disk (arg_src args) = false
             /\ ((is_dir disk (arg_src args) = false
                  /\ arg = ExitMessage "❌  Chemin source introuvable")
                 \/ (is_dir disk (arg_src args) = true
                     /\ discover_ifcs disk (arg_src args) (arg_recursive args)
                        = []
                     /\ arg = ExitMessage
                                "❌  Aucun .ifc trouvé dans ce dossier"))
             /\ fst (main disk policy fs recursion_limit parsed)
                = initial_world).
Proof.
  destruct parsed as [args|status printed].
  - cbn [main]. split.
    + intros H. right. exists args. split; [reflexivity|].
      destruct (is_file disk (arg_src args)).
      * destruct (build_workbook policy fs recursion_limit (arg_src args));
          discriminate H.
      * split; [reflexivity|].
        destruct (is_dir disk (arg_src args)); cbn [negb] in *.
        -- destruct (discover_ifcs disk (arg_src args) (arg_recursive args))
             as [|f l] eqn:Hd.
           ++ cbn in H. injection H as <-. auto 6.
           ++ destruct (main_batch _ _ _ _ _ _ _) as [w [e|u]];
                discriminate H.
        -- cbn in H. injection H as <-. auto 6.
    + intros [(status & printed & H & _)|(args' & [= <-] & Hf & Hcase & _)];
        [discriminate|].
      rewrite Hf.
      destruct Hcase as [[Hd ->]|(Hd & Hnil & ->)]; rewrite Hd; cbn [negb].
      * reflexivity.
      * now rewrite Hnil.
  - cbn [main snd fst]. split.
    + intros [= <-]. left. eauto.
    + intros [(status' & printed' & [= <- <-] & -> & _)
             |(args & H & _)]; [reflexivity|discriminate].
Qed.

(** X20. Run on a folder in standalone mode, when the report of every
    discovered input can be built, [main] returns normally and has written
    one document per discovered input, in ascending order of the input
    paths. *)
Theorem main_folder_standalone (disk : Disk) (policy : TitlePolicy)
    (fs : FileSystem)
    (recursion_limit : nat) (args : Args) :
  is_file disk (arg_src args) = false ->
  is_dir disk (arg_src args) = true ->
  arg_merge args = false ->
  let ifc_files := discover_ifcs disk (arg_src args) (arg_recursive args) in
  ifc_files <> [] ->
  Forall (builds policy fs recursion_limit) ifc_files ->
  exists w,
    main disk policy fs recursion_limit (Namespace args) = (w, Returned)
    /\ Forall2 (standalone_output policy fs recursion_limit (arg_output args))
               ifc_files (written w).
Proof.
  intros Hfile Hdir Hmerge ifc_files Hne Hall. unfold main.
  rewrite Hfile, Hdir, Hmerge. cbn [negb]. fold ifc_files.
  clearbody ifc_files.
  destruct ifc_files as [|f l] eqn:Hfiles; [congruence|].
  rewrite <- Hfiles in *. clear Hfiles. unfold main_batch.
  match goal with
  | |- context [for_ifc_files _ _ _ _ _ _ ?w0] =>
      destruct (for_ifc_files_standalone policy fs recursion_limit (arg_output args)
                  ifc_files Hall w0) as (w' & outs & Hrun & Hm & Hwr & Houts)
  end.
  rewrite Hrun. eexists. split; [reflexivity|].
  cbn [print written]. rewrite Hwr. exact Houts.
Qed.

Lemma main_folder_standalone_witness :
  exists w,
    main sample_disk numbered_title (sample_fs []) 3
         (Namespace (cli_args models_dir))
    = (w, Returned)
    /\ map fst (written w)
       = [ ["models"; "a.xlsx"]; ["models"; "b.xlsx"]; ["models"; "c.xlsx"] ].
Proof.
  destruct (main_folder_standalone sample_disk numbered_title (sample_fs []) 3
              (cli_args models_dir)) as (w & Hrun & Houts).
  - reflexivity.
  - reflexivity.
  - reflexivity.
  - vm_compute. discriminate.
  - vm_compute discover_ifcs.
    repeat constructor; apply sample_fs_builds, not_elem_of_nil.
  - exists w. split; [exact Hrun|].
    vm_compute discover_ifcs in Houts.
    destruct (written w) as [|o1 [|o2 [|o3 [|o4 outs]]]];
      try (exfalso; apply Forall2_length in Houts; discriminate Houts).
    apply List.Forall2_cons_iff in Houts. destruct Houts as [[Ho1 _] Houts].
    apply List.Forall2_cons_iff in Houts. destruct Houts as [[Ho2 _] Houts].
    apply List.Forall2_cons_iff in Houts. destruct Houts as [[Ho3 _] _].
    cbn [map]. now rewrite Ho1, Ho2, Ho3.
Defined.

(** ** The launcher *)

(** On the command line of the launcher the script ends with the exit
    status 0 only when it returns. *)
Lemma script_exit_status (inst : Installation) (disk : Disk)
    (policy : TitlePolicy) (fs : FileSystem) (recursion_limit : nat)
    (args : Args) :
  match snd (script inst disk policy fs recursion_limit (Namespace args)) with
  | Returned => True
  | outcome => exit_status outcome = 1
  end.
Proof.
  unfold script. destruct (missing_module inst); [reflexivity|].
  destruct (ifcopenshell_found inst); [|reflexivity].
  cbn [main].
  destruct (is_file disk (arg_src args)).
  - now destruct (build_workbook policy fs recursion_limit (arg_src args)).
  - destruct (is_dir disk (arg_src args)); cbn [negb]; [|reflexivity].
    destruct (discover_ifcs disk (arg_src args) (arg_recursive args));
      [reflexivity|].
    now destruct (main_batch _ _ _ _ _ _ _) as [w [e|u]].
Qed.

(** X21. Run from source (not frozen), the launcher always returns and
    shows exactly one message box: "Annulé" when no folder is chosen,
    "Terminé" when the script is found and returns normally, and "Erreur" in
    every other case, the exits of the script by [sys.exit] and for want of
    ifcopenshell included. *)
Theorem launcher_main_one_dialog (l : Launcher) (inst : Installation)
    (disk : Disk) (policy : TitlePolicy) (fs : FileSystem)
    (recursion_limit : nat) (chosen : option Path) :
  frozen l = false ->
  exists w d,
    launcher_main l inst disk policy fs recursion_limit chosen
    = (w, [d], LauncherReturned)
    /\ match chosen with
       | None => d = showinfo "Annulé" "Aucun dossier sélectionné."
       | Some folder =>
           if script_exists l then
             match snd (script inst disk policy fs recursion_limit
                               (Namespace (cli_args folder))) with
             | Returned => d = showinfo "Terminé" "Analyse IFC → Excel terminée !"
             | _ => d = showerror "Erreur" "Le traitement a échoué."
                                  (CalledProcessError 1)
             end
           else exists message,
               d = showerror "Erreur" "Le traitement a échoué."
                             (FileNotFoundError message)
       end.
Proof.
  intros Hfrozen. unfold launcher_main, run_cli. rewrite Hfrozen.
  destruct chosen as [folder|]; [|eauto].
  destruct (script_exists l); cbn [negb]; [|eauto 6].
  pose proof (script_exit_status inst disk policy fs recursion_limit
                (cli_args folder)) as Hstatus.
  destruct (script inst disk policy fs recursion_limit
                   (Namespace (cli_args folder))) as [w outcome].
  cbn [snd] in *.
  destruct outcome as [|e|arg]; [cbn; eauto|rewrite Hstatus; eauto..].
Qed.

Lemma launcher_main_one_dialog_witness :
  exists w,
    launcher_main {| script_exists := true; frozen := false |}
                  complete_installation empty_disk numbered_title
                  (sample_fs []) 3 (Some models_dir)
    = (w, [showerror "Erreur" "Le traitement a échoué." (CalledProcessError 1)],
       LauncherReturned).
Proof.
  destruct (launcher_main_one_dialog
              {| script_exists := true; frozen := false |}
              complete_installation empty_disk numbered_title (sample_fs []) 3
              (Some models_dir) eq_refl)
    as (w & d & Hrun & Hd).
  exists w. cbn in Hd. now rewrite Hd in Hrun.
Defined.

(** X22. In the frozen executable the script runs in the process of the
    launcher, and its [SystemExit] is not caught: the launcher shows no
    message box exactly when a folder is chosen, the script is found and
    the script ends by [SystemExit]; it then ends with that exit itself.
    The script ends so when pandas and openpyxl are imported and either
    ifcopenshell is not, with the status 1, or [main] ends so (no IFC file
    in the folder, or no such folder). *)
Theorem launcher_main_frozen_exit (l : Launcher) (inst : Installation)
    (disk : Disk) (policy : TitlePolicy) (fs : FileSystem)
    (recursion_limit : nat) (chosen : option Path) :
  frozen l = true ->
  let '(_, dialogs, ending) :=
    launcher_main l inst disk policy fs recursion_limit chosen in
  (dialogs = [] <-> ending <> LauncherReturned)
  /\ (forall arg,
        ending = LauncherExit arg
        <-> script_exists l = true
            /\ exists folder,
                chosen = Some folder
                /\ snd (script inst disk policy fs recursion_limit
                               (Namespace (cli_args folder)))
                   = SystemExit arg)
  /\ (forall parsed arg,
        snd (script inst disk policy fs recursion_limit parsed)
        = SystemExit arg
        <-> missing_module inst = None
            /\ ((ifcopenshell_found inst = false /\ arg = ExitStatus 1)
                \/ (ifcopenshell_found inst = true
                    /\ snd (main disk policy fs recursion_limit parsed)
                       = SystemExit arg))).
Proof.
  intros Hfrozen.
  assert (Hscript :
            forall parsed arg,
              snd (script inst disk policy fs recursion_limit parsed)
              = SystemExit arg
              <-> missing_module inst = None
                  /\ ((ifcopenshell_found inst = false /\ arg = ExitStatus 1)
                      \/ (ifcopenshell_found inst = true
                          /\ snd (main disk policy fs recursion_limit parsed)
                             = SystemExit arg))).
  { intros parsed arg. unfold script.
    destruct (missing_module inst) as [name|]; cbn [snd].
    - split; [discriminate|]. intros [H _]. discriminate.
    - destruct (ifcopenshell_found inst); cbn [snd].
      + split.
        * intros H. split; [reflexivity|]. right. auto.
        * intros [_ [[H _]|[_ H]]]; [discriminate|exact H].
      + split.
        * intros [= <-]. split; [reflexivity|]. left. auto.
        * intros [_ [[_ ->]|[H _]]]; [reflexivity|discriminate]. }
  unfold launcher_main, run_cli. rewrite Hfrozen.
  destruct chosen as [folder|].
  - destruct (script_exists l); cbn [negb].
    + destruct (script inst disk policy fs recursion_limit
                       (Namespace (cli_args folder)))
        as [w [|e|m]] eqn:Hmain; cbn [snd].
      * split; [split; [discriminate|congruence]|]. split; [|exact Hscript].
        intros arg. split; [discriminate|].
        intros (_ & f & [= <-] & H). rewrite Hmain in H. discriminate.
      * split; [split; [discriminate|congruence]|]. split; [|exact Hscript].
        intros arg. split; [discriminate|].
        intros (_ & f & [= <-] & H). rewrite Hmain in H. discriminate.
      * split; [split; [discriminate|reflexivity]|]. split; [|exact Hscript].
        intros arg. split.
        -- intros [= <-]. split; [reflexivity|].
           exists folder. now rewrite Hmain.
        -- intros (_ & f & [= <-] & H). rewrite Hmain in H. cbn in H.
           congruence.
    + split; [split; [discriminate|congruence]|]. split; [|exact Hscript].
      intros arg. split; [discriminate|]. intros [H _]. discriminate.
  - split; [split; [discriminate|congruence]|]. split; [|exact Hscript].
    intros arg. split; [discriminate|].
    intros (_ & f & H & _). discriminate.
Qed.

Lemma launcher_main_frozen_exit_witness :
  launcher_main {| script_exists := true; frozen := true |}
                no_ifcopenshell sample_disk numbered_title (sample_fs []) 3
                (Some models_dir)
  = (initial_world, [], LauncherExit (ExitStatus 1)).
Proof.
  pose proof (launcher_main_frozen_exit
                {| script_exists := true; frozen := true |}
                no_ifcopenshell sample_disk numbered_title (sample_fs []) 3
                (Some models_dir) eq_refl) as H.
  destruct (launcher_main _ _ _ _ _ _) as [[w dialogs] ending] eqn:E.
  destruct H as (Hd & He & _).
  assert (Hend : ending = LauncherExit (ExitStatus 1)).
  { apply He. split; [reflexivity|]. exists models_dir. split; reflexivity. }
  assert (Hnil : dialogs = []) by (apply Hd; rewrite Hend; discriminate).
  rewrite Hend, Hnil. vm_compute in E. injection E as <- _ _. reflexivity.
Defined.

(** ** What a run prints *)

Lemma path_name_join (dir : Path) (name : string) :
  path_name (path_join dir name) = name.
Proof. unfold path_name, path_join. apply last_last. Qed.

Lemma for_ifc_files_stdout (policy : TitlePolicy) (fs : FileSystem)
    (recursion_limit : nat)
    (out_dir : option Path) (ifc_files : list Path) :
  Forall (builds policy fs recursion_limit) ifc_files ->
  forall w,
    stdout (fst (for_ifc_files policy fs recursion_limit ifc_files out_dir false w))
    = stdout w ++ flat_map progress_lines ifc_files.
Proof.
  induction 1 as [|f l [wb Hwb] _ IH]; intros w; cbn [for_ifc_files flat_map].
  - now rewrite app_nil_r.
  - unfold process_single. rewrite Hwb. cbn match. unfold Py.ret.
    rewrite IH. cbn [save_wb print stdout]. rewrite path_name_join.
    unfold progress_lines, with_suffix_name.
    now rewrite <- !app_assoc.
Qed.

(** X23. In a standalone run in which every report can be built, the
    console shows the announcement of the number of inputs, then for each
    input in turn its file name followed, once its document is written, by
    the name of that document, and at the end the closing line. *)
Theorem main_batch_stdout (policy : TitlePolicy) (fs : FileSystem)
    (recursion_limit : nat)
    (src : Path) (ifc_files : list Path) (output : option Path) :
  Forall (builds policy fs recursion_limit) ifc_files ->
  stdout (fst (main_batch policy fs recursion_limit src ifc_files output false))
  = [ ("▶ Analyse de " ++ string_of_nat (length ifc_files) ++ " IFC …")%string ]
    ++ flat_map progress_lines ifc_files
    ++ [ "✅  Terminé." ].
Proof.
  intros Hall. unfold main_batch.
  match goal with
  | |- context [for_ifc_files _ _ _ _ _ _ ?w0] =>
      pose proof (for_ifc_files_stdout policy fs recursion_limit output ifc_files
                    Hall w0) as Hout;
      destruct (for_ifc_files_standalone policy fs recursion_limit output ifc_files
                  Hall w0) as (w' & outs & Hrun & _)
  end.
  rewrite Hrun in *. cbn [fst print stdout] in *. rewrite Hout.
  now rewrite <- app_assoc.
Qed.

Lemma main_batch_stdout_witness :
  stdout (fst (main_batch numbered_title (sample_fs []) 3 models_dir [a_ifc; b_ifc] None false))
  = [ "▶ Analyse de 2 IFC …"; "- a.ifc"; "  ✔ a.xlsx"; "- b.ifc";
      "  ✔ b.xlsx"; "✅  Terminé." ].
Proof.
  refine (main_batch_stdout numbered_title (sample_fs []) 3 models_dir [a_ifc; b_ifc] None _).
  repeat constructor; apply sample_fs_builds, not_elem_of_nil.
Defined.
